(** * Eyes for Agents: a shallow embedding of the orchestration layer

    The first part of the development follows the layout of the
    JavaScript sources:

    - [Errors]    : src/errors.js   (typed errors, [toEyesError])
    - [RegExp]    : the regular expressions that the sources use
    - [Security]  : src/security.js (the SSRF guard, [guardNavigation])
    - [Dom]       : the DOM nodes that [serializeDOM] reads
    - [Engine]    : the browser engine as an oracle, and the monad of
                    the effects (state, exceptions, clock, random draws)
    - [Artifacts] : src/artifacts.js ([serializeDOM], [diffDataURLs])
    - [Eyes]      : src/agent-eyes.js (the [AgentEyes] session)
    - [Runner]    : src/runner.js   ([EyesRunner])
    - [Buffers]   : src/agent-eyes.js ([getConsole], [getNetwork])
    - [Suggest]   : src/agent-eyes.js (the ranking that
                    [_suggestSelectors] evaluates in the page)
    - [Hash]      : src/artifacts.js ([aHashDataURL])
    - [Detect]    : src/detectors.js (the canvas hook and its readers)
    - [Sample], [Decide], [Notions], [Plans], [Pixels], [Tracing],
      [Guarded]   : the notions used in the statements, and sample
                    inputs

    The second part states and proves the properties, one module per
    subject.

    JavaScript numbers that the code only uses as integers are [Z];
    strings are [string]; [undefined]/[null] is [None].  A promise that
    rejects and a synchronous [throw] inside an [async] function are the
    same observable event for the caller ([await] rethrows), so both are
    the [Throw] result of the monad [M] below.  The session is driven by
    one caller at a time: the actions of one session do not interleave. *)

From Stdlib Require Import ZArith List String Ascii Bool Lia QArith Qround DecimalString.
From Stdlib Require Import Sorted Permutation.
Import ListNotations.
Open Scope string_scope.
Open Scope Z_scope.

Set Implicit Arguments.
Set Warnings "-register-all".

(* ===================================================================== *)
(** * src/errors.js *)
(* ===================================================================== *)

Module Errors.

Inductive ErrorCode : Type :=
| ELEMENT_NOT_FOUND
| NAVIGATION_TIMEOUT
| SCRIPT_ERROR
| SECURITY_BLOCKED
| RATE_LIMIT
| BAD_INPUT
| INTERNAL.

(** Values that the code throws.  [EyesError] is the class hierarchy of
    errors.js (the subclass is determined by [code]); [JsError] is any
    other [Error] object (an engine failure, a [TypeError]).  The fields
    [name] and [data] of the class are never read by the modelled code
    and are left out. *)
Inductive Thrown : Type :=
| EyesError (code : ErrorCode) (message : string)
            (hint : option string) (original : option Thrown)
| JsError (message : string).

(** JS truthiness of a possibly missing string. *)
Definition truthy (o : option string) : bool :=
  match o with
  | Some s => negb (String.eqb s "")
  | None => false
  end.

(** [opts.hint || undefined] *)
Definition or_undefined (o : option string) : option string :=
  if truthy o then o else None.

(** [new EyesError(code, message, opts)] *)
Definition mkEyesError (code : ErrorCode) (message : string)
    (hint : option string) (cause : option Thrown) : Thrown :=
  EyesError code message (or_undefined hint) cause.

Definition ElementNotFoundError := mkEyesError ELEMENT_NOT_FOUND.
Definition NavigationTimeoutError := mkEyesError NAVIGATION_TIMEOUT.
Definition ScriptError := mkEyesError SCRIPT_ERROR.
Definition SecurityBlockedError := mkEyesError SECURITY_BLOCKED.
Definition BadInputError := mkEyesError BAD_INPUT.
Definition InternalError := mkEyesError INTERNAL.

(** [toEyesError(err, fallbackMsg = 'Unexpected error')] *)
Definition toEyesError (err : Thrown) : Thrown :=
  match err with
  | EyesError _ _ _ _ => err
  | JsError m =>
      let message := if negb (String.eqb m "") then m else "Unexpected error" in
      InternalError message None (Some err)
  end.

Definition code_of (err : Thrown) : option ErrorCode :=
  match err with
  | EyesError c _ _ _ => Some c
  | JsError _ => None
  end.

Definition message_of (err : Thrown) : string :=
  match err with
  | EyesError _ m _ _ => m
  | JsError m => m
  end.

Definition hint_of (err : Thrown) : option string :=
  match err with
  | EyesError _ _ h _ => h
  | JsError _ => None
  end.

Definition is_code (c : ErrorCode) (err : Thrown) : bool :=
  match code_of err, c with
  | Some ELEMENT_NOT_FOUND, ELEMENT_NOT_FOUND
  | Some NAVIGATION_TIMEOUT, NAVIGATION_TIMEOUT
  | Some SCRIPT_ERROR, SCRIPT_ERROR
  | Some SECURITY_BLOCKED, SECURITY_BLOCKED
  | Some RATE_LIMIT, RATE_LIMIT
  | Some BAD_INPUT, BAD_INPUT
  | Some INTERNAL, INTERNAL => true
  | _, _ => false
  end.

End Errors.
Import Errors.

(* ===================================================================== *)
(** * Regular expressions, as far as the sources use them *)
(* ===================================================================== *)

Module RegExp.

(** The fragment of JavaScript regular expressions that occurs in the
    sources: literals, character ranges, [\d], concatenation,
    alternation and [?].  Every pattern of the sources starts with [^];
    [dollar] records a closing [$] and [flag_i] the flag [i]. *)
Inductive re : Type :=
| Eps
| Chr (c : ascii)
| Range (lo hi : ascii)
| Cat (r1 r2 : re)
| Alt (r1 r2 : re)
| Opt (r : re).

Record t : Type := mk { body : re; dollar : bool; flag_i : bool }.

Fixpoint lit (s : string) : re :=
  match s with
  | EmptyString => Eps
  | String c s' => Cat (Chr c) (lit s')
  end.

Definition digit : re := Range "0" "9".

Definition lower (c : ascii) : ascii :=
  let n := nat_of_ascii c in
  if andb (Nat.leb 65 n) (Nat.leb n 90) then ascii_of_nat (n + 32) else c.

Fixpoint lower_string (s : string) : string :=
  match s with
  | EmptyString => EmptyString
  | String c s' => String (lower c) (lower_string s')
  end.

Definition chr_eqb (ci : bool) (a b : ascii) : bool :=
  if ci then Ascii.eqb (lower a) (lower b) else Ascii.eqb a b.

Definition in_range (lo hi c : ascii) : bool :=
  andb (Nat.leb (nat_of_ascii lo) (nat_of_ascii c))
       (Nat.leb (nat_of_ascii c) (nat_of_ascii hi)).

Fixpoint nullable (r : re) : bool :=
  match r with
  | Eps => true
  | Chr _ => false
  | Range _ _ => false
  | Cat r1 r2 => andb (nullable r1) (nullable r2)
  | Alt r1 r2 => orb (nullable r1) (nullable r2)
  | Opt _ => true
  end.

(** [None] is the regular expression that matches nothing. *)
Fixpoint deriv (ci : bool) (c : ascii) (r : re) : option re :=
  match r with
  | Eps => None
  | Chr a => if chr_eqb ci a c then Some Eps else None
  | Range lo hi => if in_range lo hi c then Some Eps else None
  | Cat r1 r2 =>
      let left := match deriv ci c r1 with
                  | Some d => Some (Cat d r2)
                  | None => None
                  end in
      if nullable r1 then
        match left, deriv ci c r2 with
        | Some l, Some d2 => Some (Alt l d2)
        | Some l, None => Some l
        | None, d2 => d2
        end
      else left
  | Alt r1 r2 =>
      match deriv ci c r1, deriv ci c r2 with
      | Some d1, Some d2 => Some (Alt d1 d2)
      | Some d1, None => Some d1
      | None, d2 => d2
      end
  | Opt r1 => deriv ci c r1
  end.

(** [^r$]: the whole input matches. *)
Fixpoint full (ci : bool) (r : re) (s : string) : bool :=
  match s with
  | EmptyString => nullable r
  | String c s' =>
      match deriv ci c r with
      | Some d => full ci d s'
      | None => false
      end
  end.

(** [^r]: some prefix of the input matches. *)
Fixpoint prefix (ci : bool) (r : re) (s : string) : bool :=
  if nullable r then true else
  match s with
  | EmptyString => false
  | String c s' =>
      match deriv ci c r with
      | Some d => prefix ci d s'
      | None => false
      end
  end.

(** [re.test(s)] *)
Definition test (p : t) (s : string) : bool :=
  if dollar p then full (flag_i p) (body p) s
  else prefix (flag_i p) (body p) s.

End RegExp.

(* ===================================================================== *)
(** * src/security.js *)
(* ===================================================================== *)

Module Security.
Import RegExp.

(** The part of a WHATWG [URL] object that the guard reads. *)
Record URL : Type := mkURL {
  protocol : string;
  hostname : string;
  href : string          (* [u.toString()] *)
}.

(** [PRIVATE_CIDRS] *)
Definition PRIVATE_CIDRS : list RegExp.t :=
  [ (* /^10\./ *)
    RegExp.mk (lit "10.") false false;
    (* /^127\./ *)
    RegExp.mk (lit "127.") false false;
    (* /^169\.254\./ *)
    RegExp.mk (lit "169.254.") false false;
    (* /^172\.(1[6-9]|2\d|3[0-1])\./ *)
    RegExp.mk (Cat (lit "172.")
                (Cat (Alt (Cat (Chr "1") (Range "6" "9"))
                        (Alt (Cat (Chr "2") digit)
                             (Cat (Chr "3") (Range "0" "1"))))
                     (Chr "."))) false false;
    (* /^192\.168\./ *)
    RegExp.mk (lit "192.168.") false false;
    (* /^\[?::1\]?$/ *)
    RegExp.mk (Cat (Opt (Chr "[")) (Cat (lit "::1") (Opt (Chr "]")))) true false;
    (* /^fe80:/i *)
    RegExp.mk (lit "fe80:") false true;
    (* /^fc00:/i *)
    RegExp.mk (lit "fc00:") false true;
    (* /^fd00:/i *)
    RegExp.mk (lit "fd00:") false true;
    (* /^localhost$/i *)
    RegExp.mk (lit "localhost") true true ].

(** [s.replace(/^\[/, '')] *)
Definition strip_open (s : string) : string :=
  match s with
  | String "[" s' => s'
  | _ => s
  end.

(** [s.replace(/\]$/, '')] *)
Fixpoint strip_close (s : string) : string :=
  match s with
  | EmptyString => EmptyString
  | String c s' =>
      match s' with
      | EmptyString => if Ascii.eqb c "]" then EmptyString else s
      | _ => String c (strip_close s')
      end
  end.

(** [isPrivateHostname(hostname)] *)
Definition isPrivateHostname (hostname : string) : bool :=
  let hn := strip_close (strip_open hostname) in
  existsb (fun re => RegExp.test re hn) PRIVATE_CIDRS.

(** The options object of [guardNavigation].  [allowNavigationTo] is a
    caller-supplied [RegExp]; only its [test] method is used.
    [blockPrivateIPs] is [None] when the property is absent. *)
Record GuardOptions : Type := mkGuardOptions {
  allowNavigationTo : option (string -> bool);
  blockPrivateIPs : option bool
}.

(** [options.blockPrivateIPs !== false] *)
Definition not_false (o : option bool) : bool :=
  match o with
  | Some false => false
  | _ => true
  end.

Section Guard.
(** [new URL(url)] of the host platform: [None] when it throws. *)
Variable new_URL : string -> option URL.

(** [ensureValidUrl(url)] *)
Definition ensureValidUrl (url : string) : Thrown + URL :=
  match new_URL url with
  | Some u => inr u
  | None => inl (BadInputError ("Invalid URL: " ++ url) None None)
  end.

(** [guardNavigation(rawUrl, options = {})] *)
Definition guardNavigation (rawUrl : string) (options : GuardOptions)
  : Thrown + string :=
  match ensureValidUrl rawUrl with
  | inl e => inl e
  | inr u =>
      if negb (RegExp.test (RegExp.mk (Cat (lit "http") (Cat (Opt (Chr "s")) (Chr ":"))) true false)
                 (protocol u))
      then inl (SecurityBlockedError
                  ("Blocked non-HTTP(S) scheme: " ++ protocol u) None None)
      else if match allowNavigationTo options with
              | Some allow => negb (allow (href u))
              | None => false
              end
      then inl (SecurityBlockedError
                  ("URL not allowed by allowlist: " ++ href u) None None)
      else if andb (not_false (blockPrivateIPs options))
                   (isPrivateHostname (hostname u))
      then inl (SecurityBlockedError
                  ("Blocked private/loopback host: " ++ hostname u) None None)
      else inr (href u)
  end.
End Guard.

End Security.

(* ===================================================================== *)
(** * The page: DOM nodes as [serializeDOM] reads them *)
(* ===================================================================== *)

Module Dom.

(** A DOM node, with the properties that [nodeInfo] reads.  [nodeType]
    is 1 for elements and 3 for text nodes; an attribute is a pair of
    its [name] and its [value] ([None] for [null]). *)
Inductive Node : Type :=
| mkNode (nodeType : Z) (tagName nodeName : string)
         (attributes : list (string * option string))
         (innerText nodeValue : option string)
         (childNodes : list Node).

(** The object that [nodeInfo] builds; [text] is [None] when the
    property is never assigned. *)
Inductive Info : Type :=
| mkInfo (tag : string) (attrs : list (string * string))
         (children : list Info) (text : option string).

Definition children (i : Info) : list Info :=
  match i with mkInfo _ _ c _ => c end.

Definition text (i : Info) : option string :=
  match i with mkInfo _ _ _ t => t end.

Definition tag (i : Info) : string :=
  match i with mkInfo t _ _ _ => t end.

Definition nodeType (n : Node) : Z :=
  match n with mkNode ty _ _ _ _ _ _ => ty end.

Definition childNodes (n : Node) : list Node :=
  match n with mkNode _ _ _ _ _ _ k => k end.

End Dom.

(* ===================================================================== *)
(** * The external engine and the effect monad *)
(* ===================================================================== *)

Module Engine.

(** A Playwright locator: how it was resolved, and the optional [nth]. *)
Inductive Locator : Type :=
| BySelector (selector : string) (nth : option Z)
| ByText (text : string) (nth : option Z).

(** A JavaScript number as far as [delayMs] goes: an integer, or
    [NaN], which is also what [Math.max] makes of a value that is not
    numeric (a string such as ['fast'], an object).  Fractions and the
    infinities are left out. *)
Inductive Num : Type :=
| Whole (n : Z)
| NaN.

(** [Math.max(a, b)] and [Math.min(a, b)]: [NaN] when an argument is. *)
Definition Math_max (a b : Num) : Num :=
  match a, b with
  | Whole x, Whole y => Whole (Z.max x y)
  | _, _ => NaN
  end.

Definition Math_min (a b : Num) : Num :=
  match a, b with
  | Whole x, Whole y => Whole (Z.min x y)
  | _, _ => NaN
  end.

(** The calls that the session makes on the browser engine. *)
Inductive EngineCall : Type :=
| Launch
| NewContext
| NewPage
| InjectCanvasHook
| PageClose
| ContextClose
| BrowserClose
| Url
| Title
| ViewportSize
| Goto (url waitUntil : string) (timeout : Z)
| WaitForSelector (selector : string) (timeout : Z)
| WaitForLoadState (state : string) (timeout : Z)
| WaitForTimeout (ms : Z)
| LocatorWaitFor (l : Locator) (timeout : Z)
| LocatorScrollIntoView (l : Locator)
| LocatorClick (l : Locator) (timeout : Z)
| KeyboardType (text : string) (delay : Num)
| KeyboardPress (key : option string)
| Evaluate (expression : option string)
| ScrollTo (x y : Z)
| SetContent (html : string) (timeout : Z)
| Screenshot (type : string) (quality : option Z) (fullPage : bool)
| SuggestSelectors (selector : string)
| DocumentElement.

(** What the engine hands back. *)
Inductive Value : Type :=
| VUndefined
| VString (s : string)
| VStrings (l : list string)
| VBytes (b : list Z)
| VViewport (width height : Z)
| VDocument (root : option Dom.Node).

Inductive Answer : Type :=
| Done (v : Value)
| Failed (message : string).

(** One answer of the engine: how long the call took and what came
    back. *)
Record Outcome : Type := mkOutcome { elapsed : Z; answer : Answer }.

Record ConsoleRec : Type := mkConsoleRec {
  c_type : string; c_text : string; c_ts : Z
}.

Record NetworkRec : Type := mkNetworkRec {
  n_url : string; n_method : string; n_status : Z; n_ts : Z
}.

(** Everything observable from outside the session object, in the order
    in which it happens: engine calls, emitted events ([this.emit]) and
    lines written to the trace stream. *)
Inductive Effect : Type :=
| Called (c : EngineCall)
| EmitActionCompleted (action : string) (durationMs : Z)
| EmitConsole (r : ConsoleRec)
| EmitNetwork (r : NetworkRec)
| Traced (event : string) (durationMs : Z) (success : bool)
         (error : option Thrown).

Section Monad.
(** The mutable state of the program under study. *)
Variable St : Type.

(** The world: the program state and its environment.  [engine] and
    [random] are the future answers of the engine and of
    [Math.random()]; [now] is [Date.now()]; [new_URL] is the [URL]
    constructor of the platform ([None] when it throws).  A draw [u]
    of [random] stands for the number [(u mod 2^53) / 2^53] of
    [0,1). *)
Record World : Type := mkWorld {
  state : St;
  engine : list Outcome;
  random : list Z;
  now : Z;
  log : list Effect;
  new_URL : string -> option Security.URL
}.

Inductive Result (A : Type) : Type :=
| Ok (a : A)
| Throw (e : Thrown).

Definition M (A : Type) : Type := World -> Result A * World.

Definition ret {A} (a : A) : M A := fun w => (Ok a, w).

Definition throw {A} (e : Thrown) : M A := fun w => (Throw A e, w).

Definition bind {A B} (m : M A) (k : A -> M B) : M B :=
  fun w =>
    match m w with
    | (Ok a, w') => k a w'
    | (Throw _ e, w') => (Throw B e, w')
    end.

(** [try { m } catch (e) { h e }] *)
Definition try_catch {A} (m : M A) (h : Thrown -> M A) : M A :=
  fun w =>
    match m w with
    | (Ok a, w') => (Ok a, w')
    | (Throw _ e, w') => h e w'
    end.

Definition get : M St := fun w => (Ok (state w), w).

Definition modify (f : St -> St) : M unit :=
  fun w => (Ok tt, mkWorld (f (state w)) (engine w) (random w) (now w)
                           (log w) (new_URL w)).

Definition tell (e : Effect) : M unit :=
  fun w => (Ok tt, mkWorld (state w) (engine w) (random w) (now w)
                           (log w ++ [e])%list (new_URL w)).

(** [Date.now()] *)
Definition Date_now : M Z := fun w => (Ok (now w), w).

Definition URL_constructor : M (string -> option Security.URL) :=
  fun w => (Ok (new_URL w), w).

(** [Math.random()]: the draw, to be read as [(u mod 2^53) / 2^53]. *)
Definition Math_random : M Z :=
  fun w =>
    match random w with
    | [] => (Ok 0, w)
    | u :: rest =>
        (Ok (u mod 2^53),
         mkWorld (state w) (engine w) rest (now w) (log w) (new_URL w))
    end.

(** The next answer of the engine.  An engine that has no answer left
    answers [undefined] at once. *)
Definition next_outcome (w : World) : Outcome :=
  match engine w with
  | [] => mkOutcome 0 (Done VUndefined)
  | o :: _ => o
  end.

(** The world after the engine has served the call [c]: the call is
    logged and time has passed. *)
Definition served (c : EngineCall) (w : World) : World :=
  mkWorld (state w) (tl (engine w)) (random w)
          (now w + elapsed (next_outcome w)) (log w ++ [Called c])%list
          (new_URL w).

(** One call on the engine. *)
Definition call (c : EngineCall) : M Value :=
  fun w =>
    match answer (next_outcome w) with
    | Done v => (Ok v, served c w)
    | Failed m => (Throw Value (JsError m), served c w)
    end.
End Monad.

Arguments Ok {A} a.
Arguments Throw {A} e.
Arguments ret {St A} a.
Arguments throw {St A} e.
Arguments get {St}.
Arguments tell {St} e.
Arguments Date_now {St}.
Arguments URL_constructor {St}.
Arguments Math_random {St}.
Arguments call {St} c.
Arguments next_outcome {St} w.
Arguments served {St} c w.

Declare Scope eyes_scope.
Notation "x <- m ;; k" := (bind m (fun x => k))
  (at level 61, m at next level, right associativity) : eyes_scope.
Notation "m ;;; k" := (bind m (fun _ => k))
  (at level 61, right associativity) : eyes_scope.

Definition is_ok {A} (r : Result A) : bool :=
  match r with Ok _ => true | Throw _ => false end.

(** A computation that returns normally from every world. *)
Definition never_throws {St A} (m : M St A) : Prop :=
  forall w, is_ok (fst (m w)) = true.

(** A computation that takes every world to a world related to it by
    [R], whether it returns or throws. *)
Definition respects {St A} (R : World St -> World St -> Prop) (m : M St A) : Prop :=
  forall w, R w (snd (m w)).

(** A computation that throws from every world. *)
Definition always_throws {St A} (m : M St A) : Prop :=
  forall w, is_ok (fst (m w)) = false.

(** A computation that throws nothing but values in [P]. *)
Definition throws_only {St A} (P : Thrown -> Prop) (m : M St A) : Prop :=
  forall w e, fst (m w) = Throw e -> P e.

(** [p.catch(() => null)]: the value of a settled promise, [null] for
    a rejection. *)
Definition or_null {A} (r : Result A) : option A :=
  match r with Ok a => Some a | Throw _ => None end.

(** The milliseconds asked of [page.waitForTimeout] so far. *)
Fixpoint slept (l : list Effect) : Z :=
  match l with
  | [] => 0
  | Called (WaitForTimeout ms) :: l' => ms + slept l'
  | _ :: l' => slept l'
  end.

Definition engine_calls (l : list Effect) : list EngineCall :=
  flat_map (fun e => match e with Called c => [c] | _ => [] end) l.

End Engine.

(* ===================================================================== *)
(** * src/artifacts.js *)
(* ===================================================================== *)

Module Artifacts.
Import Dom Engine.
Local Open Scope eyes_scope.

(** [Buffer.from(buffer).toString('base64')], on a list of bytes. *)
Definition b64_digit (n : Z) : string :=
  substring (Z.to_nat n) 1
    "ABCDEFGHIJKLMNOPQRSTUVWXYZabcdefghijklmnopqrstuvwxyz0123456789+/".

Fixpoint base64 (l : list Z) : string :=
  match l with
  | [] => ""
  | [a] => b64_digit (a / 4) ++ b64_digit (a mod 4 * 16) ++ "=="
  | [a; b] =>
      b64_digit (a / 4) ++ b64_digit (a mod 4 * 16 + b / 16)
      ++ b64_digit (b mod 16 * 4) ++ "="
  | a :: b :: c :: rest =>
      b64_digit (a / 4) ++ b64_digit (a mod 4 * 16 + b / 16)
      ++ b64_digit (b mod 16 * 4 + c / 64) ++ b64_digit (c mod 64)
      ++ base64 rest
  end.

(** [toDataURL(buffer, mime)] *)
Definition toDataURL (buffer : list Z) (mime : string) : string :=
  "data:" ++ mime ++ ";base64," ++ base64 buffer.

(** [s.slice(0, 2000)] *)
Definition slice2000 (s : string) : string := substring 0 2000 s.

(** [o || ''] *)
Definition or_empty (o : option string) : string :=
  match o with Some s => s | None => "" end.

(** [attrs(node)] of [serializeDOM].  Attribute names are unique in a
    DOM node, so the assignments [o[a.name] = a.value] never overwrite
    each other. *)
Fixpoint attrs (l : list (string * option string)) : list (string * string) :=
  match l with
  | [] => []
  | (name, Some value) :: l' =>
      if negb (String.eqb name "") then (name, value) :: attrs l' else attrs l'
  | (_, None) :: l' => attrs l'
  end.

(** The loop over [n.childNodes] in [nodeInfo]: [acc] is
    [info.children] so far, [visit c] is [nodeInfo(c, depth + 1)]. *)
Fixpoint each_child (visit : Node -> option Info) (cs : list Node)
    (acc : list Info) : list Info :=
  match cs with
  | [] => acc
  | c :: cs' =>
      let acc' := match visit c with
                  | Some ci => (acc ++ [ci])%list
                  | None => acc
                  end in
      if Z.of_nat (List.length acc') >? 1000 then acc' else each_child visit cs' acc'
  end.

Section NodeInfo.
Variable maxDepth : Z.
Variable plaintext : bool.

(** [nodeInfo(n, depth)], for a node [n] that is not [null]. *)
Fixpoint nodeInfo (n : Node) (depth : Z) {struct n} : option Info :=
  if depth >? maxDepth then None else
  match n with
  | mkNode ty tagName nodeName attributes innerText nodeValue kids =>
      let tag := if ty =? 1 then RegExp.lower_string tagName else nodeName in
      let at_ := if ty =? 1 then attrs attributes else [] in
      let text :=
        if andb plaintext (ty =? 1) then Some (slice2000 (or_empty innerText))
        else if andb (negb plaintext) (ty =? 3)
             then Some (slice2000 (or_empty nodeValue))
             else None in
      let children :=
        if depth <? maxDepth
        then each_child (fun c => nodeInfo c (depth + 1)) kids []
        else [] in
      Some (mkInfo tag at_ children text)
  end.
End NodeInfo.

(** The options of [serializeDOM]. *)
Record DomOpts : Type := mkDomOpts {
  opt_maxDepth : option Z;
  opt_plaintext : option bool
}.

(** [Math.min(Math.max(opts.maxDepth ?? 4, 1), 10)] *)
Definition clampDepth (maxDepth : option Z) : Z :=
  Z.min (Z.max (match maxDepth with Some d => d | None => 4 end) 1) 10.

(** [!!opts.plaintext] *)
Definition bang_bang (o : option bool) : bool :=
  match o with Some b => b | None => false end.

(** The function that [serializeDOM] evaluates in the page, applied to
    [document.documentElement]. *)
Definition serialize (opts : DomOpts) (root : option Node) : option Info :=
  match root with
  | Some n => nodeInfo (clampDepth (opt_maxDepth opts)) (bang_bang (opt_plaintext opts)) n 1
  | None => None
  end.

(** [serializeDOM(page, opts = {})] *)
Definition serializeDOM {St} (opts : DomOpts) : M St (option Info) :=
  v <- call DocumentElement ;;
  ret (serialize opts (match v with VDocument r => r | _ => None end)).

(** Depth of a serialized tree, counted in nodes. *)
Fixpoint info_depth (i : Info) : nat :=
  match i with
  | mkInfo _ _ cs _ => S (fold_right (fun c d => Nat.max (info_depth c) d) O cs)
  end.

(** ** [diffDataURLs] *)

Record Count : Type := mkCount { diff : Z; total : Z }.

(** What becomes of the promise that [diffDataURLs] awaits: [Pending]
    is the promise on which [resolve] is never called. *)
Inductive Promise : Type :=
| Resolved (ratio : Q)
| Pending.

Record DiffOpts : Type := mkDiffOpts {
  opt_sampleStride : option Q;
  opt_resizeWidth : option Q
}.

Section DiffDataURLs.
(** The image pipeline of the page.  [decode url] is the image that
    the [load] event of an [Image] with [src = url] delivers, [None]
    when the browser cannot decode it (it then fires [error], for
    which the code installs no handler).  [getImageData img w h] is
    the [data] array of a [w]x[h] canvas after
    [drawImage(img, 0, 0, w, h)].  [scaled height w width] is
    [Math.floor(height * (w / width))] in double arithmetic.
    [setup_throws] tells whether the body of the [try] block throws
    (no [Image] constructor in the page). *)
Variable Image : Type.
Variable width height : Image -> Z.
Variable decode : string -> option Image.
Variable getImageData : Image -> Z -> Z -> Z -> Z.
Variable scaled : Z -> Z -> Z -> Z.
Variable setup_throws : bool.

Section Loops.
Variables d1 d2 : Z -> Z.
Variables w h sampleStride : Z.

(** The body of the inner loop. *)
Definition sample (x y : Z) (c : Count) : Count :=
  let i := (y * w + x) * 4 in
  let dr := d1 i - d2 i in
  let dg := d1 (i + 1) - d2 (i + 1) in
  let db := d1 (i + 2) - d2 (i + 2) in
  let delta := Z.abs dr + Z.abs dg + Z.abs db in
  mkCount (if delta >? 30 then diff c + 1 else diff c) (total c + 1).

(** [for (let x = ...; x < w; x += sampleStride)], at most [fuel]
    rounds. *)
Fixpoint for_x (fuel : nat) (x y : Z) (c : Count) : Count :=
  match fuel with
  | O => c
  | S fuel' =>
      if x <? w then for_x fuel' (x + sampleStride) y (sample x y c) else c
  end.

(** [for (let y = ...; y < h; y += sampleStride)], at most [fuel]
    rounds. *)
Fixpoint for_y (fuel : nat) (y : Z) (c : Count) : Count :=
  match fuel with
  | O => c
  | S fuel' =>
      if y <? h
      then for_y fuel' (y + sampleStride) (for_x (Z.to_nat w) 0 y c)
      else c
  end.
End Loops.

(** The computation of [done] once both images are loaded. *)
Definition compare (imgA imgB : Image) (sampleStride resizeWidth : Z) : Q :=
  let w := resizeWidth in
  let h := Z.max 32 (scaled (height imgA) w (width imgA)) in
  let d1 := getImageData imgA w h in
  let d2 := getImageData imgB w h in
  let c := for_y d1 d2 w h sampleStride (Z.to_nat h) 0 (mkCount 0 0) in
  if total c =? 0 then 0%Q else (diff c # Z.to_pos (total c))%Q.

(** [done], the [onload] handler of both images: the state is the
    counter [ready] and the promise. *)
Definition done (imgA imgB : option Image) (sampleStride resizeWidth : Z)
    (st : Z * Promise) : Z * Promise :=
  let ready := fst st + 1 in
  if ready <? 2 then (ready, snd st)
  else match imgA, imgB with
       | Some a, Some b => (ready, Resolved (compare a b sampleStride resizeWidth))
       | _, _ => (ready, snd st)
       end.

Definition option_to_list {A} (o : option A) : list A :=
  match o with Some a => [a] | None => [] end.

(** One [load] event for each image that decodes. *)
Definition load_events (imgA imgB : option Image) : nat :=
  (List.length (option_to_list imgA) + List.length (option_to_list imgB))%nat.

(** The promise built in the page. *)
Definition page_promise (a b : string) (sampleStride resizeWidth : Z) : Promise :=
  if setup_throws then Resolved 1%Q
  else
    let imgA := decode a in
    let imgB := decode b in
    snd (Nat.iter (load_events imgA imgB)
                  (done imgA imgB sampleStride resizeWidth) (0, Pending)).

(** [diffDataURLs(page, dataUrlA, dataUrlB, opts = {})]: [None] when
    the awaited promise never settles, so that the function never
    returns.  A resolved ratio is a quotient of two integers and
    hence finite. *)
Definition diffDataURLs (dataUrlA dataUrlB : string) (opts : DiffOpts)
  : option Q :=
  let sampleStride :=
    Z.max 1 (Qfloor (match opt_sampleStride opts with Some q => q | None => 2%Q end)) in
  let resizeWidth :=
    Z.max 32 (Qfloor (match opt_resizeWidth opts with Some q => q | None => 256%Q end)) in
  match page_promise dataUrlA dataUrlB sampleStride resizeWidth with
  | Resolved ratio => Some ratio
  | Pending => None
  end.
End DiffDataURLs.

End Artifacts.

(* ===================================================================== *)
(** * src/agent-eyes.js *)
(* ===================================================================== *)

Module Eyes.
Import Engine Security.
Local Open Scope eyes_scope.

Record Metrics : Type := mkMetrics {
  actions : Z;
  totalDurationMs : Z;
  errors : Z
}.

(** The options that the modelled code reads.  [trace_enabled] is
    [options.trace?.enabled]. *)
Record Options : Type := mkOptions {
  opt_allowNavigationTo : option (string -> bool);
  opt_blockPrivateIPs : option bool;
  opt_canvasHook : option bool;
  trace_enabled : bool
}.

(** The fields of an [AgentEyes] object.  The three engine handles are
    [true] when they are not [null]; so is the timer handle
    [_frameInterval] and the lazily created [_traceStream]. *)
Record AgentEyes : Type := mkAgentEyes {
  options : Options;
  browser : bool;
  context : bool;
  page : bool;
  _frameInterval : bool;
  _console : list ConsoleRec;
  _network : list NetworkRec;
  _metrics : Metrics;
  _traceStream : bool
}.

Definition with_metrics (f : Metrics -> Metrics) (s : AgentEyes) : AgentEyes :=
  mkAgentEyes (options s) (browser s) (context s) (page s) (_frameInterval s)
              (_console s) (_network s) (f (_metrics s)) (_traceStream s).

Definition with_console (f : list ConsoleRec -> list ConsoleRec) (s : AgentEyes) : AgentEyes :=
  mkAgentEyes (options s) (browser s) (context s) (page s) (_frameInterval s)
              (f (_console s)) (_network s) (_metrics s) (_traceStream s).

Definition with_network (f : list NetworkRec -> list NetworkRec) (s : AgentEyes) : AgentEyes :=
  mkAgentEyes (options s) (browser s) (context s) (page s) (_frameInterval s)
              (_console s) (f (_network s)) (_metrics s) (_traceStream s).

Definition with_handles (b c p : bool) (s : AgentEyes) : AgentEyes :=
  mkAgentEyes (options s) b c p (_frameInterval s)
              (_console s) (_network s) (_metrics s) (_traceStream s).

Definition with_frameInterval (t : bool) (s : AgentEyes) : AgentEyes :=
  mkAgentEyes (options s) (browser s) (context s) (page s) t
              (_console s) (_network s) (_metrics s) (_traceStream s).

Definition with_traceStream (t : bool) (s : AgentEyes) : AgentEyes :=
  mkAgentEyes (options s) (browser s) (context s) (page s) (_frameInterval s)
              (_console s) (_network s) (_metrics s) t.

(** [new AgentEyes(options)]: the defaults are merged under the
    caller's options. *)
Definition constructor (o : Options) : AgentEyes :=
  mkAgentEyes
    (mkOptions (opt_allowNavigationTo o)
               (match opt_blockPrivateIPs o with Some b => Some b | None => Some true end)
               (match opt_canvasHook o with Some b => Some b | None => Some true end)
               (trace_enabled o))
    false false false false [] [] (mkMetrics 0 0 0) false.

(** The argument object of the actions; a property that is absent is
    [None]. *)
Record Args : Type := mkArgs {
  a_url : option string;
  a_wait : option string;
  a_timeoutMs : option Z;
  a_selector : option string;
  a_text : option string;
  a_nth : option Z;
  a_for : option string;
  a_delayMs : option Num;
  a_x : option Z;
  a_y : option Z;
  a_intoViewSelector : option string;
  a_press : option string;
  a_expression : option string;
  a_html : option string
}.

(** [{}] *)
Definition noArgs : Args :=
  mkArgs None None None None None None None None None None None None None None.

Record ShotArgs : Type := mkShotArgs {
  s_fullPage : option bool;
  s_format : option string;
  s_quality : option Z
}.

Record Shot : Type := mkShot {
  buffer : list Z;
  dataUrl : string;
  mime : string
}.

Record State : Type := mkState {
  st_url : string;
  st_title : string;
  st_viewport : Z * Z;
  consoleCount : Z;
  networkCount : Z
}.

Record MetricsReport : Type := mkMetricsReport {
  r_actions : Z;
  avgDurationMs : Z;
  errorRate : Q
}.

Definition DEFAULT_VIEWPORT : Z * Z := (1280, 800).

(** [o ?? d] *)
Definition dflt {A} (d : A) (o : option A) : A :=
  match o with Some a => a | None => d end.

(** [o === s] *)
Definition str_is (o : option string) (s : string) : bool :=
  match o with Some t => String.eqb t s | None => false end.

Definition str (o : option string) : string := dflt "" o.

Definition E := M AgentEyes.

(** [_requirePage()] *)
Definition _requirePage : E unit :=
  s <- get ;;
  if page s then ret tt else throw (InternalError "Eyes not opened" None None).

(** [_pushRing(arr, item, max = 1000)] *)
Definition _pushRing {A} (arr : list A) (item : A) (max : Z) : list A :=
  let arr := (arr ++ [item])%list in
  if Z.of_nat (List.length arr) >? max
  then skipn (Z.to_nat (Z.of_nat (List.length arr) - max)) arr
  else arr.

(** [_microIdle()] *)
Definition _microIdle : E unit :=
  try_catch
    (s <- get ;;
     if page s then call (WaitForTimeout 100) ;;; ret tt else ret tt)
    (fun _ => ret tt).

(** [_trace(event, payload, start, success, error)]; the payload is not
    kept. *)
Definition _trace (event : string) (start : Z) (success : bool)
    (error : option Thrown) : E unit :=
  s <- get ;;
  if negb (trace_enabled (options s)) then ret tt
  else
    modify (with_traceStream true) ;;;
    t <- Date_now ;;
    tell (Traced event (t - start) success error).

(** [_afterAction(action, start)] *)
Definition _afterAction (action : string) (start : Z) : E unit :=
  t <- Date_now ;;
  let durationMs := t - start in
  modify (with_metrics (fun m =>
    mkMetrics (actions m + 1) (totalDurationMs m + durationMs) (errors m))) ;;;
  tell (EmitActionCompleted action durationMs).

(** [this._metrics.errors++] *)
Definition errors_incr : E unit :=
  modify (with_metrics (fun m =>
    mkMetrics (actions m) (totalDurationMs m) (errors m + 1))).

(** [_suggestSelectors(selector)]; the ranking runs in the page. *)
Definition _suggestSelectors (selector : string) : E (list string) :=
  _requirePage ;;;
  v <- call (SuggestSelectors selector) ;;
  ret (match v with VStrings l => l | _ => [] end).

(** [_startFrameStream()]: only the timer handle is kept; the frames
    that the timer emits are not part of the model. *)
Definition _startFrameStream : E unit :=
  _requirePage ;;;
  modify (with_frameInterval true).

(** [open()] *)
Definition open : E unit :=
  s <- get ;;
  if browser s then ret tt
  else
    call Launch ;;;
    modify (fun s => with_handles true (context s) (page s) s) ;;;
    call NewContext ;;;
    modify (fun s => with_handles (browser s) true (page s) s) ;;;
    call NewPage ;;;
    modify (fun s => with_handles (browser s) (context s) true s) ;;;
    s <- get ;;
    (if not_false (opt_canvasHook (options s))
     then call InjectCanvasHook ;;; ret tt else ret tt) ;;;
    _startFrameStream.

(** [close()] *)
Definition close : E unit :=
  modify (with_frameInterval false) ;;;
  s <- get ;;
  (if page s then try_catch (call PageClose ;;; ret tt) (fun _ => ret tt) else ret tt) ;;;
  (if context s then try_catch (call ContextClose ;;; ret tt) (fun _ => ret tt) else ret tt) ;;;
  (if browser s then try_catch (call BrowserClose ;;; ret tt) (fun _ => ret tt) else ret tt) ;;;
  modify (with_handles false false false).

(** The handler of the page event [console]. *)
Definition on_console (type text : string) : E unit :=
  ts <- Date_now ;;
  let rec := mkConsoleRec type text ts in
  modify (with_console (fun arr => _pushRing arr rec 500)) ;;;
  tell (EmitConsole rec).

(** What [req.response()] gives: nothing to chain on, a promise that
    rejects, or a promise for a response ([null], or one with a
    status). *)
Inductive Response : Type :=
| NoPromise
| Rejected
| Fulfilled (status : option Z).

(** The handler of the page event [requestfinished]. *)
Definition on_requestfinished (url method : string) (r : Response) : E unit :=
  match r with
  | Fulfilled res =>
      ts <- Date_now ;;
      let status := match res with
                    | Some st => if st =? 0 then 0 else st
                    | None => 0
                    end in
      let rec := mkNetworkRec url method status ts in
      modify (with_network (fun arr => _pushRing arr rec 1000)) ;;;
      tell (EmitNetwork rec)
  | _ => ret tt
  end.

(** The handler of the page event [requestfailed]. *)
Definition on_requestfailed (url method : string) : E unit :=
  ts <- Date_now ;;
  let rec := mkNetworkRec url method 0 ts in
  modify (with_network (fun arr => _pushRing arr rec 1000)) ;;;
  tell (EmitNetwork rec).

(** The events to which [open()] subscribes on the page
    ([page.on('console', ...)] and the two request events), and their
    delivery to the handlers in the order in which they arrive. *)
Inductive PageEvent : Type :=
| Console (type text : string)
| RequestFinished (url method : string) (r : Response)
| RequestFailed (url method : string).

Definition handle (ev : PageEvent) : E unit :=
  match ev with
  | Console type text => on_console type text
  | RequestFinished url method r => on_requestfinished url method r
  | RequestFailed url method => on_requestfailed url method
  end.

Fixpoint deliver (evs : list PageEvent) : E unit :=
  match evs with
  | [] => ret tt
  | ev :: evs' => handle ev ;;; deliver evs'
  end.

(** [state()] *)
Definition state_ : E State :=
  _requirePage ;;;
  u <- call Url ;;
  t <- try_catch (v <- call Title ;; ret (match v with VString t => t | _ => "" end))
                 (fun _ => ret "") ;;
  vp <- call ViewportSize ;;
  s <- get ;;
  ret (mkState (match u with VString u => u | _ => "" end) t
               (match vp with VViewport w h => (w, h) | _ => DEFAULT_VIEWPORT end)
               (Z.of_nat (List.length (_console s)))
               (Z.of_nat (List.length (_network s)))).

(** [navigate(args)] *)
Definition navigate (args : Args) : E unit :=
  start <- Date_now ;;
  _requirePage ;;;
  if negb (truthy (a_url args))
  then throw (BadInputError "navigate.url is required" None None)
  else
    s <- get ;;
    parse <- URL_constructor ;;
    match guardNavigation parse (str (a_url args))
            (mkGuardOptions (opt_allowNavigationTo (options s))
                            (opt_blockPrivateIPs (options s))) with
    | inl e => throw e
    | inr url =>
        let waitUntil := if truthy (a_wait args) then str (a_wait args) else "load" in
        try_catch
          (call (Goto url waitUntil (dflt 30000 (a_timeoutMs args))) ;;;
           _microIdle ;;;
           _trace "navigate" start true None ;;;
           _afterAction "navigate" start)
          (fun e =>
             errors_incr ;;;
             let err := NavigationTimeoutError ("Navigation failed: " ++ url)
                          None (Some e) in
             _trace "navigate" start false (Some err) ;;;
             throw err)
    end.

(** [wait(args)] *)
Definition wait (args : Args) : E unit :=
  start <- Date_now ;;
  _requirePage ;;;
  let timeout := dflt 10000 (a_timeoutMs args) in
  try_catch
    ((if str_is (a_for args) "selector" then
        if negb (truthy (a_selector args))
        then throw (BadInputError "wait.selector is required" None None)
        else call (WaitForSelector (str (a_selector args)) timeout) ;;; ret tt
      else if str_is (a_for args) "networkidle" then
        call (WaitForLoadState "networkidle" timeout) ;;; ret tt
      else if str_is (a_for args) "timeout" then
        call (WaitForTimeout timeout) ;;; ret tt
      else throw (BadInputError "wait.for must be selector|networkidle|timeout"
                    None None)) ;;;
     _trace "wait" start true None ;;;
     _afterAction "wait" start)
    (fun e =>
       errors_incr ;;;
       let err := toEyesError e in
       _trace "wait" start false (Some err) ;;;
       throw err).

(** [locator.nth(n)] *)
Definition locator_nth (l : Locator) (n : Z) : Locator :=
  match l with
  | BySelector s _ => BySelector s (Some n)
  | ByText t _ => ByText t (Some n)
  end.

(** [similar.join(', ')] *)
Fixpoint join (l : list string) : string :=
  match l with
  | [] => ""
  | [x] => x
  | x :: l' => x ++ ", " ++ join l'
  end.

(** [click(args)] *)
Definition click (args : Args) : E unit :=
  start <- Date_now ;;
  _requirePage ;;;
  let timeout := dflt 10000 (a_timeoutMs args) in
  try_catch
    (locator <- (if truthy (a_selector args) then
                   ret (BySelector (str (a_selector args)) None)
                 else if truthy (a_text args) then
                   ret (ByText (str (a_text args)) None)
                 else
                   throw (BadInputError "click.selector or click.text required"
                            None None)) ;;
     let locator := match a_nth args with
                    | Some n => locator_nth locator n
                    | None => locator
                    end in
     call (LocatorWaitFor locator timeout) ;;;
     call (LocatorScrollIntoView locator) ;;;
     call (LocatorClick locator timeout) ;;;
     _microIdle ;;;
     _trace "click" start true None ;;;
     _afterAction "click" start)
    (fun e =>
       errors_incr ;;;
       hint <- (if truthy (a_selector args) then
                  similar <- try_catch (_suggestSelectors (str (a_selector args)))
                                       (fun _ => ret []) ;;
                  ret (match similar with
                       | [] => ""
                       | _ => "Did you mean: " ++ join similar
                       end)
                else ret "") ;;
       let err := ElementNotFoundError "Element not found for click"
                    (Some hint) (Some e) in
       _trace "click" start false (Some err) ;;;
       throw err).

(** [type(args)] *)
Definition type (args : Args) : E unit :=
  start <- Date_now ;;
  _requirePage ;;;
  if negb (truthy (a_selector args))
  then throw (BadInputError "type.selector is required" None None)
  else
    try_catch
      (let locator := BySelector (str (a_selector args)) None in
       call (LocatorWaitFor locator 10000) ;;;
       call (LocatorClick locator 10000) ;;;
       call (KeyboardType (if truthy (a_text args) then str (a_text args) else "")
                          (Math_min (Math_max (dflt (Whole 20) (a_delayMs args))
                                              (Whole 0))
                                    (Whole 200))) ;;;
       _trace "type" start true None ;;;
       _afterAction "type" start)
      (fun e =>
         errors_incr ;;;
         let err := ElementNotFoundError "Failed to type into element"
                      None (Some e) in
         _trace "type" start false (Some err) ;;;
         throw err).

(** [scroll(args = {})] *)
Definition scroll (args : Args) : E unit :=
  start <- Date_now ;;
  _requirePage ;;;
  try_catch
    ((if truthy (a_intoViewSelector args)
      then call (LocatorScrollIntoView
                   (BySelector (str (a_intoViewSelector args)) None)) ;;; ret tt
      else ret tt) ;;;
     (match a_x args, a_y args with
      | None, None => ret tt
      | x, y => call (ScrollTo (dflt 0 x) (dflt 0 y)) ;;; ret tt
      end) ;;;
     _trace "scroll" start true None ;;;
     _afterAction "scroll" start)
    (fun e =>
       errors_incr ;;;
       let err := toEyesError e in
       _trace "scroll" start false (Some err) ;;;
       throw err).

(** [keys(args)] *)
Definition keys (args : Args) : E unit :=
  start <- Date_now ;;
  _requirePage ;;;
  try_catch
    (call (KeyboardPress (a_press args)) ;;;
     _trace "keys" start true None ;;;
     _afterAction "keys" start)
    (fun e =>
       errors_incr ;;;
       let err := toEyesError e in
       _trace "keys" start false (Some err) ;;;
       throw err).

(** [exec(args)] *)
Definition exec (args : Args) : E Value :=
  start <- Date_now ;;
  _requirePage ;;;
  try_catch
    (result <- call (Evaluate (a_expression args)) ;;
     _trace "exec" start true None ;;;
     _afterAction "exec" start ;;;
     ret result)
    (fun e =>
       errors_incr ;;;
       let err := ScriptError "Script execution failed" None (Some e) in
       _trace "exec" start false (Some err) ;;;
       throw err).

(** [setContent(args)] *)
Definition setContent (args : Args) : E unit :=
  start <- Date_now ;;
  _requirePage ;;;
  match a_html args with
  | None => throw (BadInputError "setContent.html must be a string" None None)
  | Some html =>
      let timeout := dflt 15000 (a_timeoutMs args) in
      try_catch
        (call (SetContent html timeout) ;;;
         _trace "setContent" start true None ;;;
         _afterAction "setContent" start)
        (fun e =>
           errors_incr ;;;
           let err := toEyesError e in
           _trace "setContent" start false (Some err) ;;;
           throw err)
  end.

(** [screenshot(args = {})] *)
Definition screenshot (args : ShotArgs) : E Shot :=
  start <- Date_now ;;
  _requirePage ;;;
  let type := if truthy (s_format args) then str (s_format args) else "webp" in
  let quality := match s_quality args with
                 | Some q => Some q
                 | None => if String.eqb type "webp" then Some 70 else None
                 end in
  let mime := if String.eqb type "png" then "image/png" else "image/webp" in
  buf <- try_catch (call (Screenshot type quality (dflt false (s_fullPage args))))
                   (fun e => throw (toEyesError e)) ;;
  _trace "screenshot" start true None ;;;
  _afterAction "screenshot" start ;;;
  let bytes := match buf with VBytes b => b | _ => [] end in
  ret (mkShot bytes (Artifacts.toDataURL bytes mime) mime).

(** [dom(opts)] *)
Definition dom (opts : Artifacts.DomOpts) : E (option Dom.Info) :=
  _requirePage ;;;
  Artifacts.serializeDOM opts.

(** [Math.round] of the quotient of two integers. *)
Definition Math_round (q : Q) : Z := Qfloor (q + (1 # 2))%Q.

(** [metrics()] *)
Definition metrics (s : AgentEyes) : MetricsReport :=
  let m := _metrics s in
  let avg := if actions m =? 0 then 0%Q
             else (inject_Z (totalDurationMs m) / inject_Z (actions m))%Q in
  let errorRate := if actions m =? 0 then 0%Q
                   else (inject_Z (errors m) / inject_Z (actions m))%Q in
  mkMetricsReport (actions m) (Math_round avg) errorRate.

End Eyes.

(* ===================================================================== *)
(** * src/runner.js *)
(* ===================================================================== *)

Module Runner.
Import Engine Eyes.
Local Open Scope eyes_scope.

(** A step of a plan; [args] is [None] when the property is absent. *)
Record Step : Type := mkStep {
  action : string;
  args : option Args
}.

(** A plan object.  [steps] is [None] when [plan.steps] is not an
    array. *)
Record Plan : Type := mkPlan {
  goal : string;
  steps : option (list Step);
  abortOnError : option bool;
  maxDurationMs : option Z
}.

Record ErrorInfo : Type := mkErrorInfo {
  code : ErrorCode;
  message : string;
  hint : option string
}.

(** The object that [run] returns.  [traceId] keeps the two numbers
    from which the identifier string is printed; [lastState] is [None]
    for the placeholder [{}], the artifacts are [None] for [null]. *)
Record RunReport : Type := mkRunReport {
  success : bool;
  traceId : Z * Z;
  lastState : option State;
  artifact_screenshot : option Shot;
  artifact_domSnippet : option Dom.Info;
  error : option ErrorInfo
}.

(** [_errorInfo(err)] *)
Definition _errorInfo (err : Thrown) : ErrorInfo :=
  mkErrorInfo (dflt INTERNAL (code_of err)) (message_of err) (hint_of err).

(** [_dispatch(action, args)] *)
Definition _dispatch (action : string) (args : Args) : E unit :=
  if String.eqb action "navigate" then navigate args
  else if String.eqb action "click" then click args
  else if String.eqb action "type" then type args
  else if String.eqb action "wait" then wait args
  else if String.eqb action "scroll" then scroll args
  else if String.eqb action "keys" then keys args
  else if String.eqb action "exec" then exec args ;;; ret tt
  else throw (BadInputError ("Unknown action: " ++ action) None None).

(** [action === 'click' || (action === 'wait' && args.for === 'selector')] *)
Definition fragile (action : string) (args : Args) : bool :=
  orb (String.eqb action "click")
      (andb (String.eqb action "wait") (str_is (a_for args) "selector")).

Definition attempts (action : string) (args : Args) : Z :=
  if fragile action args then 3 else 1.

(** [Math.floor(Math.random() * 100)], for the draw [u] of
    [Math.random()]. *)
Definition jitter (u : Z) : Z := 100 * u / 2 ^ 53.

(** [Math.min(2000, 300 * Math.pow(2, i))] *)
Definition backoff_floor (i : Z) : Z := Z.min 2000 (300 * 2 ^ i).

(** [{ for: 'timeout', timeoutMs: backoff }] *)
Definition timeout_args (backoff : Z) : Args :=
  mkArgs None None (Some backoff) None None None (Some "timeout")
         None None None None None None None.

(** The loop of [_execute], from the round [i] on; [remaining] is
    [attempts - i]. *)
Fixpoint attempt_loop (remaining : nat) (i attempts : Z) (action : string)
    (args : Args) : E unit :=
  match remaining with
  | O => ret tt
  | S remaining' =>
      try_catch (_dispatch action args)
        (fun e =>
           let err := toEyesError e in
           let isLast := i =? attempts - 1 in
           if negb isLast then
             u <- Math_random ;;
             let backoff := backoff_floor i + jitter u in
             wait (timeout_args backoff) ;;;
             attempt_loop remaining' (i + 1) attempts action args
           else throw err)
  end.

(** [_execute(step)] *)
Definition _execute (step : Step) : E unit :=
  let action := action step in
  let args := dflt noArgs (args step) in
  let attempts := attempts action args in
  attempt_loop (Z.to_nat attempts) 0 attempts action args.

(** The loop of [run] over the steps that are left; the result is
    [lastError] at the end of the loop. *)
Fixpoint step_loop (plan : Plan) (started : Z) (rest : list Step)
    (lastError : option Thrown) : E (option Thrown) :=
  match rest with
  | [] => ret lastError
  | step :: rest' =>
      failure <- try_catch (_execute step ;;; ret None) (fun e => ret (Some e)) ;;
      let lastError := match failure with
                       | Some e => Some e
                       | None => lastError
                       end in
      if andb (match failure with Some _ => true | None => false end)
              (Security.not_false (abortOnError plan))
      then ret lastError
      else
        t <- Date_now ;;
        if match maxDurationMs plan with
           | Some d => andb (negb (d =? 0)) (t - started >? d)
           | None => false
           end
        then ret lastError
        else step_loop plan started rest' lastError
  end.

(** [run(plan)]; [plan] is [None] for a missing plan. *)
Definition run (plan : option Plan) : E RunReport :=
  match plan with
  | None => throw (BadInputError "Runner requires steps[]" None None)
  | Some plan =>
      match steps plan with
      | None => throw (BadInputError "Runner requires steps[]" None None)
      | Some steps =>
          let maxSteps := 50 in
          if Z.of_nat (List.length steps) >? maxSteps
          then throw (BadInputError "Too many steps (>50)" None None)
          else
            started <- Date_now ;;
            u <- Math_random ;;
            let traceId := (started, u) in
            lastError <- step_loop plan started steps None ;;
            screenshot <- try_catch
                            (s <- screenshot (mkShotArgs None (Some "webp") (Some 60)) ;;
                             ret (Some s))
                            (fun _ => ret None) ;;
            domSnippet <- try_catch
                            (dom (Artifacts.mkDomOpts (Some 3) (Some true)))
                            (fun _ => ret None) ;;
            lastState <- try_catch (s <- state_ ;; ret (Some s))
                                   (fun _ => ret None) ;;
            let success := match lastError with Some _ => false | None => true end in
            ret (mkRunReport success traceId lastState screenshot domSnippet
                             (option_map _errorInfo lastError))
      end
  end.

End Runner.

(* ===================================================================== *)
(** * Sample inputs *)
(* ===================================================================== *)

Module Sample.
Import Engine Eyes Runner.
Local Open Scope eyes_scope.

(** A unique-local IPv6 address (RFC 4193) as the URL parser prints it. *)
Definition ula_url : Security.URL :=
  Security.mkURL "http:" "[fd12:3456:789a::1]" "http://[fd12:3456:789a::1]/".

(** Membership of the first 16-bit group [h] of an IPv6 address in the
    prefix [base::/len]. *)
Definition hextet_in (h base len : Z) : bool :=
  Z.shiftr h (16 - len) =? Z.shiftr base (16 - len).

(** Decimal notation of a number, as in a dotted IPv4 host name. *)
Definition dec (n : Z) : string := NilZero.string_of_uint (N.to_uint (Z.to_N n)).

(** The host name of the IPv4 address [a.b.c.d]. *)
Definition ipv4 (a b c d : Z) : string :=
  dec a ++ "." ++ dec b ++ "." ++ dec c ++ "." ++ dec d.

(** The IPv4 ranges of the table: loopback, link-local and RFC 1918. *)
Definition ipv4_private (a b : Z) : bool :=
  (a =? 10) || (a =? 127) || ((a =? 169) && (b =? 254))
  || ((a =? 172) && (16 <=? b) && (b <=? 31)) || ((a =? 192) && (b =? 168)).

(** The last [n] entries of a list, in their order. *)
Definition lastn {A} (n : nat) (l : list A) : list A :=
  skipn (List.length l - n) l.

(** The records that a sequence of page events asks to store, in the
    order of arrival; [ts] is the time of the clock. *)
Definition console_recs (ts : Z) (evs : list PageEvent) : list ConsoleRec :=
  flat_map (fun ev => match ev with
                      | Console type text => [mkConsoleRec type text ts]
                      | _ => []
                      end) evs.

Definition network_recs (ts : Z) (evs : list PageEvent) : list NetworkRec :=
  flat_map (fun ev => match ev with
                      | RequestFinished url method (Fulfilled status) =>
                          [mkNetworkRec url method (dflt 0 status) ts]
                      | RequestFailed url method => [mkNetworkRec url method 0 ts]
                      | _ => []
                      end) evs.

(** A plan that [run] refuses: no plan, no array of steps, or more
    than 50 steps. *)
Definition invalid_plan (plan : option Plan) : Prop :=
  match plan with
  | None => True
  | Some p =>
      match steps p with
      | None => True
      | Some l => (50 < List.length l)%nat
      end
  end.

(** The metrics are the same in both worlds. *)
Definition same_metrics (w w' : World AgentEyes) : Prop :=
  _metrics (state w') = _metrics (state w).

(** The one update of a completed action that started at [start]: one
    more action, its duration added. *)
Definition counted (start : Z) (w w' : World AgentEyes) : Prop :=
  _metrics (state w')
  = mkMetrics (actions (_metrics (state w)) + 1)
              (totalDurationMs (_metrics (state w)) + (now w' - start))
              (errors (_metrics (state w))).

(** The one update of a failed action: one more error, nothing else. *)
Definition errored (w w' : World AgentEyes) : Prop :=
  _metrics (state w')
  = mkMetrics (actions (_metrics (state w)))
              (totalDurationMs (_metrics (state w)))
              (errors (_metrics (state w)) + 1).

(** A computation that performs the update of a completed action when
    it returns, and leaves the metrics alone when it throws. *)
Definition counts (start : Z) {A} (m : E A) : Prop :=
  forall w, match fst (m w) with
            | Ok _ => counted start w (snd (m w))
            | Throw _ => same_metrics w (snd (m w))
            end.

(** A computation that always throws, after the update of a failed
    action. *)
Definition fails_counted {A} (m : E A) : Prop :=
  forall w, is_ok (fst (m w)) = false /\ errored w (snd (m w)).

(** A computation that updates the metrics exactly once: as a
    completed action when it returns, as a failed one when it throws. *)
Definition once_at (start : Z) {A} (m : E A) (w : World AgentEyes) : Prop :=
  match fst (m w) with
  | Ok _ => counted start w (snd (m w))
  | Throw _ => errored w (snd (m w))
  end.

Definition once (start : Z) {A} (m : E A) : Prop :=
  forall w, once_at start m w.

(** The invocations that are refused before the [try] block of the
    action is entered: [navigate] without [url] or with a URL that the
    guard refuses, [type] without [selector], and an action name that
    [_dispatch] does not know. *)
Definition refused_early (action : string) (args : Args) (w : World AgentEyes)
  : bool :=
  if String.eqb action "navigate" then
    orb (negb (truthy (a_url args)))
        (match Security.guardNavigation (new_URL w) (str (a_url args))
                 (Security.mkGuardOptions
                    (opt_allowNavigationTo (options (state w)))
                    (opt_blockPrivateIPs (options (state w)))) with
         | inl _ => true
         | inr _ => false
         end)
  else if String.eqb action "type" then negb (truthy (a_selector args))
  else if String.eqb action "click" then false
  else if String.eqb action "wait" then false
  else if String.eqb action "scroll" then false
  else if String.eqb action "keys" then false
  else if String.eqb action "exec" then false
  else true.

(** The time asked of [page.waitForTimeout] does not go down. *)
Definition sleeps_on (w w' : World AgentEyes) : Prop :=
  slept (log w) <= slept (log w').

(** The log of the second world extends the log of the first. *)
Definition log_extends (w w' : World AgentEyes) : Prop :=
  exists l, log w' = (log w ++ l)%list.


(** The time asked of [page.waitForTimeout] is the same in both
    worlds. *)
Definition same_sleep (w w' : World AgentEyes) : Prop :=
  slept (log w') = slept (log w).

(** The sleep between two attempts of [_execute], after the failure of
    the attempt [i]. *)
Definition backoff_sleep (i : Z) : E unit :=
  u <- Math_random ;;
  wait (timeout_args (backoff_floor i + jitter u)).

(** One attempt of [_execute] at a step that has [attempts] attempts:
    the dispatch, and what follows a failure of the attempt [i]: a
    sleep and [next], or, for the last attempt, the typed error. *)
Definition attempt (i attempts : Z) (step : Step) (next : E unit) : E unit :=
  try_catch (_dispatch (action step) (dflt noArgs (args step)))
    (fun e =>
       if i =? attempts - 1 then throw (toEyesError e)
       else
         u <- Math_random ;;
         wait (timeout_args (backoff_floor i + jitter u)) ;;;
         next).


(** [{ selector: '#go', text: 'Go' }] *)
Definition both_args : Args := 
  mkArgs None None None (Some "#go") (Some "Go") None None None None None
         None None None None.

(** The engine answers its next [n] calls without failure. *)
Definition engine_accepts (n : nat) (w : World AgentEyes) : Prop :=
  forall o, In o (firstn n (engine w)) -> exists v, answer o = Done v.

(** A plan of 51 clicks. *)
Definition long_plan : Plan :=
  mkPlan "too long" (Some (repeat (mkStep "click" None) 51)) None None.

(** A session that has just been constructed, in a world where the
    engine answers every call at once. *)
Definition fresh : World AgentEyes :=
  mkWorld (constructor (mkOptions None None None false)) [] [] 0 []
          (fun _ => None).

(** The same session once [open()] has run. *)
Definition opened : World AgentEyes := snd (open fresh).

(** 600 console messages. *)
Definition messages : list PageEvent :=
  List.map (fun n => Console "log" (dec (Z.of_nat n))) (seq 0 600).

(** A page whose images are 64x48 and uniformly black, and in which
    the URL [data:text/plain,hello] does not decode. *)
Definition sample_decode (url : string) : option (Z * Z) :=
  if String.eqb url "data:text/plain,hello" then None else Some (64, 48).

Definition sample_pixels (img : Z * Z) (w h i : Z) : Z := 0.

Definition sample_scaled (height w width : Z) : Z := height * w / width.

(** An element with [n] empty [div] children. *)
Definition div : Dom.Node := Dom.mkNode 1 "DIV" "DIV" [] (Some "") None [].

Definition wide (n : nat) : Dom.Node :=
  Dom.mkNode 1 "HTML" "HTML" [] (Some "") None (repeat div n).

(** A click by text on a session whose engine fails the first two
    attempts ([waitFor] times out) and accepts everything else. *)
Definition click_text : Step :=
  mkStep "click"
    (Some (mkArgs None None None None (Some "Go") None None None None None
                  None None None None)).

Definition flaky : World AgentEyes :=
  mkWorld (state opened)
          [mkOutcome 10000 (Failed "Timeout 10000ms exceeded");
           mkOutcome 320 (Done VUndefined);
           mkOutcome 10000 (Failed "Timeout 10000ms exceeded");
           mkOutcome 650 (Done VUndefined)]
          [0; 4503599627370496; 9007199254740991] 0 (log opened) (fun _ => None).

End Sample.

(* ===================================================================== *)
(** * Deciding the table of private hosts on a prefix of the host name *)
(* ===================================================================== *)

Module Decide.
Import RegExp Security Sample.

(** What the beginning [p] of a string settles about a pattern:
    [Some b] when every string that starts with [p] gives the answer
    [b], [None] when the rest of the string matters. *)
Fixpoint settle (dollar ci : bool) (r : re) (p : string) : option bool :=
  if andb (negb dollar) (nullable r) then Some true
  else
    match p with
    | EmptyString => None
    | String c p' =>
        match deriv ci c r with
        | Some d => settle dollar ci d p'
        | None => Some false
        end
    end.

Fixpoint settle_any (l : list RegExp.t) (p : string) : option bool :=
  match l with
  | [] => Some false
  | re :: l' =>
      match settle (dollar re) (flag_i re) (body re) p, settle_any l' p with
      | Some b, Some b' => Some (orb b b')
      | _, _ => None
      end
  end.

(** No character of the string is a bracket. *)
Fixpoint bracket_free (p : string) : bool :=
  match p with
  | EmptyString => true
  | String c p' =>
      andb (andb (negb (Ascii.eqb c "[")) (negb (Ascii.eqb c "]")))
           (bracket_free p')
  end.

(** The first two groups of a dotted IPv4 host name settle the answer
    of the table, and the answer is the one of the ranges. *)
Definition octets_settled (a b : Z) : bool :=
  let p := dec a ++ "." ++ dec b ++ "." in
  andb (bracket_free p)
       (match settle_any PRIVATE_CIDRS p with
        | Some r => Bool.eqb r (ipv4_private a b)
        | None => false
        end).

Definition octet_range : list Z := List.map Z.of_nat (seq 0 256).

(** A host name with a bracket in front of it, behind it, both or
    neither. *)
Definition bracketed (opening closing : bool) (h : string) : string :=
  (if opening then "[" else "") ++ h ++ (if closing then "]" else "").

(** The host is none of the loopback names and no dotted IPv4 address
    of the five ranges, with or without brackets. *)
Definition outside_ranges (h : string) : Prop :=
  h <> "localhost" /\ h <> "::1" /\ h <> "[::1]"
  /\ forall a b c d opening closing,
       0 <= a <= 255 -> 0 <= b <= 255 -> ipv4_private a b = true ->
       h <> bracketed opening closing (ipv4 a b c d).

End Decide.

(* ===================================================================== *)
(** * src/agent-eyes.js: the accessors of the buffers *)
(* ===================================================================== *)

Module Buffers.
Import Engine Eyes.

(** [arr.slice(start)]: a negative [start] counts from the end. *)
Definition slice_from {A} (start : Z) (arr : list A) : list A :=
  let len := Z.of_nat (List.length arr) in
  let k := if start <? 0 then Z.max (len + start) 0 else Z.min start len in
  skipn (Z.to_nat k) arr.

(** [getConsole(n = 100)] *)
Definition getConsole (n : option Z) (s : AgentEyes) : list ConsoleRec :=
  slice_from (- dflt 100 n) (_console s).

(** [getNetwork(n = 200)] *)
Definition getNetwork (n : option Z) (s : AgentEyes) : list NetworkRec :=
  slice_from (- dflt 200 n) (_network s).

End Buffers.

(* ===================================================================== *)
(** * More notions used in the statements *)
(* ===================================================================== *)

Module Notions.
Import Engine Eyes Runner Sample.

(** The error is typed and its code is one of [l]. *)
Definition has_code (l : list ErrorCode) (e : Thrown) : Prop :=
  match code_of e with
  | Some c => In c l
  | None => False
  end.

(** The error is not an [EyesError]. *)
Definition untyped (e : Thrown) : Prop := code_of e = None.

(** The engine has been asked nothing between the two worlds, and it
    has the same answers left. *)
Definition engine_idle (w w' : World AgentEyes) : Prop :=
  engine w' = engine w /\ engine_calls (log w') = engine_calls (log w).

(** Every [keyboard.type] call in the log has a delay between 0 and
    200 milliseconds. *)
Definition delays_clamped (l : list Effect) : Prop :=
  Forall (fun e => match e with
                   | Called (KeyboardType _ (Whole delay)) => 0 <= delay <= 200
                   | Called (KeyboardType _ NaN) => False
                   | _ => True
                   end) l.

(** The [delayMs] of the arguments is an integer, or absent. *)
Definition whole_delay (args : Args) : Prop := a_delayMs args <> Some NaN.

Definition keeps_delays (w w' : World AgentEyes) : Prop :=
  delays_clamped (log w) -> delays_clamped (log w').

(** What the body of a [try] block throws: the untyped error of an
    engine call, or the [BAD_INPUT] of a check inside the block. *)
Definition raw_or_bad_input (e : Thrown) : Prop :=
  untyped e \/ has_code [BAD_INPUT] e.

(** The arguments that [wait] refuses: the mode [selector] without a
    selector, or a mode that is none of the three. *)
Definition wait_refuses (args : Args) : bool :=
  if str_is (a_for args) "selector" then negb (truthy (a_selector args))
  else negb (orb (str_is (a_for args) "networkidle")
                 (str_is (a_for args) "timeout")).

(** [{ for: 'hover' }]: a mode that [wait] does not know. *)
Definition hover_args : Args :=
  mkArgs None None None None None None (Some "hover") None None None
         None None None None.

(** A session that is open, with an engine that fails its next call. *)
Definition failing : World AgentEyes :=
  mkWorld (state opened) [mkOutcome 5 (Failed "Target closed")] [] 0
          (log opened) (fun _ => None).

(** A session that is open, with an engine that answers its next call
    with four bytes. *)
Definition shooting : World AgentEyes :=
  mkWorld (state opened) [mkOutcome 35 (Done (VBytes [137; 80; 78; 71]))] [] 0
          (log opened) (fun _ => None).

(** [{ html: '<p>hi</p>' }] *)
Definition html_args : Args :=
  mkArgs None None None None None None None None None None None None None
         (Some "<p>hi</p>").

(** The page handle is the same in both worlds. *)
Definition keeps_page (w w' : World AgentEyes) : Prop :=
  page (state w') = page (state w).

(** One invocation of an action of the session whose checks all sit
    inside its [try] block. *)
Inductive Invocation : Type :=
| Inv_click (args : Args)
| Inv_wait (args : Args)
| Inv_scroll (args : Args)
| Inv_keys (args : Args)
| Inv_exec (args : Args).

Definition invoke (i : Invocation) : E unit :=
  match i with
  | Inv_click args => click args
  | Inv_wait args => wait args
  | Inv_scroll args => scroll args
  | Inv_keys args => keys args
  | Inv_exec args => bind (exec args) (fun _ => ret tt)
  end.

(** The invocations one after the other, whatever each one gives; the
    results are kept in their order. *)
Fixpoint invoke_all (l : list Invocation) (w : World AgentEyes)
  : list (Result unit) * World AgentEyes :=
  match l with
  | [] => ([], w)
  | i :: l' =>
      let r := invoke i w in
      let rest := invoke_all l' (snd r) in
      (fst r :: fst rest, snd rest)
  end.

(** How many of the invocations returned, and how many threw. *)
Fixpoint count_returned (rs : list (Result unit)) : Z :=
  match rs with
  | [] => 0
  | Ok _ :: rs' => 1 + count_returned rs'
  | Throw _ :: rs' => count_returned rs'
  end.

Fixpoint count_thrown (rs : list (Result unit)) : Z :=
  match rs with
  | [] => 0
  | Ok _ :: rs' => count_thrown rs'
  | Throw _ :: rs' => 1 + count_thrown rs'
  end.

(** A session that is open, with an engine that fails its next two
    calls and answers the ones after them. *)
Definition jammed : World AgentEyes :=
  mkWorld (state opened)
          [mkOutcome 10000 (Failed "Timeout 10000ms exceeded");
           mkOutcome 10000 (Failed "Timeout 10000ms exceeded")]
          [] 0 (log opened) (fun _ => None).

(** Two clicks on the text [Go], then the key [Enter]. *)
Definition burst : list Invocation :=
  [Inv_click (dflt noArgs (args click_text));
   Inv_click (dflt noArgs (args click_text));
   Inv_keys (mkArgs None None None None None None None None None None None
                    (Some "Enter") None None)].

(** A session that has just been constructed, with an engine that
    launches the browser and then fails to create the context. *)
Definition half_open : World AgentEyes :=
  mkWorld (state fresh)
          [mkOutcome 900 (Done VUndefined);
           mkOutcome 20 (Failed "browser has been closed")]
          [] 0 [] (fun _ => None).

(** A session whose three engine handles are absent. *)
Definition unopened (s : AgentEyes) : Prop :=
  browser s = false /\ context s = false /\ page s = false.

(** The error of a session that is not open. *)
Definition not_open : Thrown := InternalError "Eyes not opened" None None.

End Notions.

(* ===================================================================== *)
(** * Notions about plans *)
(* ===================================================================== *)

Module Plans.
Import Engine Eyes Runner Sample Notions.
Local Open Scope eyes_scope.

(** The plan [p] with the steps [l]. *)
Definition with_steps (p : Plan) (l : list Step) : Plan :=
  mkPlan (goal p) (Some l) (abortOnError p) (maxDurationMs p).

(** The plan [p] with the budget [d]. *)
Definition with_budget (p : Plan) (d : option Z) : Plan :=
  mkPlan (goal p) (steps p) (abortOnError p) d.

(** The plan has no time budget: [maxDurationMs] is absent or [0]. *)
Definition unlimited (p : Plan) : Prop :=
  maxDurationMs p = None \/ maxDurationMs p = Some 0.

(** [plan.maxDurationMs && Date.now() - started > plan.maxDurationMs],
    in the world [w]. *)
Definition over_budget (p : Plan) (started : Z) (w : World AgentEyes) : bool :=
  match maxDurationMs p with
  | Some d => andb (negb (d =? 0)) (now w - started >? d)
  | None => false
  end.

(** What the specification says of the loop of [run], in terms of
    [_execute]: the steps that are carried out, each with what it
    ended with, in their order, and the world after the last of them.
    The next step is carried out unless the step has failed and
    [abortOnError] is not [false], or the time budget is spent. *)
Fixpoint carried_out (p : Plan) (started : Z) (l : list Step)
    (w : World AgentEyes) : list (Step * Result unit) * World AgentEyes :=
  match l with
  | [] => ([], w)
  | step :: l' =>
      let r := _execute step w in
      if orb (andb (negb (is_ok (fst r))) (Security.not_false (abortOnError p)))
             (over_budget p started (snd r))
      then ([(step, fst r)], snd r)
      else (let rest := carried_out p started l' (snd r) in
            ((step, fst r) :: fst rest, snd rest))
  end.

(** The error of the last step that failed, if one did. *)
Definition last_failure (rs : list (Step * Result unit)) : option Thrown :=
  fold_left (fun acc sr => match snd sr with
                           | Throw e => Some e
                           | Ok _ => acc
                           end) rs None.

(** No step failed. *)
Definition all_returned (rs : list (Step * Result unit)) : Prop :=
  forall step r, In (step, r) rs -> is_ok r = true.

(** What the specification calls a fragile step: a click, or a wait
    with [for: 'selector']. *)
Definition click_or_wait_for_selector (step : Step) : Prop :=
  action step = "click"
  \/ (action step = "wait" /\ a_for (dflt noArgs (args step)) = Some "selector").

(** The seven names that [_dispatch] knows. *)
Definition known_action (a : string) : bool :=
  existsb (String.eqb a)
          ["navigate"; "click"; "type"; "wait"; "scroll"; "keys"; "exec"].

(** The codes of the errors that a step can end with. *)
Definition step_codes : list ErrorCode :=
  [INTERNAL; BAD_INPUT; SECURITY_BLOCKED; NAVIGATION_TIMEOUT;
   ELEMENT_NOT_FOUND; SCRIPT_ERROR].

(** The error information of the report of [run], [None] when [run]
    throws or reports no error. *)
Definition reported_error (r : Result RunReport) : option ErrorInfo :=
  match r with Ok report => error report | Throw _ => None end.

(** The two worlds differ in the draws of [Math.random()] that are
    left, and in nothing else. *)
Definition draws_only (w w' : World AgentEyes) : Prop :=
  state w' = state w /\ engine w' = engine w /\ now w' = now w
  /\ log w' = log w /\ new_URL w' = new_URL w.

(** A step that [_dispatch] does not know. *)
Definition hover : Step := mkStep "hover" None.

(** [{ selector: '#name', text: 'hello', delayMs: 5000 }] *)
Definition slow_typing : Args :=
  mkArgs None None None (Some "#name") (Some "hello") None None
         (Some (Whole 5000)) None None None None None None.

(** [{ selector: '#name', text: 'hello', delayMs: 'fast' }] *)
Definition nan_typing : Args :=
  mkArgs None None None (Some "#name") (Some "hello") None None
         (Some NaN) None None None None None None.

(** A session that is open, whose engine takes 400 milliseconds for
    its next call. *)
Definition slow : World AgentEyes :=
  mkWorld (state opened) [mkOutcome 400 (Done VUndefined)] [] 0
          (log opened) (fun _ => None).

(** [{ press: 'Enter' }] *)
Definition press_enter : Step :=
  mkStep "keys"
         (Some (mkArgs None None None None None None None None None None
                       None (Some "Enter") None None)).

End Plans.

(* ===================================================================== *)
(** * src/agent-eyes.js: the ranking of [_suggestSelectors], in the page *)
(* ===================================================================== *)

Module Suggest.

(** [s.length] *)
Definition len (s : string) : Z := Z.of_nat (String.length s).

(** [dp[0]]: the numbers [0 .. b.length]. *)
Definition first_row (b : string) : list Z :=
  map Z.of_nat (seq 0 (S (String.length b))).

(** The cells [dp[i][j], dp[i][j+1], ...] of the row of the character
    [x = a[i-1]], for the rest [b[j-1..]] of [b]; [up] runs over
    [dp[i-1][j..]], [diag] is [dp[i-1][j-1]] and [left] is
    [dp[i][j-1]]. *)
Fixpoint fill_row (x : ascii) (b : string) (up : list Z) (diag left : Z) : list Z :=
  match b, up with
  | String y b', u :: up' =>
      let cost := if Ascii.eqb x y then 0 else 1 in
      let v := Z.min (Z.min (u + 1) (left + 1)) (diag + cost) in
      v :: fill_row x b' up' u v
  | _, _ => []
  end.

(** The rows of the table from [dp[i]] on, for the rest [a[i..]] of
    [a]; the result is the last row. *)
Fixpoint fill_rows (a b : string) (i : Z) (prev : list Z) : list Z :=
  match a with
  | EmptyString => prev
  | String x a' =>
      fill_rows a' b (i + 1)
                (i + 1 :: fill_row x b (tl prev) (hd 0 prev) (i + 1))
  end.

(** [distance(a, b)]: [dp[a.length][b.length]]. *)
Definition distance (a b : string) : Z :=
  last (fill_rows a b 0 (first_row b)) 0.

(** [Array.from(new Set(all))]: the first occurrences, in order. *)
Fixpoint uniq (seen all : list string) : list string :=
  match all with
  | [] => []
  | s :: all' =>
      if existsb (String.eqb s) seen then uniq seen all'
      else s :: uniq (s :: seen) all'
  end.

(** [arr.sort((a, b) => key(a) - key(b))]: the sort is stable, so that
    the result is the one of an insertion from the right that puts an
    entry before the entries whose key is not smaller. *)
Fixpoint insert (key : string -> Z) (s : string) (l : list string) : list string :=
  match l with
  | [] => [s]
  | t :: l' => if key s <=? key t then s :: l else t :: insert key s l'
  end.

Definition sort_by (key : string -> Z) (l : list string) : list string :=
  fold_right (insert key) [] l.

(** The body of the function that [_suggestSelectors] evaluates in the
    page, from the descriptors [all] of the elements of the document:
    [uniq.sort(...); return uniq.slice(0, 5)]. *)
Definition suggestions (sel : string) (all : list string) : list string :=
  firstn 5 (sort_by (distance sel) (uniq [] all)).

(** The number of edits that turn [a] into [b], by the recurrence on
    the first characters. *)
Fixpoint lev (a : string) : string -> Z :=
  fix inner (b : string) : Z :=
    match a, b with
    | EmptyString, _ => len b
    | _, EmptyString => len a
    | String x a', String y b' =>
        Z.min (Z.min (lev a' b + 1) (inner b' + 1))
              (lev a' b' + (if Ascii.eqb x y then 0 else 1))
    end.

(** [acc] with the characters of [s] in front of it, the last first. *)
Fixpoint rev_onto (s acc : string) : string :=
  match s with
  | EmptyString => acc
  | String c s' => rev_onto s' (String c acc)
  end.

Definition reverse (s : string) : string := rev_onto s "".

(** The reversed prefixes of [acc'] followed by [b], from the one that
    ends with the first character of [b] on; [acc] is [acc'] reversed. *)
Fixpoint prefixes (acc b : string) : list string :=
  match b with
  | EmptyString => []
  | String y b' => String y acc :: prefixes (String y acc) b'
  end.

(** The descriptors of a page with a form. *)
Definition page_descriptors : list string :=
  ["html"; "body"; "form#login"; "input#user"; "input#pass.wide";
   "button#submit.btn"; "input#user"; "a.link"; "div"].

End Suggest.

(* ===================================================================== *)
(** * src/artifacts.js: [aHashDataURL], and notions about pixels *)
(* ===================================================================== *)

Module Hash.

(** What becomes of the promise that [aHashDataURL] awaits; the value
    is [None] for [null]. *)
Inductive HashPromise : Type :=
| Hashed (hash : option string)
| Unsettled.

(** [parseInt(s, 2)] for a string [s] of binary digits, given as
    booleans. *)
Definition parseInt2 (s : list bool) : Z :=
  fold_left (fun acc (b : bool) => 2 * acc + (if b then 1 else 0)) s 0.

(** [n.toString(16)] for [0 <= n < 16]. *)
Definition toString16 (n : Z) : ascii :=
  nth (Z.to_nat n)
      ["0"; "1"; "2"; "3"; "4"; "5"; "6"; "7"; "8"; "9";
       "a"; "b"; "c"; "d"; "e"; "f"]%char "0"%char.

(** [bits.slice(i, i + 4)] *)
Definition slice4 (bits : list bool) (i : nat) : list bool :=
  firstn 4 (skipn i bits).

(** [for (let i = 0; i < 64; i += 4) hex += ...] *)
Definition to_hex (bits : list bool) : string :=
  string_of_list_ascii
    (map (fun k => toString16 (parseInt2 (slice4 bits (4 * k)))) (seq 0 16)).

Section AHash.
(** The image pipeline of the page, as for [diffDataURLs], and the
    arithmetic of doubles: [of_int] is the double of an integer,
    [c299], [c587] and [c114] are the three weights. *)
Variable Image : Type.
Variable decode : string -> option Image.
Variable getImageData : Image -> Z -> Z -> Z -> Z.
Variable setup_throws : bool.
Variable num : Type.
Variable of_int : Z -> num.
Variables c299 c587 c114 : num.
Variables add mul div : num -> num -> num.
Variable ge : num -> num -> bool.

(** [0.299 * d[i] + 0.587 * d[i + 1] + 0.114 * d[i + 2]] *)
Definition gr (d : Z -> Z) (i : Z) : num :=
  add (add (mul c299 (of_int (d i))) (mul c587 (of_int (d (i + 1)))))
      (mul c114 (of_int (d (i + 2)))).

(** The array [gray] after the first loop: one entry for each of the
    64 pixels. *)
Definition gray (d : Z -> Z) : list num :=
  map (fun j => gr d (4 * Z.of_nat j)) (seq 0 64).

(** [sum] after the first loop. *)
Definition sum (d : Z -> Z) : num := fold_left add (gray d) (of_int 0).

(** The string [bits], as booleans. *)
Definition bits (d : Z -> Z) : list bool :=
  let avg := div (sum d) (of_int 64) in
  map (fun g => ge g avg) (gray d).

(** The [onload] handler. *)
Definition onload (img : Image) : string :=
  to_hex (bits (getImageData img 8 8)).

(** The promise built in the page: [resolve] is called by [onload], or
    by the [catch] block. *)
Definition page_promise (url : string) : HashPromise :=
  if setup_throws then Hashed None
  else match decode url with
       | Some img => Hashed (Some (onload img))
       | None => Unsettled
       end.

(** [aHashDataURL(page, dataUrl)]: [None] when the awaited promise
    never settles; [Some None] is [null]. *)
Definition aHashDataURL (url : string) : option (option string) :=
  match page_promise url with
  | Hashed (Some hash) => Some (if String.eqb hash "" then None else Some hash)
  | Hashed None => Some None
  | Unsettled => None
  end.
End AHash.

End Hash.

Module Pixels.

(** [Math.abs(dr) + Math.abs(dg) + Math.abs(db)] at the index [i]. *)
Definition delta (d1 d2 : Z -> Z) (i : Z) : Z :=
  Z.abs (d1 i - d2 i) + Z.abs (d1 (i + 1) - d2 (i + 1))
  + Z.abs (d1 (i + 2) - d2 (i + 2)).

(** The four bits that a hexadecimal digit stands for. *)
Definition bits_of_digit (c : ascii) : list bool :=
  let n := match find (fun k => Ascii.eqb (Hash.toString16 (Z.of_nat k)) c) (seq 0 16) with
           | Some k => k
           | None => O
           end in
  [Nat.testbit n 3; Nat.testbit n 2; Nat.testbit n 1; Nat.testbit n 0].

Definition bits_of_hex (s : string) : list bool :=
  flat_map bits_of_digit (list_ascii_of_string s).

Definition is_hex_digit (c : ascii) : bool :=
  existsb (Ascii.eqb c)
          ["0"; "1"; "2"; "3"; "4"; "5"; "6"; "7"; "8"; "9";
           "a"; "b"; "c"; "d"; "e"; "f"]%char.

(** A page whose images are of one colour and opaque: the URL
    [data:grey,n] decodes to the image of shade [n] for the three
    shades 100, 110 and 150, and nothing else decodes. *)
Definition flat_decode (url : string) : option Z :=
  if String.eqb url "data:grey,100" then Some 100
  else if String.eqb url "data:grey,110" then Some 110
  else if String.eqb url "data:grey,150" then Some 150
  else None.

Definition flat_pixels (shade : Z) (w h i : Z) : Z :=
  if i mod 4 =? 3 then 255 else shade.

(** The sampled coordinates below [n]: the multiples of the stride. *)
Definition grid (n stride : Z) : list Z :=
  List.map (fun k => Z.of_nat k * stride) (seq 0 (Z.to_nat ((n + stride - 1) / stride))).

(** The sampled pixels of an image of [w] by [h] pixels, as pairs of a
    column and a row. *)
Definition sampled (w h stride : Z) : list (Z * Z) :=
  flat_map (fun y => List.map (fun x => (x, y)) (grid w stride)) (grid h stride).

(** The pixel differs by more than 30 between the two images. *)
Definition changed (d1 d2 : Z -> Z) (w : Z) (p : Z * Z) : bool :=
  30 <? delta d1 d2 ((snd p * w + fst p) * 4).

(** A page whose images are 64x48 and opaque: [data:grey,100] has the
    shade 100 throughout, [data:split] has the shade 100 in its left
    half and the shade 200 in its right half, and nothing else
    decodes. *)
Definition split_decode (url : string) : option bool :=
  if String.eqb url "data:grey,100" then Some false
  else if String.eqb url "data:split" then Some true
  else None.

Definition split_pixels (img : bool) (w h i : Z) : Z :=
  if i mod 4 =? 3 then 255
  else if andb img (w <=? 2 * ((i / 4) mod w)) then 200 else 100.

Definition split_width (img : bool) : Z := 64.
Definition split_height (img : bool) : Z := 48.

(** A fixed-point stand-in for the arithmetic of doubles, in
    thousandths. *)
Definition milli (n : Z) : Z := 1000 * n.
Definition milli_mul (a b : Z) : Z := a * b / 1000.
Definition milli_div (a b : Z) : Z := 1000 * a / b.

End Pixels.

(* ===================================================================== *)
(** * Notions about the trace *)
(* ===================================================================== *)

Module Tracing.
Import Engine Eyes.





(** The lines of the trace in a log. *)
Definition trace_lines (l : list Effect) : list Effect :=
  filter (fun e => match e with Traced _ _ _ _ => true | _ => false end) l.

Definition traces (w : World AgentEyes) : Prop :=
  trace_enabled (options (state w)) = true.

(** Between the two worlds nothing was written to the trace, and
    tracing stays on. *)
Definition quiet (w w' : World AgentEyes) : Prop :=
  traces w -> traces w' /\ trace_lines (log w') = trace_lines (log w).

(** Between the two worlds one line was written to the trace, for the
    action [name] that started at [start] and ended with [r]; nothing
    happened after it. *)
Definition one_line {A} (name : string) (start : Z) (r : Result A)
    (w w' : World AgentEyes) : Prop :=
  trace_lines (log w')
  = (trace_lines (log w)
     ++ [Traced name (now w' - start) (is_ok r)
                (match r with Throw e => Some e | Ok _ => None end)])%list.

(** A computation that writes its line when it returns, and nothing
    when it throws. *)
Definition lines_ok {A} (name : string) (start : Z) (m : E A) : Prop :=
  forall w, traces w ->
    match fst (m w) with
    | Ok a => one_line name start (fst (m w)) w (snd (m w))
    | Throw _ => quiet w (snd (m w))
    end.

(** A computation that writes its line and throws. *)
Definition lines_throw {A} (name : string) (start : Z) (m : E A) : Prop :=
  forall w, traces w ->
    is_ok (fst (m w)) = false /\ one_line name start (fst (m w)) w (snd (m w)).

(** A session that is open and traces. *)
Definition tracing : World AgentEyes :=
  mkWorld (mkAgentEyes (mkOptions None (Some true) (Some true) true)
                       true true true true [] [] (mkMetrics 0 0 0) false)
          [] [] 0 [] (fun _ => None).

End Tracing.

(* ===================================================================== *)
(** * src/detectors.js *)
(* ===================================================================== *)

Module Detect.

(** [window.__EYES], with the two variables [ctxTypes] (a [Set], in
    the order of insertion) and [lastCanvas] that its getters read. *)
Record EYES : Type := mkEYES {
  __canvasHookInstalled : bool;
  ctxTypes : list string;
  lastCanvas : option Z;
  canvasFrame : option string
}.

(** What the installer reads and writes in a window: [__EYES], whether
    [HTMLCanvasElement.prototype.getContext] is defined, how many
    times it has been wrapped, and how many [capture] timers run. *)
Record Window : Type := mkWindow {
  __EYES : option EYES;
  orig : bool;
  wrapped : nat;
  intervals : nat
}.

(** The first argument of a call of [getContext]. *)
Inductive JsArg : Type :=
| Str (s : string)
| NotString.

Definition targetTypes : list string := ["webgl"; "webgl2"; "gpupresent"; "webgpu"].

(** [set.add(x)] *)
Definition add (x : string) (set : list string) : list string :=
  if existsb (String.eqb x) set then set else (set ++ [x])%list.

(** [installer], as [injectCanvasHook] evaluates it in the page. *)
Definition installer (w : Window) : Window :=
  let e := match __EYES w with
           | Some e => e
           | None => mkEYES false [] None None
           end in
  if orb (negb (orig w)) (__canvasHookInstalled e)
  then mkWindow (Some e) (orig w) (wrapped w) (intervals w)
  else mkWindow (Some (mkEYES true [] None (canvasFrame e)))
                (orig w) (S (wrapped w)) (S (intervals w)).

(** What happens in the page: a script calls [getContext] on the
    canvas [canvas] and the original function returns a context or
    [null] ([ctx]), or a second passes. *)
Inductive HookEvent : Type :=
| GetContext (canvas : Z) (type : JsArg) (ctx : bool)
| Second.

Section Page.
(** [canvas.toDataURL('image/webp', 0.8)]; [None] when the canvas has
    no such function or the call throws. *)
Variable toDataURL : Z -> option string.

(** The wrapper of [getContext]. *)
Definition hooked_getContext (canvas : Z) (type : JsArg) (ctx : bool)
    (e : EYES) : EYES :=
  match type with
  | Str t =>
      if andb ctx (existsb (String.eqb t) targetTypes)
      then mkEYES (__canvasHookInstalled e) (add t (ctxTypes e)) (Some canvas)
                  (canvasFrame e)
      else e
  | NotString => e
  end.

(** [capture] *)
Definition capture (e : EYES) : EYES :=
  match lastCanvas e with
  | Some canvas =>
      match toDataURL canvas with
      | Some url => mkEYES (__canvasHookInstalled e) (ctxTypes e) (lastCanvas e)
                           (Some url)
      | None => e
      end
  | None => e
  end.

Definition step (w : Window) (ev : HookEvent) : Window :=
  match __EYES w with
  | None => w
  | Some e =>
      match ev with
      | GetContext canvas type ctx =>
          if (0 <? wrapped w)%nat
          then mkWindow (Some (hooked_getContext canvas type ctx e))
                        (orig w) (wrapped w) (intervals w)
          else w
      | Second =>
          mkWindow (Some (Nat.iter (intervals w) capture e))
                   (orig w) (wrapped w) (intervals w)
      end
  end.

Definition page_runs (evs : list HookEvent) (w : Window) : Window :=
  fold_left step evs w.
End Page.

(** The function that [getLastCanvasFrame] evaluates in the page;
    [None] is [null]. *)
Definition getLastCanvasFrame (w : Window) : option string :=
  match __EYES w with
  | Some e =>
      match canvasFrame e with
      | Some url => if String.eqb url "" then None else Some url
      | None => None
      end
  | None => None
  end.

(** The function that [detectCanvasAndTypes] evaluates in the page:
    [hasCanvas] and [ctxTypes]. *)
Definition detectCanvasAndTypes (w : Window) : bool * list string :=
  match __EYES w with
  | Some e =>
      (match lastCanvas e with Some _ => true | None => false end, ctxTypes e)
  | None => (false, [])
  end.

(** A script of the page has obtained a context of the target type
    [t] from the canvas [canvas]. *)
Definition requested (evs : list HookEvent) (t : string) (canvas : Z) : Prop :=
  In (GetContext canvas (Str t) true) evs /\ In t targetTypes.

(** What holds in a page in which the hook is installed, after the
    events [evs]. *)
Definition hook_sound (evs : list HookEvent) (w : Window) : Prop :=
  exists e,
    __EYES w = Some e
    /\ __canvasHookInstalled e = true
    /\ (0 < wrapped w)%nat
    /\ NoDup (ctxTypes e)
    /\ (forall t, In t (ctxTypes e) <-> exists c, requested evs t c)
    /\ (forall c, lastCanvas e = Some c -> exists t, requested evs t c)
    /\ (lastCanvas e = None -> ctxTypes e = [] /\ canvasFrame e = None).

(** A window of a fresh document. *)
Definition fresh_window : Window := mkWindow None true 0 0.

(** A window of a fresh document in which
    [HTMLCanvasElement.prototype.getContext] is not defined. *)
Definition bare_window : Window := mkWindow None false 0 0.

(** A page that asks for a 2d context, then twice for WebGL on the
    canvas 7, with a second in between. *)
Definition webgl_page : list HookEvent :=
  [GetContext 3 (Str "2d") true; GetContext 7 (Str "webgl") true; Second;
   GetContext 7 (Str "webgl") true].

Definition sample_toDataURL (canvas : Z) : option string :=
  if canvas =? 7 then Some "data:image/webp;base64,UklGRg==" else None.

End Detect.

(* ===================================================================== *)
(** * Notions about the navigations of a session *)
(* ===================================================================== *)

Module Guarded.
Import Engine Eyes Security Runner Sample.

(** The options that [navigate] hands to the guard. *)
Definition guard_options (s : AgentEyes) : GuardOptions :=
  mkGuardOptions (opt_allowNavigationTo (options s)) (opt_blockPrivateIPs (options s)).

(** The guard of the session returns [url] for some input. *)
Definition admitted (w : World AgentEyes) (url : string) : Prop :=
  exists rawUrl,
    guardNavigation (new_URL w) rawUrl (guard_options (state w)) = inr url.

(** Every [page.goto] of the log went to a URL that the guard of the
    session [w] returns. *)
Definition gotos_admitted (w : World AgentEyes) (l : list Effect) : Prop :=
  forall url waitUntil timeout,
    In (Called (Goto url waitUntil timeout)) l -> admitted w url.

(** The options and the URL parser are the same in both worlds, and no
    [page.goto] to a URL that the guard does not return came into the
    log. *)
Definition keeps_guard (w w' : World AgentEyes) : Prop :=
  options (state w') = options (state w)
  /\ new_URL w' = new_URL w
  /\ (gotos_admitted w (log w) -> gotos_admitted w (log w')).

(** An open session on a platform whose [URL] parses two inputs. *)
Definition parsing : World AgentEyes :=
  mkWorld (state opened) [] [] 0 (log opened)
          (fun raw =>
             if String.eqb raw "https://example.com" then
               Some (mkURL "https:" "example.com" "https://example.com/")
             else if String.eqb raw "http://127.0.0.1:8080/admin" then
               Some (mkURL "http:" "127.0.0.1" "http://127.0.0.1:8080/admin")
             else None).

(** [{ url }] *)
Definition go (url : string) : Step :=
  mkStep "navigate"
         (Some (mkArgs (Some url) None None None None None None None None None
                       None None None None)).

End Guarded.

(* ===================================================================== *)
(** * Properties of the navigation guard *)
(* ===================================================================== *)

Module SecurityFacts.
Import Security RegExp Sample.

Lemma nullable_cat_eps r : nullable (Cat Eps r) = nullable r.
Proof. reflexivity. Qed.

Lemma deriv_cat_eps ci c r : deriv ci c (Cat Eps r) = deriv ci c r.
Proof. simpl. destruct (deriv ci c r); reflexivity. Qed.

Lemma prefix_cat_eps ci r s : RegExp.prefix ci (Cat Eps r) s = RegExp.prefix ci r s.
Proof.
  destruct s as [|c s]; cbn [RegExp.prefix]; rewrite nullable_cat_eps.
  - reflexivity.
  - rewrite deriv_cat_eps. reflexivity.
Qed.

Lemma prefix_nullable ci r s : nullable r = true -> RegExp.prefix ci r s = true.
Proof. intros H. destruct s; cbn [RegExp.prefix]; rewrite H; reflexivity. Qed.

(** A pattern [/^p/] for a literal [p] accepts every string that starts
    with [p]. *)
Lemma prefix_lit_app (p rest : string) :
  RegExp.prefix false (lit p) (p ++ rest) = true.
Proof.
  induction p as [|c p IH].
  - apply prefix_nullable. reflexivity.
  - cbn [lit append RegExp.prefix nullable andb deriv].
    unfold chr_eqb. rewrite Ascii.eqb_refl.
    rewrite prefix_cat_eps. exact IH.
Qed.

(** Stripping a closing bracket leaves a bracket-free prefix alone. *)
Lemma strip_close_cons c s :
  Ascii.eqb c "]" = false ->
  strip_close (String c s) = String c (strip_close s).
Proof.
  intros H. destruct s as [|c' s]; cbn [strip_close].
  - rewrite H. reflexivity.
  - reflexivity.
Qed.

Lemma dotted_private (p rest : string) :
  In p ["10."; "127."; "169.254."; "192.168.";
        "172.16."; "172.17."; "172.18."; "172.19."; "172.20."; "172.21.";
        "172.22."; "172.23."; "172.24."; "172.25."; "172.26."; "172.27.";
        "172.28."; "172.29."; "172.30."; "172.31."] ->
  isPrivateHostname (p ++ rest) = true.
Proof.
  intros H. unfold isPrivateHostname.
  cbn [In] in H.
  repeat (destruct H as [<- | H];
          [ cbn [append strip_open];
            repeat (rewrite strip_close_cons by reflexivity);
            cbn; destruct (strip_close rest); reflexivity | ]).
  contradiction.
Qed.

(** Every IPv4 host name in the private ranges is recognised. *)
Lemma ipv4_private_blocked (a b c d : Z) :
  ipv4_private a b = true -> isPrivateHostname (ipv4 a b c d) = true.
Proof.
  unfold ipv4_private, ipv4. intros H.
  assert (Hc : (a = 10) \/ (a = 127) \/ (a = 169 /\ b = 254)
               \/ (a = 192 /\ b = 168) \/ (a = 172 /\ 16 <= b <= 31)) by lia.
  destruct Hc as [-> | [-> | [[-> ->] | [[-> ->] | [-> Hb]]]]].
  - change (isPrivateHostname ("10." ++ (dec b ++ "." ++ dec c ++ "." ++ dec d)) = true).
    apply dotted_private; cbn [In]; tauto.
  - change (isPrivateHostname ("127." ++ (dec b ++ "." ++ dec c ++ "." ++ dec d)) = true).
    apply dotted_private; cbn [In]; tauto.
  - change (isPrivateHostname ("169.254." ++ (dec c ++ "." ++ dec d)) = true).
    apply dotted_private; cbn [In]; tauto.
  - change (isPrivateHostname ("192.168." ++ (dec c ++ "." ++ dec d)) = true).
    apply dotted_private; cbn [In]; tauto.
  - assert (Hb' : b = 16 \/ b = 17 \/ b = 18 \/ b = 19 \/ b = 20 \/ b = 21
                  \/ b = 22 \/ b = 23 \/ b = 24 \/ b = 25 \/ b = 26 \/ b = 27
                  \/ b = 28 \/ b = 29 \/ b = 30 \/ b = 31) by lia.
    clear H Hb.
    repeat (destruct Hb' as [-> | Hb']); try subst b;
      match goal with
      | |- isPrivateHostname (dec 172 ++ "." ++ dec ?n ++ "." ++ ?r) = true =>
          let q := eval vm_compute in (dec 172 ++ "." ++ dec n ++ ".") in
          change (isPrivateHostname (q ++ r) = true);
          apply dotted_private; cbn [In]; tauto
      end.
Qed.

(** C2, at a unique-local address: [fd12:3456:789a::1] lies in
    [fc00::/7], yet [guardNavigation] with the private-address block
    switched on returns the URL instead of failing with
    [SecurityBlocked], because the table only lists the literal
    prefixes [fc00:] and [fd00:]. *)
Theorem guard_admits_unique_local (new_URL : string -> option URL) :
  new_URL "http://[fd12:3456:789a::1]/" = Some ula_url ->
  hextet_in 0xfd12 0xfc00 7 = true /\
  guardNavigation new_URL "http://[fd12:3456:789a::1]/"
    (mkGuardOptions None (Some true))
  = inr "http://[fd12:3456:789a::1]/".
Proof.
  intros H. split; [reflexivity|].
  unfold guardNavigation, ensureValidUrl. rewrite H. reflexivity.
Qed.

Lemma guard_admits_unique_local_witness :
  hextet_in 0xfd12 0xfc00 7 = true /\
  guardNavigation (fun _ => Some ula_url) "http://[fd12:3456:789a::1]/"
    (mkGuardOptions None (Some true))
  = inr "http://[fd12:3456:789a::1]/".
Proof. apply (@guard_admits_unique_local (fun _ => Some ula_url)). reflexivity. Defined.

(** The loopback names are recognised, with or without brackets and in
    any case. *)
Lemma loopback_names_private :
  isPrivateHostname "[::1]" = true /\ isPrivateHostname "::1" = true
  /\ isPrivateHostname "localhost" = true
  /\ isPrivateHostname "LOCALHOST" = true
  /\ isPrivateHostname "LocalHost" = true
  /\ isPrivateHostname "localhost.example.com" = false.
Proof. repeat split; reflexivity. Qed.

(** The same happens in the link-local range [fe80::/10] away from the
    literal prefix [fe80:]. *)
Lemma link_local_not_recognised :
  hextet_in 0xfe90 0xfe80 10 = true /\ isPrivateHostname "[fe90::1]" = false.
Proof. split; reflexivity. Qed.

(** With the block switched off, a URL that passes the scheme check and
    the allow-list is returned. *)
Lemma guard_off_succeeds (new_URL : string -> option URL) raw u allow :
  new_URL raw = Some u ->
  (protocol u = "http:" \/ protocol u = "https:") ->
  match allow with Some f => f (href u) = true | None => True end ->
  guardNavigation new_URL raw (mkGuardOptions allow (Some false)) = inr (href u).
Proof.
  intros H Hp Ha. unfold guardNavigation, ensureValidUrl. rewrite H.
  assert (Hs : RegExp.test
                 (RegExp.mk (Cat (lit "http") (Cat (Opt (Chr "s")) (Chr ":"))) true false)
                 (protocol u) = true)
    by (destruct Hp as [-> | ->]; reflexivity).
  rewrite Hs. cbn [negb allowNavigationTo blockPrivateIPs not_false andb].
  destruct allow as [f|]; [rewrite Ha|]; reflexivity.
Qed.

(** With the block on, a private host name is refused with
    [SECURITY_BLOCKED] whenever the URL parses. *)
Lemma guard_on_blocks (new_URL : string -> option URL) raw u allow b :
  new_URL raw = Some u ->
  b <> Some false ->
  isPrivateHostname (hostname u) = true ->
  exists m, guardNavigation new_URL raw (mkGuardOptions allow b)
            = inl (EyesError SECURITY_BLOCKED m None None).
Proof.
  intros H Hb Hp. unfold guardNavigation, ensureValidUrl. rewrite H.
  destruct (negb _); [eexists; reflexivity|].
  cbn [allowNavigationTo blockPrivateIPs].
  destruct (match allow with Some _ => _ | None => _ end); [eexists; reflexivity|].
  rewrite Hp.
  assert (Hn : not_false b = true) by (destruct b as [[|]|]; [reflexivity|congruence|reflexivity]).
  rewrite Hn. eexists; reflexivity.
Qed.

End SecurityFacts.

(* ===================================================================== *)
(** * Properties of the DOM serializer *)
(* ===================================================================== *)

Module DomFacts.
Import Dom Artifacts Sample.

(** The depth that [serializeDOM] works with lies in [1,10]. *)
Lemma clampDepth_range (o : option Z) : 1 <= clampDepth o <= 10.
Proof. unfold clampDepth. lia. Qed.

Lemma substring_length_le (n : nat) (s : string) :
  (String.length (substring 0 n s) <= n)%nat.
Proof.
  revert s. induction n as [|n IH]; intros [|c s]; cbn; try lia.
  specialize (IH s). lia.
Qed.

(** Within the depth bound [nodeInfo] always builds an object. *)
Lemma nodeInfo_some maxDepth plaintext n depth :
  depth <= maxDepth -> nodeInfo maxDepth plaintext n depth <> None.
Proof.
  intros H. destruct n. cbn [nodeInfo].
  destruct (Z.gtb_spec depth maxDepth); [lia|]. discriminate.
Qed.

(** The loop over the children stops only after the list has grown
    beyond 1000 entries: it keeps 1001 of them. *)
Lemma each_child_length visit cs acc :
  (forall c, visit c <> None) ->
  (List.length acc <= 1000)%nat ->
  List.length (each_child visit cs acc)
  = Nat.min (List.length acc + List.length cs) 1001.
Proof.
  intros Hv. revert acc. induction cs as [|c cs IH]; intros acc Hacc.
  - cbn [each_child List.length]. lia.
  - cbn [each_child List.length].
    destruct (visit c) as [ci|] eqn:E; [|now apply Hv in E].
    destruct (Z.gtb_spec (Z.of_nat (List.length (acc ++ [ci])%list)) 1000) as [G|G];
      rewrite length_app in G; cbn [List.length] in G.
    + rewrite length_app. cbn [List.length]. lia.
    + rewrite IH; rewrite length_app; cbn [List.length]; lia.
Qed.

(** In plaintext mode an element carries its inner text cut to 2000
    characters, and a text node carries no text. *)
Lemma plaintext_text maxDepth n depth i :
  nodeInfo maxDepth true n depth = Some i ->
  match n with
  | mkNode ty _ _ _ innerText _ _ =>
      if ty =? 1
      then text i = Some (slice2000 (or_empty innerText))
           /\ (String.length (slice2000 (or_empty innerText)) <= 2000)%nat
      else text i = None
  end.
Proof.
  destruct n as [ty tg nm ats it nv kids]. cbn [nodeInfo].
  destruct (depth >? maxDepth); [discriminate|].
  intros H. injection H as <-. cbn [text andb negb].
  destruct (ty =? 1); [|reflexivity].
  split; [reflexivity|]. apply substring_length_le.
Qed.

(** Induction on a DOM tree: the children of a node satisfy the
    property before the node does. *)
Fixpoint Node_tree_ind (P : Node -> Prop)
    (step : forall ty tg nm ats it nv kids,
        Forall P kids -> P (mkNode ty tg nm ats it nv kids))
    (n : Node) {struct n} : P n :=
  match n with
  | mkNode ty tg nm ats it nv kids =>
      step ty tg nm ats it nv kids
        ((fix all (l : list Node) : Forall P l :=
            match l with
            | [] => @Forall_nil Node P
            | k :: l' => @Forall_cons Node P k l' (Node_tree_ind step k) (all l')
            end) kids)
  end.

Lemma each_child_Forall (Q : Info -> Prop) visit cs acc :
  Forall Q acc ->
  Forall (fun c => forall ci, visit c = Some ci -> Q ci) cs ->
  Forall Q (each_child visit cs acc).
Proof.
  intros Ha Hc. revert acc Ha.
  induction Hc as [|c cs Hv _ IH]; intros acc Ha; cbn [each_child].
  - exact Ha.
  - assert (Ha' : Forall Q match visit c with
                           | Some ci => (acc ++ [ci])%list
                           | None => acc
                           end).
    { destruct (visit c) as [ci|]; [|exact Ha].
      apply Forall_app. split; [exact Ha|]. constructor; [|constructor].
      apply Hv. reflexivity. }
    destruct (_ >? 1000); [exact Ha'|apply IH, Ha'].
Qed.

Lemma children_depth_le (d : nat) (cs : list Info) :
  Forall (fun c => (info_depth c <= d)%nat) cs ->
  (fold_right (fun c m => Nat.max (info_depth c) m) O cs <= d)%nat.
Proof.
  induction 1 as [|c cs Hc _ IH]; cbn [fold_right]; lia.
Qed.

(** The serialized tree is no deeper than the levels left below
    [maxDepth]. *)
Lemma nodeInfo_depth maxDepth plaintext n :
  forall depth i,
    nodeInfo maxDepth plaintext n depth = Some i ->
    (info_depth i <= Z.to_nat (maxDepth - depth + 1))%nat.
Proof.
  induction n as [ty tg nm ats it nv kids IH] using Node_tree_ind.
  intros depth i. cbn [nodeInfo].
  destruct (Z.gtb_spec depth maxDepth) as [G|G]; [discriminate|].
  intros H. injection H as <-. cbn [info_depth].
  replace (Z.to_nat (maxDepth - depth + 1)) with (S (Z.to_nat (maxDepth - depth))) by lia.
  apply le_n_S, children_depth_le.
  destruct (Z.ltb_spec depth maxDepth) as [L|L]; [|constructor].
  apply each_child_Forall; [constructor|].
  eapply Forall_impl; [|exact IH].
  intros c Hc ci Hci. apply Hc in Hci.
  replace (maxDepth - (depth + 1) + 1) with (maxDepth - depth) in Hci by lia.
  exact Hci.
Qed.

(** [serializeDOM] returns a tree of at most [maxDepth] levels, hence of
    at most 10. *)
Lemma serialize_depth opts root i :
  serialize opts root = Some i -> (info_depth i <= 10)%nat.
Proof.
  destruct root as [n|]; [|discriminate]. cbn [serialize]. intros H.
  apply nodeInfo_depth in H. pose proof (clampDepth_range (opt_maxDepth opts)). lia.
Qed.

(** In plaintext mode the text nodes are still visited and listed among
    the children. *)
Lemma plaintext_keeps_text_nodes :
  option_map (fun i => List.map tag (children i))
    (serialize (mkDomOpts (Some 2) (Some true))
       (Some (mkNode 1 "P" "P" [] (Some "hi") None
                [mkNode 3 "" "#text" [] None (Some "hi") []])))
  = Some ["#text"].
Proof. reflexivity. Qed.

(** C9, at a node with more than 1000 children: the serialized node
    lists 1001 children, one more than the bound of 1000, because the
    loop tests [children.length > 1000] after the push. *)
Theorem serialize_keeps_1001_children (opts : DomOpts) (n : Node) :
  2 <= clampDepth (opt_maxDepth opts) ->
  (1000 < List.length (childNodes n))%nat ->
  exists i, serialize opts (Some n) = Some i
            /\ List.length (children i) = 1001%nat.
Proof.
  intros Hd Hn. destruct n as [ty tg nm ats it nv kids].
  cbn [childNodes] in Hn. cbn [serialize nodeInfo].
  destruct (Z.gtb_spec 1 (clampDepth (opt_maxDepth opts))); [lia|].
  destruct (Z.ltb_spec 1 (clampDepth (opt_maxDepth opts))); [|lia].
  eexists. split; [reflexivity|]. cbn [children].
  rewrite each_child_length.
  - cbn [List.length]. lia.
  - intros c. apply nodeInfo_some. lia.
  - cbn. lia.
Qed.

Lemma serialize_keeps_1001_children_witness :
  exists i, serialize (mkDomOpts None (Some true)) (Some (wide 1500)) = Some i
            /\ List.length (children i) = 1001%nat.
Proof.
  apply (@serialize_keeps_1001_children (mkDomOpts None (Some true)) (wide 1500)).
  - vm_compute. discriminate.
  - unfold wide. cbn [childNodes]. rewrite repeat_length. lia.
Defined.

End DomFacts.

(* ===================================================================== *)
(** * Properties of the pixel comparison *)
(* ===================================================================== *)

Module DiffFacts.
Import Artifacts.

Section Loops.
Variables d1 d2 : Z -> Z.
Variables w h sampleStride : Z.

Lemma sample_total x y c : total (sample d1 d2 w x y c) = total c + 1.
Proof. reflexivity. Qed.

Lemma sample_counted x y c :
  0 <= diff c <= total c ->
  0 <= diff (sample d1 d2 w x y c) <= total (sample d1 d2 w x y c).
Proof.
  unfold sample. cbn [diff total].
  destruct (_ >? 30); lia.
Qed.

Lemma for_x_counted fuel x y c :
  0 <= diff c <= total c ->
  0 <= diff (for_x d1 d2 w sampleStride fuel x y c)
    <= total (for_x d1 d2 w sampleStride fuel x y c).
Proof.
  revert x c. induction fuel as [|fuel IH]; intros x c Hc; cbn [for_x].
  - exact Hc.
  - destruct (x <? w); [|exact Hc]. apply IH, sample_counted, Hc.
Qed.

Lemma for_y_counted fuel y c :
  0 <= diff c <= total c ->
  0 <= diff (for_y d1 d2 w h sampleStride fuel y c)
    <= total (for_y d1 d2 w h sampleStride fuel y c).
Proof.
  revert y c. induction fuel as [|fuel IH]; intros y c Hc; cbn [for_y].
  - exact Hc.
  - destruct (y <? h); [|exact Hc]. apply IH, for_x_counted, Hc.
Qed.

Lemma for_x_total fuel x y c :
  total c <= total (for_x d1 d2 w sampleStride fuel x y c).
Proof.
  revert x c. induction fuel as [|fuel IH]; intros x c; cbn [for_x].
  - lia.
  - destruct (x <? w); [|lia].
    specialize (IH (x + sampleStride) (sample d1 d2 w x y c)).
    rewrite sample_total in IH. lia.
Qed.

Lemma for_y_total fuel y c :
  total c <= total (for_y d1 d2 w h sampleStride fuel y c).
Proof.
  revert y c. induction fuel as [|fuel IH]; intros y c; cbn [for_y].
  - lia.
  - destruct (y <? h); [|lia].
    specialize (IH (y + sampleStride) (for_x d1 d2 w sampleStride (Z.to_nat w) 0 y c)).
    pose proof (for_x_total (Z.to_nat w) 0 y c). lia.
Qed.

(** At least the pixel (0,0) is sampled. *)
Lemma for_y_samples c :
  0 < w -> 0 < h ->
  total c < total (for_y d1 d2 w h sampleStride (Z.to_nat h) 0 c).
Proof.
  intros Hw Hh.
  destruct (Z.to_nat h) as [|fh] eqn:Eh; [lia|].
  destruct (Z.to_nat w) as [|fw] eqn:Ew; [lia|].
  cbn [for_y]. destruct (Z.ltb_spec 0 h); [|lia].
  rewrite Ew. cbn [for_x]. destruct (Z.ltb_spec 0 w); [|lia].
  pose proof (for_y_total fh (0 + sampleStride)
                (for_x d1 d2 w sampleStride fw (0 + sampleStride) 0
                   (sample d1 d2 w 0 0 c))) as H1.
  pose proof (for_x_total fw (0 + sampleStride) 0 (sample d1 d2 w 0 0 c)) as H2.
  rewrite sample_total in H2. lia.
Qed.

(** The fuel of the loops is never the reason why they stop: with a
    stride of at least 1, any fuel from [w - x] on gives the same
    result. *)
Lemma for_x_fuel fuel fuel' x y c :
  1 <= sampleStride ->
  (Z.to_nat (w - x) <= fuel)%nat ->
  (Z.to_nat (w - x) <= fuel')%nat ->
  for_x d1 d2 w sampleStride fuel x y c
  = for_x d1 d2 w sampleStride fuel' x y c.
Proof.
  intros Hs. revert fuel' x c.
  induction fuel as [|fuel IH]; intros [|fuel'] x c Hf Hf'; cbn [for_x];
    try reflexivity;
    destruct (Z.ltb_spec x w) as [Hx|Hx]; try reflexivity; try lia.
  apply IH; lia.
Qed.

Lemma for_y_fuel fuel fuel' y c :
  1 <= sampleStride ->
  (Z.to_nat (h - y) <= fuel)%nat ->
  (Z.to_nat (h - y) <= fuel')%nat ->
  for_y d1 d2 w h sampleStride fuel y c
  = for_y d1 d2 w h sampleStride fuel' y c.
Proof.
  intros Hs. revert fuel' y c.
  induction fuel as [|fuel IH]; intros [|fuel'] y c Hf Hf'; cbn [for_y];
    try reflexivity;
    destruct (Z.ltb_spec y h) as [Hy|Hy]; try reflexivity; try lia.
  apply IH; lia.
Qed.
End Loops.

Section Same.
Variable d : Z -> Z.
Variables w h sampleStride : Z.

Lemma sample_same x y c : diff (sample d d w x y c) = diff c.
Proof.
  unfold sample. cbn [diff].
  rewrite !Z.sub_diag. reflexivity.
Qed.

Lemma for_x_same fuel x y c :
  diff (for_x d d w sampleStride fuel x y c) = diff c.
Proof.
  revert x c. induction fuel as [|fuel IH]; intros x c; cbn [for_x].
  - reflexivity.
  - destruct (x <? w); [|reflexivity]. rewrite IH. apply sample_same.
Qed.

Lemma for_y_same fuel y c :
  diff (for_y d d w h sampleStride fuel y c) = diff c.
Proof.
  revert y c. induction fuel as [|fuel IH]; intros y c; cbn [for_y].
  - reflexivity.
  - destruct (y <? h); [|reflexivity]. rewrite IH. apply for_x_same.
Qed.
End Same.

Section Page.
Variable Image : Type.
Variable width height : Image -> Z.
Variable decode : string -> option Image.
Variable getImageData : Image -> Z -> Z -> Z -> Z.
Variable scaled : Z -> Z -> Z -> Z.

Let compare := compare width height getImageData scaled.
Let diffDataURLs := diffDataURLs width height decode getImageData scaled.

Lemma compare_range imgA imgB sampleStride resizeWidth :
  (0 <= compare imgA imgB sampleStride resizeWidth <= 1)%Q.
Proof.
  unfold compare, Artifacts.compare.
  set (h := Z.max 32 _).
  set (c := for_y _ _ _ _ _ _ _ _).
  assert (Hc : 0 <= diff c <= total c)
    by (apply for_y_counted; cbn; lia).
  destruct (Z.eqb_spec (total c) 0) as [E|E].
  - split; unfold Qle; cbn; lia.
  - split; unfold Qle; cbn; rewrite ?Z2Pos.id by lia; lia.
Qed.

Lemma compare_same img sampleStride resizeWidth :
  (compare img img sampleStride resizeWidth == 0)%Q.
Proof.
  unfold compare, Artifacts.compare.
  rewrite for_y_same. cbn [diff].
  destruct (_ =? 0); reflexivity.
Qed.

(** When both images decode, the second [load] event resolves the
    promise with the ratio. *)
Lemma diff_both_decode a b imgA imgB opts :
  decode a = Some imgA -> decode b = Some imgB ->
  exists s w, 1 <= s /\ 32 <= w /\
    diffDataURLs false a b opts = Some (compare imgA imgB s w).
Proof.
  intros Ha Hb. unfold diffDataURLs, Artifacts.diffDataURLs, page_promise.
  rewrite Ha, Hb. cbn.
  eexists _, _. split; [|split; [|reflexivity]]; lia.
Qed.

(** An image compared with itself gives the ratio 0. *)
Lemma diff_same_image a img opts :
  decode a = Some img ->
  exists q, diffDataURLs false a a opts = Some q /\ (q == 0)%Q.
Proof.
  intros Ha. destruct (diff_both_decode opts Ha Ha) as (s & w & _ & _ & E).
  eexists. split; [exact E|]. apply compare_same.
Qed.

(** Every ratio that is returned lies in [0,1]. *)
Lemma diff_in_range setup_throws a b opts q :
  diffDataURLs setup_throws a b opts = Some q -> (0 <= q <= 1)%Q.
Proof.
  unfold diffDataURLs, Artifacts.diffDataURLs, page_promise.
  destruct setup_throws.
  - intros H. injection H as <-. split; unfold Qle; cbn; lia.
  - destruct (decode a) as [imgA|], (decode b) as [imgB|]; cbn;
      try discriminate.
    intros H. injection H as <-. apply compare_range.
Qed.

(** C10, at an input that does not decode: no [load] event arrives
    for it, [ready] stays below 2 and [resolve] is never called, so
    the call never returns, while the claim expects the ratio 1. *)
Theorem diff_pending_on_undecodable (a b : string) (opts : DiffOpts) :
  decode a = None \/ decode b = None ->
  diffDataURLs false a b opts = None.
Proof.
  unfold diffDataURLs, Artifacts.diffDataURLs, page_promise.
  intros [H | H]; rewrite H.
  - destruct (decode b); reflexivity.
  - destruct (decode a); reflexivity.
Qed.
End Page.

Lemma diff_pending_on_undecodable_witness :
  diffDataURLs fst snd Sample.sample_decode Sample.sample_pixels
    Sample.sample_scaled false "data:text/plain,hello" "data:image/png;base64,iVBO"
    (mkDiffOpts None None) = None.
Proof.
  apply (@diff_pending_on_undecodable (Z * Z) fst snd Sample.sample_decode
           Sample.sample_pixels Sample.sample_scaled).
  left. reflexivity.
Defined.

End DiffFacts.

(* ===================================================================== *)
(** * Reasoning about the effect monad *)
(* ===================================================================== *)

Module MonadFacts.
Import Engine.

Lemma bind_ok {St A B} (m : M St A) (k : A -> M St B) w a :
  fst (m w) = Ok a -> bind m k w = k a (snd (m w)).
Proof. unfold bind. destruct (m w) as [[x|e] w1]; cbn; congruence. Qed.

Lemma bind_throw {St A B} (m : M St A) (k : A -> M St B) w e :
  fst (m w) = Throw e -> bind m k w = (Throw e, snd (m w)).
Proof. unfold bind. destruct (m w) as [[x|e'] w1]; cbn; congruence. Qed.

Lemma try_ok {St A} (m : M St A) (h : Thrown -> M St A) w a :
  fst (m w) = Ok a -> try_catch m h w = (Ok a, snd (m w)).
Proof. unfold try_catch. destruct (m w) as [[x|e'] w1]; cbn; congruence. Qed.

Lemma try_throw {St A} (m : M St A) (h : Thrown -> M St A) w e :
  fst (m w) = Throw e -> try_catch m h w = h e (snd (m w)).
Proof. unfold try_catch. destruct (m w) as [[x|e'] w1]; cbn; congruence. Qed.

Lemma nt_ret {St A} (a : A) : never_throws (@ret St A a).
Proof. intros w. reflexivity. Qed.

Lemma nt_bind {St A B} (m : M St A) (k : A -> M St B) :
  never_throws m -> (forall a, never_throws (k a)) -> never_throws (bind m k).
Proof.
  intros Hm Hk w. unfold bind. specialize (Hm w).
  destruct (m w) as [[a|e] w1]; cbn in Hm; [apply Hk|discriminate].
Qed.

Lemma nt_try {St A} (m : M St A) (h : Thrown -> M St A) :
  (forall e, never_throws (h e)) -> never_throws (try_catch m h).
Proof.
  intros Hh w. unfold try_catch.
  destruct (m w) as [[a|e] w1]; [reflexivity|apply Hh].
Qed.

Lemma nt_modify {St} (f : St -> St) : never_throws (modify f).
Proof. intros w. reflexivity. Qed.

Lemma nt_get {St} : never_throws (@get St).
Proof. intros w. reflexivity. Qed.

Lemma nt_tell {St} e : never_throws (@tell St e).
Proof. intros w. reflexivity. Qed.

Lemma nt_Date_now {St} : never_throws (@Date_now St).
Proof. intros w. reflexivity. Qed.

Lemma nt_Math_random {St} : never_throws (@Math_random St).
Proof. intros w. unfold Math_random. destruct (random w); reflexivity. Qed.

Lemma at_throw {St A} e : always_throws (@throw St A e).
Proof. intros w. reflexivity. Qed.

Lemma at_bind {St A B} (m : M St A) (k : A -> M St B) :
  never_throws m -> (forall a, always_throws (k a)) -> always_throws (bind m k).
Proof.
  intros Hm Hk w. unfold bind. specialize (Hm w).
  destruct (m w) as [[a|e] w1]; cbn in Hm; [apply Hk|discriminate].
Qed.

Lemma to_never {St A} P (m : M St A) : never_throws m -> throws_only P m.
Proof.
  intros H w e E. specialize (H w). rewrite E in H. discriminate.
Qed.

Lemma to_throw {St A} (P : Thrown -> Prop) e : P e -> throws_only P (@throw St A e).
Proof. intros H w e' E. cbn in E. congruence. Qed.

Lemma to_bind {St A B} P (m : M St A) (k : A -> M St B) :
  throws_only P m -> (forall a, throws_only P (k a)) -> throws_only P (bind m k).
Proof.
  intros Hm Hk w e. unfold bind. specialize (Hm w).
  destruct (m w) as [[a|e'] w1]; cbn [fst] in *.
  - apply Hk.
  - intros E. apply Hm. congruence.
Qed.

Lemma to_try {St A} P (m : M St A) (h : Thrown -> M St A) :
  (forall e, throws_only P (h e)) -> throws_only P (try_catch m h).
Proof.
  intros Hh w e. unfold try_catch.
  destruct (m w) as [[a|e'] w1]; cbn [fst].
  - discriminate.
  - apply Hh.
Qed.

Lemma nt_result {St A} (m : M St A) w :
  never_throws m -> exists a, m w = (Ok a, snd (m w)).
Proof.
  intros H. specialize (H w). destruct (m w) as [[a|e] w1]; cbn in *.
  - eauto.
  - discriminate.
Qed.

End MonadFacts.

(* ===================================================================== *)
(** * Relations that a computation respects *)
(* ===================================================================== *)

Module RespectFacts.
Import Engine MonadFacts.

Section Respects.
Variable St : Type.
Variable R : World St -> World St -> Prop.
Hypothesis R_refl : forall w, R w w.
Hypothesis R_trans : forall a b c, R a b -> R b c -> R a c.

Lemma r_ret {A} (a : A) : respects R (ret a).
Proof. intros w. apply R_refl. Qed.

Lemma r_throw {A} e : respects R (@throw St A e).
Proof. intros w. apply R_refl. Qed.

Lemma r_get : respects R (@get St).
Proof. intros w. apply R_refl. Qed.

Lemma r_Date_now : respects R (@Date_now St).
Proof. intros w. apply R_refl. Qed.

Lemma r_URL_constructor : respects R (@URL_constructor St).
Proof. intros w. apply R_refl. Qed.

Lemma r_bind {A B} (m : M St A) (k : A -> M St B) :
  respects R m -> (forall a, respects R (k a)) -> respects R (bind m k).
Proof.
  intros Hm Hk w. unfold bind. specialize (Hm w).
  destruct (m w) as [[a|e] w1]; cbn [snd] in *.
  - eapply R_trans; [exact Hm|apply Hk].
  - exact Hm.
Qed.

Lemma r_try {A} (m : M St A) (h : Thrown -> M St A) :
  respects R m -> (forall e, respects R (h e)) -> respects R (try_catch m h).
Proof.
  intros Hm Hh w. unfold try_catch. specialize (Hm w).
  destruct (m w) as [[a|e] w1]; cbn [snd] in *.
  - exact Hm.
  - eapply R_trans; [exact Hm|apply Hh].
Qed.
End Respects.

(** Goals [respects R m] by the structure of [m]; [base] closes the
    leaves. *)
Ltac respects_by refl trans base :=
  repeat (intros;
          first [ apply (@r_ret _ _ refl) | apply (@r_throw _ _ refl)
                | apply (@r_get _ _ refl) | apply (@r_Date_now _ _ refl)
                | apply (@r_URL_constructor _ _ refl)
                | apply (@r_bind _ _ trans) | apply (@r_try _ _ trans)
                | base
                | progress cbv zeta
                | match goal with
                  | |- respects _ (if ?b then _ else _) => destruct b
                  | |- respects _ (match ?x with _ => _ end) => destruct x
                  end ]).

End RespectFacts.

(* ===================================================================== *)
(** * Properties of the observation buffers *)
(* ===================================================================== *)

Module RingFacts.
Import Engine Eyes Sample MonadFacts.

Lemma lastn_short {A} n (l : list A) :
  (List.length l <= n)%nat -> lastn n l = l.
Proof.
  intros H. unfold lastn. replace (List.length l - n)%nat with O by lia.
  reflexivity.
Qed.

Lemma lastn_length {A} n (l : list A) :
  List.length (lastn n l) = Nat.min n (List.length l).
Proof. unfold lastn. rewrite length_skipn. lia. Qed.

(** [_pushRing] keeps the last [max] entries of the extended array. *)
Lemma _pushRing_lastn {A} (arr : list A) item max :
  0 <= max ->
  _pushRing arr item max = lastn (Z.to_nat max) (arr ++ [item]).
Proof.
  intros Hm. unfold _pushRing, lastn.
  destruct (Z.gtb_spec (Z.of_nat (List.length (arr ++ [item])%list)) max) as [G|G].
  - f_equal. lia.
  - replace (List.length (arr ++ [item]) - Z.to_nat max)%nat with O by lia.
    reflexivity.
Qed.

Lemma lastn_app_lastn {A} n (l m : list A) :
  lastn n (lastn n l ++ m) = lastn n (l ++ m).
Proof.
  unfold lastn. rewrite !length_app, length_skipn.
  destruct (Nat.le_gt_cases (List.length l) n) as [H|H].
  - replace (List.length l - n)%nat with O by lia. cbn [skipn].
    f_equal. lia.
  - rewrite !skipn_app, skipn_skipn, length_skipn.
    destruct (Nat.le_gt_cases (List.length m) n) as [Hm|Hm].
    + f_equal; f_equal; lia.
    + rewrite (skipn_all2 l) by lia.
      rewrite (skipn_all2 l) by lia.
      f_equal. f_equal. lia.
Qed.

(** Pushing a sequence of items one by one leaves the last [max]
    entries of the whole sequence. *)
Lemma push_all_lastn {A} (items arr : list A) max :
  0 <= max ->
  (List.length arr <= Z.to_nat max)%nat ->
  fold_left (fun a x => _pushRing a x max) items arr
  = lastn (Z.to_nat max) (arr ++ items).
Proof.
  intros Hm. revert arr. induction items as [|x items IH]; intros arr Ha.
  - cbn [fold_left]. rewrite app_nil_r. symmetry. apply lastn_short, Ha.
  - cbn [fold_left]. rewrite IH.
    + rewrite _pushRing_lastn by exact Hm.
      rewrite lastn_app_lastn, <- app_assoc. reflexivity.
    + rewrite _pushRing_lastn by exact Hm. rewrite lastn_length. lia.
Qed.

Lemma console_recs_cons ts ev evs :
  console_recs ts (ev :: evs) = (console_recs ts [ev] ++ console_recs ts evs)%list.
Proof. unfold console_recs. cbn [flat_map]. rewrite app_nil_r. reflexivity. Qed.

Lemma network_recs_cons ts ev evs :
  network_recs ts (ev :: evs) = (network_recs ts [ev] ++ network_recs ts evs)%list.
Proof. unfold network_recs. cbn [flat_map]. rewrite app_nil_r. reflexivity. Qed.

(** One handler: the record is pushed on its ring, the clock stands
    still. *)
Lemma handle_pushes (ev : PageEvent) (w : World AgentEyes) :
  let w' := snd (handle ev w) in
  fst (handle ev w) = Ok tt
  /\ now w' = now w
  /\ _console (state w')
     = fold_left (fun a x => _pushRing a x 500) (console_recs (now w) [ev])
                 (_console (state w))
  /\ _network (state w')
     = fold_left (fun a x => _pushRing a x 1000) (network_recs (now w) [ev])
                 (_network (state w)).
Proof.
  destruct ev as [ty tx | url method [| | [st|]] | url method]; cbn; auto.
  destruct (Z.eqb_spec st 0) as [->|]; auto.
Qed.

(** What the delivery of page events does to the session: each record
    is pushed on its ring, and nothing else of the session changes. *)
Lemma deliver_pushes (evs : list PageEvent) (w : World AgentEyes) :
  let w' := snd (deliver evs w) in
  fst (deliver evs w) = Ok tt
  /\ now w' = now w
  /\ _console (state w')
     = fold_left (fun a x => _pushRing a x 500) (console_recs (now w) evs)
                 (_console (state w))
  /\ _network (state w')
     = fold_left (fun a x => _pushRing a x 1000) (network_recs (now w) evs)
                 (_network (state w)).
Proof.
  revert w. induction evs as [|ev evs IH]; intros w.
  - cbn. auto.
  - destruct (handle_pushes ev w) as (H1 & H2 & H3 & H4).
    cbn [deliver]. cbv zeta. erewrite bind_ok by exact H1.
    destruct (IH (snd (handle ev w))) as (I1 & I2 & I3 & I4).
    rewrite I1, I2, I3, I4, H2, H3, H4.
    rewrite (console_recs_cons _ ev evs), (network_recs_cons _ ev evs).
    rewrite !fold_left_app. auto.
Qed.

(** C5: however many console and network events the page reports, the
    two rings stay within their capacities (500 and 1000) and hold the
    most recent records in the order of their arrival; 600 console
    records leave the last 500 of them. *)
Theorem rings_bounded_and_ordered (evs : list PageEvent) (w : World AgentEyes) :
  (List.length (_console (state w)) <= 500)%nat ->
  (List.length (_network (state w)) <= 1000)%nat ->
  let w' := snd (deliver evs w) in
  (List.length (_console (state w')) <= 500)%nat
  /\ (List.length (_network (state w')) <= 1000)%nat
  /\ _console (state w')
     = lastn 500 (_console (state w) ++ console_recs (now w) evs)
  /\ _network (state w')
     = lastn 1000 (_network (state w) ++ network_recs (now w) evs)
  /\ (_console (state w) = [] ->
      List.length (console_recs (now w) evs) = 600%nat ->
      _console (state w') = skipn 100 (console_recs (now w) evs)
      /\ List.length (_console (state w')) = 500%nat).
Proof.
  intros Hc Hn w'.
  destruct (deliver_pushes evs w) as (_ & _ & Ec & En). fold w' in Ec, En.
  rewrite (@push_all_lastn _ _ _ 500) in Ec by (cbn; lia).
  rewrite (@push_all_lastn _ _ _ 1000) in En by (cbn; lia).
  change (Z.to_nat 500) with 500%nat in Ec.
  change (Z.to_nat 1000) with 1000%nat in En.
  rewrite Ec, En, !lastn_length.
  split; [lia|]. split; [lia|]. split; [reflexivity|]. split; [reflexivity|].
  intros E L. rewrite E. cbn [app]. unfold lastn. rewrite L.
  split; reflexivity.
Qed.

Lemma rings_bounded_and_ordered_witness :
  let w' := snd (deliver messages fresh) in
  (List.length (_console (state w')) <= 500)%nat
  /\ (List.length (_network (state w')) <= 1000)%nat
  /\ _console (state w')
     = lastn 500 (_console (state fresh) ++ console_recs (now fresh) messages)
  /\ _network (state w')
     = lastn 1000 (_network (state fresh) ++ network_recs (now fresh) messages)
  /\ (_console (state fresh) = [] ->
      List.length (console_recs (now fresh) messages) = 600%nat ->
      _console (state w') = skipn 100 (console_recs (now fresh) messages)
      /\ List.length (_console (state w')) = 500%nat).
Proof.
  apply (@rings_bounded_and_ordered messages fresh); cbn; lia.
Defined.

End RingFacts.


(* ===================================================================== *)
(** * Properties of the session life cycle *)
(* ===================================================================== *)

Module LifecycleFacts.
Import Engine Eyes Sample MonadFacts.
Local Open Scope eyes_scope.

Lemma close_never_throws : never_throws close.
Proof.
  unfold close.
  apply nt_bind; [apply nt_modify|]. intros _.
  apply nt_bind; [apply nt_get|]. intros s.
  repeat (apply nt_bind; [|intros _]);
    try (destruct (page s)); try (destruct (context s)); try (destruct (browser s));
    try apply nt_ret; try apply nt_modify;
    apply nt_try; intros e; apply nt_ret.
Qed.

Lemma close_clears (w : World AgentEyes) :
  let s := state (snd (close w)) in
  browser s = false /\ context s = false /\ page s = false
  /\ _frameInterval s = false.
Proof.
  unfold close, bind, modify, get, try_catch, call, ret. cbn.
  destruct (page (state w)), (context (state w)), (browser (state w)); cbn;
    repeat match goal with
           | |- context [match answer ?o with _ => _ end] => destruct (answer o); cbn
           end; auto.
Qed.

(** On a session without engine handles and without timer, [close]
    changes nothing at all. *)
Lemma close_noop (w : World AgentEyes) :
  browser (state w) = false -> context (state w) = false ->
  page (state w) = false -> _frameInterval (state w) = false ->
  close w = (Ok tt, w).
Proof.
  intros Hb Hc Hp Hf.
  unfold close, bind, modify, get, ret. cbn. rewrite Hp, Hc, Hb. cbn.
  destruct w as [s en rn nw lg url]. cbn in *.
  destruct s as [o b c p f co ne me tr]. cbn in *. subst. reflexivity.
Qed.

(** C8: closing a session that was never opened does nothing and does
    not throw, closing never throws and closing twice is closing once;
    on a session whose page handle is absent (never opened, or closed)
    every action fails at once with the [Internal] error
    ['Eyes not opened'], before it touches anything. *)
Theorem unopened_session_fails_fast (w : World AgentEyes) :
  page (state w) = false ->
  (forall o en rn nw lg url,
     close (mkWorld (constructor o) en rn nw lg url)
     = (Ok tt, mkWorld (constructor o) en rn nw lg url))
  /\ (forall w0 : World AgentEyes, fst (close w0) = Ok tt)
  /\ (forall w0 : World AgentEyes,
        page (state (snd (close w0))) = false
        /\ close (snd (close w0)) = (Ok tt, snd (close w0)))
  /\ (let not_open := InternalError "Eyes not opened" None None in
      forall args,
        navigate args w = (Throw not_open, w)
        /\ click args w = (Throw not_open, w)
        /\ type args w = (Throw not_open, w)
        /\ wait args w = (Throw not_open, w)
        /\ scroll args w = (Throw not_open, w)
        /\ keys args w = (Throw not_open, w)
        /\ exec args w = (Throw not_open, w)
        /\ setContent args w = (Throw not_open, w)
        /\ (forall sargs, screenshot sargs w = (Throw not_open, w))
        /\ (forall opts, dom opts w = (Throw not_open, w))
        /\ state_ w = (Throw not_open, w)).
Proof.
  intros Hp. split; [|split; [|split]].
  - intros. apply close_noop; reflexivity.
  - intros w0. pose proof (close_never_throws w0) as H.
    destruct (fst (close w0)) as [[]|e]; [reflexivity|discriminate].
  - intros w0. destruct (close_clears w0) as (Hb & Hc & Hp0 & Hf).
    split; [exact Hp0|]. apply close_noop; assumption.
  - intros not_open args.
    repeat split; intros;
      cbv beta iota zeta delta
        [navigate click type wait scroll keys exec setContent
         screenshot dom state_ bind Date_now _requirePage get throw];
      rewrite Hp; reflexivity.
Qed.

Lemma unopened_session_fails_fast_witness :
  (forall o en rn nw lg url,
     close (mkWorld (constructor o) en rn nw lg url)
     = (Ok tt, mkWorld (constructor o) en rn nw lg url))
  /\ (forall w0 : World AgentEyes, fst (close w0) = Ok tt)
  /\ (forall w0 : World AgentEyes,
        page (state (snd (close w0))) = false
        /\ close (snd (close w0)) = (Ok tt, snd (close w0)))
  /\ (let not_open := InternalError "Eyes not opened" None None in
      forall args,
        navigate args fresh = (Throw not_open, fresh)
        /\ click args fresh = (Throw not_open, fresh)
        /\ type args fresh = (Throw not_open, fresh)
        /\ wait args fresh = (Throw not_open, fresh)
        /\ scroll args fresh = (Throw not_open, fresh)
        /\ keys args fresh = (Throw not_open, fresh)
        /\ exec args fresh = (Throw not_open, fresh)
        /\ setContent args fresh = (Throw not_open, fresh)
        /\ (forall sargs, screenshot sargs fresh = (Throw not_open, fresh))
        /\ (forall opts, dom opts fresh = (Throw not_open, fresh))
        /\ state_ fresh = (Throw not_open, fresh)).
Proof. apply (@unopened_session_fails_fast fresh). reflexivity. Defined.

End LifecycleFacts.


(* ===================================================================== *)
(** * Properties of the runner: validation and the final report *)
(* ===================================================================== *)

Module RunFacts.
Import Engine Eyes Runner Sample Plans MonadFacts.
Local Open Scope eyes_scope.

(** C7: a plan without an array of steps, or with more than 50 steps,
    is refused with [BAD_INPUT] in the world in which [run] was called:
    no engine call, no emitted event, no change of the session. *)
Theorem run_rejects_invalid_plan (plan : option Plan) (w : World AgentEyes) :
  invalid_plan plan ->
  exists message,
    run plan w = (Throw (EyesError BAD_INPUT message None None), w).
Proof.
  unfold invalid_plan, run. intros H.
  destruct plan as [p|]; [|eexists; reflexivity].
  destruct (steps p) as [l|]; [|eexists; reflexivity].
  destruct (Z.gtb_spec (Z.of_nat (List.length l)) 50); [|lia].
  eexists; reflexivity.
Qed.

Lemma run_rejects_invalid_plan_witness :
  exists message,
    run (Some long_plan) opened
    = (Throw (EyesError BAD_INPUT message None None), opened).
Proof.
  apply (@run_rejects_invalid_plan (Some long_plan) opened).
  unfold invalid_plan, long_plan. cbn [steps]. rewrite repeat_length. lia.
Defined.

(** The claim C1 as it is written fails on a plan of 51 steps: [run]
    throws, and there is no report. *)
Lemma run_throws_on_long_plan :
  run (Some long_plan) opened
  = (Throw (BadInputError "Too many steps (>50)" None None), opened)
  /\ ~ (exists report w', run (Some long_plan) opened = (Ok report, w')).
Proof.
  split; [reflexivity|].
  intros (report & w' & H). vm_compute in H. discriminate.
Qed.

(** The loop over the steps catches whatever a step throws. *)
Lemma step_loop_never_throws plan started l lastError :
  never_throws (step_loop plan started l lastError).
Proof.
  revert lastError. induction l as [|step l IH]; intros lastError.
  - apply nt_ret.
  - cbn [step_loop]. apply nt_bind.
    + apply nt_try. intros e. apply nt_ret.
    + intros failure.
      destruct (andb _ _); [apply nt_ret|].
      apply nt_bind; [apply nt_Date_now|]. intros t.
      destruct (match maxDurationMs plan with Some _ => _ | None => _ end);
        [apply nt_ret|apply IH].
Qed.

(** One round of the loop of [run]. *)
Lemma step_loop_cons p started step rest le w :
  step_loop p started (step :: rest) le w
  = match _execute step w with
    | (Ok _, w1) =>
        if over_budget p started w1 then (Ok le, w1)
        else step_loop p started rest le w1
    | (Throw e, w1) =>
        if Security.not_false (abortOnError p) then (Ok (Some e), w1)
        else if over_budget p started w1 then (Ok (Some e), w1)
        else step_loop p started rest (Some e) w1
    end.
Proof.
  cbn [step_loop]. unfold bind, try_catch, ret, Date_now, over_budget.
  destruct (_execute step w) as [[[]|e] w1]; cbn [andb].
  - destruct (maxDurationMs p) as [d|]; [|reflexivity].
    destruct (andb _ _); reflexivity.
  - destruct (Security.not_false (abortOnError p)); [reflexivity|].
    destruct (maxDurationMs p) as [d|]; [|reflexivity].
    destruct (andb _ _); reflexivity.
Qed.

(** What [run] returns on a plan that passes validation, from the
    result of its loop. *)
Lemma run_loop_report p l w :
  steps p = Some l ->
  (List.length l <= 50)%nat ->
  exists lastError report w',
    fst (step_loop p (now w) l None (snd (Math_random w))) = Ok lastError
    /\ run (Some p) w = (Ok report, w')
    /\ success report = match lastError with Some _ => false | None => true end
    /\ error report = option_map _errorInfo lastError.
Proof.
  intros Hs Hl. unfold run. rewrite Hs. cbv zeta.
  destruct (Z.gtb_spec (Z.of_nat (List.length l)) 50); [lia|].
  unfold bind at 1. unfold Date_now at 1. cbv beta iota.
  unfold bind at 1.
  destruct (nt_result w (@nt_Math_random AgentEyes)) as [u Hu].
  rewrite Hu. cbn [fst snd].
  set (w0 := snd (Math_random w)).
  unfold bind at 1.
  destruct (nt_result w0 (step_loop_never_throws p (now w) l None))
    as [le Hle].
  rewrite Hle. cbn [fst snd].
  set (w1 := snd (step_loop p (now w) l None w0)).
  unfold bind, try_catch, ret.
  destruct (screenshot _ w1) as [[s|e1] w2]; cbn [fst snd];
    destruct (dom _ w2) as [[d|e2] w3]; cbn [fst snd];
    destruct (state_ w3) as [[t|e3] w4]; cbn [fst snd];
    (exists le; eexists; eexists; repeat (split; [reflexivity|]); reflexivity).
Qed.

Lemma fold_failure rs : forall acc,
  fold_left (fun acc (sr : Step * Result unit) =>
               match snd sr with
               | Throw e => Some e
               | Ok _ => acc
               end) rs acc
  = match last_failure rs with
    | Some e => Some e
    | None => acc
    end.
Proof.
  unfold last_failure.
  induction rs as [|[s [[]|e]] rs IH]; intros acc; cbn [fold_left snd].
  - reflexivity.
  - apply IH.
  - rewrite (IH (Some e)), (IH None).
    destruct (fold_left _ rs None); reflexivity.
Qed.

(** The world in which [run] ends: the one after the three
    collections that follow the loop. *)
Lemma run_final_world p l w :
  steps p = Some l ->
  (List.length l <= 50)%nat ->
  let loop := step_loop p (now w) l None (snd (Math_random w)) in
  let shot := screenshot (mkShotArgs None (Some "webp") (Some 60)) (snd loop) in
  let snip := dom (Artifacts.mkDomOpts (Some 3) (Some true)) (snd shot) in
  snd (run (Some p) w) = snd (state_ (snd snip)).
Proof.
  intros Hs Hl. cbv zeta. unfold run. rewrite Hs.
  destruct (Z.gtb_spec (Z.of_nat (List.length l)) 50); [lia|].
  unfold bind at 1. unfold Date_now at 1. cbv beta iota.
  unfold bind at 1.
  destruct (nt_result w (@nt_Math_random AgentEyes)) as [u Hu].
  rewrite Hu. cbn [fst snd].
  set (w0 := snd (Math_random w)).
  unfold bind at 1.
  destruct (nt_result w0 (step_loop_never_throws p (now w) l None))
    as [le Hle].
  rewrite Hle. cbn [fst snd].
  set (w1 := snd (step_loop p (now w) l None w0)).
  unfold bind, try_catch, ret.
  destruct (screenshot _ w1) as [[s|e1] w2]; cbn [fst snd];
    destruct (dom _ w2) as [[d|e2] w3]; cbn [fst snd];
    destruct (state_ w3) as [[t|e3] w4]; reflexivity.
Qed.

(** The loop records the last failure among the steps that it carries
    out, and ends in the world after the last of them. *)
Lemma step_loop_carried_out p started l :
  forall le w,
    step_loop p started l le w
    = (Ok (match last_failure (fst (carried_out p started l w)) with
           | Some e => Some e
           | None => le
           end),
       snd (carried_out p started l w)).
Proof.
  induction l as [|step l IH]; intros le w.
  - reflexivity.
  - rewrite step_loop_cons. cbn [carried_out]. cbv zeta.
    destruct (_execute step w) as [[[]|e] w1]; cbn [fst snd is_ok negb andb orb].
    + destruct (over_budget p started w1); [reflexivity|].
      rewrite IH. cbn [fst snd]. unfold last_failure at 2. cbn [fold_left snd].
      reflexivity.
    + destruct (Security.not_false (abortOnError p)); cbn [orb]; [reflexivity|].
      destruct (over_budget p started w1); [reflexivity|].
      rewrite IH. cbn [fst snd]. unfold last_failure at 2. cbn [fold_left snd].
      rewrite fold_failure.
      destruct (last_failure (fst (carried_out p started l w1))); reflexivity.
Qed.

Lemma last_failure_none rs : last_failure rs = None <-> all_returned rs.
Proof.
  unfold last_failure, all_returned.
  assert (G : forall acc,
             fold_left (fun acc sr => match snd sr with
                                      | Throw e => Some e
                                      | Ok _ => acc
                                      end) rs acc = None
             <-> acc = None /\ forall step (r : Result unit), In (step, r) rs -> is_ok r = true).
  { induction rs as [|[s [[]|e]] rs IH]; intros acc; cbn [fold_left snd In].
    - split; [intros ->; split; [reflexivity|intros ? ? []]|intros [H _]; exact H].
    - rewrite IH. split; intros [H1 H2]; (split; [exact H1|]).
      + intros step r [E|H]; [injection E as _ <-; reflexivity|eauto].
      + intros step r H. apply (H2 step r). right. exact H.
    - rewrite IH. split; intros [H1 H2]; [discriminate|].
      specialize (H2 s (Throw e) (or_introl eq_refl)). discriminate. }
  rewrite G. split; [intros [_ H]; exact H|intros H; split; [reflexivity|exact H]].
Qed.

(** A plan that fails validation makes [run] throw. *)
Lemma invalid_plan_throws (plan : option Plan) (w : World AgentEyes) :
  invalid_plan plan ->
  exists message,
    run plan w = (Throw (EyesError BAD_INPUT message None None), w).
Proof.
  unfold invalid_plan, run. intros H.
  destruct plan as [p|]; [|eexists; reflexivity].
  destruct (steps p) as [l|]; [|eexists; reflexivity].
  destruct (Z.gtb_spec (Z.of_nat (List.length l)) 50); [|lia].
  eexists; reflexivity.
Qed.

(** C1, amended: on a plan that passes validation [run] returns a
    report and does not throw.  Every failure of a step is in the
    report: it says [success] exactly when no step that was carried
    out has failed, and it carries the error information of the last
    step that failed otherwise.  Its artifacts are what the three
    best-effort collections give after the last step ([null] or [{}]
    for the ones that fail).  A plan that fails validation is not
    reported this way: [run] throws [BAD_INPUT] for it. *)
Theorem run_reports_on_valid_plan (p : Plan) (l : list Step) (w : World AgentEyes) :
  steps p = Some l ->
  (List.length l <= 50)%nat ->
  let rnd := Math_random w in
  let done := carried_out p (now w) l (snd rnd) in
  let shot := screenshot (mkShotArgs None (Some "webp") (Some 60)) (snd done) in
  let snip := dom (Artifacts.mkDomOpts (Some 3) (Some true)) (snd shot) in
  let st := state_ (snd snip) in
  (forall plan' (w' : World AgentEyes),
     invalid_plan plan' ->
     exists message,
       run plan' w' = (Throw (EyesError BAD_INPUT message None None), w'))
  /\ exists u report,
    fst rnd = Ok u
    /\ run (Some p) w = (Ok report, snd st)
    /\ (success report = true <-> all_returned (fst done))
    /\ (forall step e, In (step, Throw e) (fst done) ->
          success report = false /\ exists info, error report = Some info)
    /\ error report = option_map _errorInfo (last_failure (fst done))
    /\ (success report = true <-> error report = None)
    /\ artifact_screenshot report = or_null (fst shot)
    /\ artifact_domSnippet report
       = match fst snip with Ok d => d | Throw _ => None end
    /\ lastState report = or_null (fst st)
    /\ traceId report = (now w, u).
Proof.
  intros Hs Hl. cbv zeta.
  split; [intros plan' w' Hi; apply invalid_plan_throws, Hi|].
  unfold run. rewrite Hs.
  destruct (Z.gtb_spec (Z.of_nat (List.length l)) 50); [lia|].
  unfold bind at 1. unfold Date_now at 1. cbv beta iota.
  unfold bind at 1.
  destruct (nt_result w (@nt_Math_random AgentEyes)) as [u Hu].
  rewrite Hu. cbn [fst snd].
  set (w0 := snd (Math_random w)).
  unfold bind at 1.
  rewrite (step_loop_carried_out p (now w) l None w0).
  set (rs := fst (carried_out p (now w) l w0)).
  set (w1 := snd (carried_out p (now w) l w0)).
  assert (Hle : match last_failure rs with Some e => Some e | None => None end
                = last_failure rs) by (destruct (last_failure rs); reflexivity).
  rewrite Hle.
  pose proof (last_failure_none rs) as Hnone.
  set (lf := last_failure rs) in *.
  assert (A1 : match lf with Some _ => false | None => true end = true
               <-> all_returned rs).
  { destruct lf as [e|].
    - split; [discriminate|]. intros Hall. apply Hnone in Hall. discriminate.
    - split; [intros _; apply Hnone; reflexivity|reflexivity]. }
  assert (A2 : forall step e, In (step, Throw e) rs ->
               match lf with Some _ => false | None => true end = false
               /\ exists info, option_map _errorInfo lf = Some info).
  { intros step e Hin. destruct lf as [e'|].
    - split; [reflexivity|]. eexists. reflexivity.
    - destruct Hnone as [Hn _]. specialize (Hn eq_refl step (Throw e) Hin).
      discriminate. }
  assert (A3 : match lf with Some _ => false | None => true end = true
               <-> option_map _errorInfo lf = None).
  { destruct lf; cbn; split; congruence. }
  unfold bind, try_catch, ret.
  destruct (screenshot _ w1) as [[s|e1] w2]; cbn [fst snd];
    destruct (dom _ w2) as [[d|e2] w3]; cbn [fst snd];
    destruct (state_ w3) as [[t|e3] w4]; cbn [fst snd];
    (exists u; eexists; split; [reflexivity|]; split; [reflexivity|];
     cbn [success error artifact_screenshot artifact_domSnippet lastState traceId or_null];
     split; [exact A1|]; split; [exact A2|]; split; [reflexivity|];
     split; [exact A3|]; repeat split; reflexivity).
Qed.

Lemma run_reports_on_valid_plan_witness :
  let p := mkPlan "press, then hover" (Some [press_enter; hover]) None None in
  let rnd := Math_random opened in
  let done := carried_out p (now opened) [press_enter; hover] (snd rnd) in
  let shot := screenshot (mkShotArgs None (Some "webp") (Some 60)) (snd done) in
  let snip := dom (Artifacts.mkDomOpts (Some 3) (Some true)) (snd shot) in
  let st := state_ (snd snip) in
  (forall plan' (w' : World AgentEyes),
     invalid_plan plan' ->
     exists message,
       run plan' w' = (Throw (EyesError BAD_INPUT message None None), w'))
  /\ exists u report,
    fst rnd = Ok u
    /\ run (Some p) opened = (Ok report, snd st)
    /\ (success report = true <-> all_returned (fst done))
    /\ (forall step e, In (step, Throw e) (fst done) ->
          success report = false /\ exists info, error report = Some info)
    /\ error report = option_map _errorInfo (last_failure (fst done))
    /\ (success report = true <-> error report = None)
    /\ artifact_screenshot report = or_null (fst shot)
    /\ artifact_domSnippet report
       = match fst snip with Ok d => d | Throw _ => None end
    /\ lastState report = or_null (fst st)
    /\ traceId report = (now opened, u).
Proof.
  apply (@run_reports_on_valid_plan
           (mkPlan "press, then hover" (Some [press_enter; hover]) None None)
           [press_enter; hover] opened).
  - reflexivity.
  - cbn. lia.
Defined.

End RunFacts.


(* ===================================================================== *)
(** * Properties of the actions: metrics and argument checks *)
(* ===================================================================== *)

Module ActionFacts.
Import Engine Eyes Runner Sample Notions MonadFacts RespectFacts.
Local Open Scope eyes_scope.

Lemma sm_refl w : same_metrics w w.
Proof. reflexivity. Qed.

Lemma sm_trans a b c : same_metrics a b -> same_metrics b c -> same_metrics a c.
Proof. unfold same_metrics. congruence. Qed.

Lemma sm_call c : respects same_metrics (call c).
Proof. intros w. unfold call. destruct (answer _); reflexivity. Qed.

Lemma sm_tell e : respects same_metrics (tell e).
Proof. intros w. reflexivity. Qed.

Lemma sm_traceStream b : respects same_metrics (modify (with_traceStream b)).
Proof. intros w. reflexivity. Qed.

Ltac sm_base :=
  first [ apply sm_call | apply sm_tell | apply sm_traceStream ].

Ltac sm := respects_by sm_refl sm_trans sm_base.

Lemma sm_requirePage : respects same_metrics _requirePage.
Proof. unfold _requirePage. sm. Qed.

Lemma sm_microIdle : respects same_metrics _microIdle.
Proof. unfold _microIdle. sm. Qed.

Lemma sm_trace ev start ok err : respects same_metrics (_trace ev start ok err).
Proof. unfold _trace. sm. Qed.

Lemma sm_suggestSelectors sel : respects same_metrics (_suggestSelectors sel).
Proof. unfold _suggestSelectors. sm. Qed.

Lemma nt_trace ev start ok err : never_throws (_trace ev start ok err).
Proof.
  unfold _trace. apply nt_bind; [apply nt_get|]. intros s.
  destruct (negb _); [apply nt_ret|].
  apply nt_bind; [apply nt_modify|]. intros _.
  apply nt_bind; [apply nt_Date_now|]. intros t. apply nt_tell.
Qed.

Lemma nt_microIdle : never_throws _microIdle.
Proof. unfold _microIdle. apply nt_try. intros e. apply nt_ret. Qed.

(** Goals [never_throws m] and [always_throws m] by the structure of
    [m]. *)
Ltac nt :=
  repeat (intros;
          first [ apply nt_ret | apply nt_get | apply nt_Date_now | apply nt_tell
                | apply nt_modify | apply nt_trace | apply nt_microIdle
                | apply nt_try | apply nt_bind
                | progress cbv zeta
                | match goal with
                  | |- never_throws (if ?b then _ else _) => destruct b
                  | |- never_throws (match ?x with _ => _ end) => destruct x
                  end ]).

Ltac at_ :=
  repeat (intros;
          first [ apply at_throw
                | apply at_bind; [solve [nt]|]
                | progress cbv zeta ]).

Lemma bind_Date_now {A} (k : Z -> E A) w : bind Date_now k w = k (now w) w.
Proof. reflexivity. Qed.

Lemma requirePage_open w : page (state w) = true -> _requirePage w = (Ok tt, w).
Proof. intros H. unfold _requirePage, bind, get. rewrite H. reflexivity. Qed.

Lemma bind_requirePage {A} (k : unit -> E A) w :
  page (state w) = true -> bind _requirePage k w = k tt w.
Proof. intros H. unfold bind. rewrite (requirePage_open w H). reflexivity. Qed.

Lemma bind_requirePage_closed {A} (k : unit -> E A) w :
  page (state w) = false ->
  bind _requirePage k w = (Throw (InternalError "Eyes not opened" None None), w).
Proof.
  intros H. cbv beta iota delta [bind _requirePage get]. rewrite H. reflexivity.
Qed.

Lemma counts_afterAction action start : counts start (_afterAction action start).
Proof. intros w. reflexivity. Qed.

Lemma counts_afterAction_ret {A} action start (r : A) :
  counts start (_afterAction action start ;;; ret r).
Proof. intros w. reflexivity. Qed.

Lemma counts_bind {A B} start (m : E A) (k : A -> E B) :
  respects same_metrics m -> (forall a, counts start (k a)) ->
  counts start (bind m k).
Proof.
  intros Hm Hk w. unfold bind. specialize (Hm w).
  destruct (m w) as [[a|e] w1]; cbn [fst snd] in *.
  - specialize (Hk a w1). unfold counted, same_metrics in *.
    destruct (fst (k a w1)); rewrite Hk, ?Hm; reflexivity.
  - exact Hm.
Qed.

Lemma fails_counted_intro {A} (r : E A) :
  respects same_metrics r -> always_throws r ->
  fails_counted (errors_incr ;;; r).
Proof.
  intros Hr Ht w. unfold bind, errors_incr, modify. cbn [fst snd].
  match goal with |- context [r ?w1] => specialize (Hr w1); specialize (Ht w1);
                                         destruct (r w1) as [[a|e] w2] end;
    cbn [fst snd is_ok] in *; [discriminate|].
  split; [reflexivity|]. unfold errored, same_metrics in *. rewrite Hr. reflexivity.
Qed.

Lemma once_try {A} start (body : E A) (h : Thrown -> E A) :
  counts start body -> (forall e, fails_counted (h e)) ->
  once start (try_catch body h).
Proof.
  intros Hb Hh w. unfold once_at, try_catch. specialize (Hb w).
  destruct (body w) as [[a|e] w1]; cbn [fst snd] in *.
  - exact Hb.
  - destruct (Hh e w1) as [Ht He].
    destruct (h e w1) as [[a|e'] w2]; cbn [fst snd is_ok] in *; [discriminate|].
    unfold errored, same_metrics in *. rewrite He, Hb. reflexivity.
Qed.

Ltac counts_by :=
  repeat (intros;
          first [ apply counts_afterAction | apply counts_afterAction_ret
                | apply counts_bind; [solve [sm]|]
                | progress cbv zeta ]).

Ltac once_by :=
  apply once_try;
  [ counts_by
  | intros; apply fails_counted_intro; [solve [sm] | solve [at_]] ].

(** The shape of an action whose checks all sit inside its [try]
    block. *)
Ltac action_once Hp :=
  unfold once_at; rewrite bind_Date_now, bind_requirePage by exact Hp;
  cbv zeta;
  match goal with
  | |- context [try_catch ?b ?h ?w] =>
      let H := fresh in
      assert (H : once (now w) (try_catch b h)) by once_by; exact (H w)
  end.

Lemma wait_once args w :
  page (state w) = true -> once_at (now w) (wait args) w.
Proof. intros Hp. unfold wait. action_once Hp. Qed.

Lemma click_once args w :
  page (state w) = true -> once_at (now w) (click args) w.
Proof. intros Hp. unfold click. action_once Hp. Qed.

Lemma scroll_once args w :
  page (state w) = true -> once_at (now w) (scroll args) w.
Proof. intros Hp. unfold scroll. action_once Hp. Qed.

Lemma keys_once args w :
  page (state w) = true -> once_at (now w) (keys args) w.
Proof. intros Hp. unfold keys. action_once Hp. Qed.

Lemma exec_once args w :
  page (state w) = true -> once_at (now w) (exec args) w.
Proof. intros Hp. unfold exec. action_once Hp. Qed.

Lemma bind_get {A} (k : AgentEyes -> E A) w : bind get k w = k (state w) w.
Proof. reflexivity. Qed.

Lemma bind_URL_constructor {A} (k : (string -> option Security.URL) -> E A) w :
  bind URL_constructor k w = k (new_URL w) w.
Proof. reflexivity. Qed.

Lemma navigate_updates args w :
  page (state w) = true ->
  if refused_early "navigate" args w
  then exists e, navigate args w = (Throw e, w)
  else once_at (now w) (navigate args) w.
Proof.
  intros Hp. unfold refused_early. cbn [String.eqb Ascii.eqb Bool.eqb].
  unfold navigate, once_at.
  rewrite bind_Date_now, bind_requirePage by exact Hp.
  destruct (truthy (a_url args)); cbn [negb orb]; [|eexists; reflexivity].
  rewrite bind_get, bind_URL_constructor.
  destruct (Security.guardNavigation _ _ _) as [e|url]; [eexists; reflexivity|].
  cbv zeta.
  match goal with
  | |- context [try_catch ?b ?h ?w] =>
      let H := fresh in
      assert (H : once (now w) (try_catch b h)) by once_by; exact (H w)
  end.
Qed.

Lemma type_updates args w :
  page (state w) = true ->
  if refused_early "type" args w
  then exists e, type args w = (Throw e, w)
  else once_at (now w) (type args) w.
Proof.
  intros Hp. unfold refused_early. cbn [String.eqb Ascii.eqb Bool.eqb].
  unfold type, once_at.
  rewrite bind_Date_now, bind_requirePage by exact Hp.
  destruct (truthy (a_selector args)); cbn [negb]; [|eexists; reflexivity].
  cbv zeta.
  match goal with
  | |- context [try_catch ?b ?h ?w] =>
      let H := fresh in
      assert (H : once (now w) (try_catch b h)) by once_by; exact (H w)
  end.
Qed.

Lemma once_at_then_ret {A} start (m : E A) w :
  once_at start m w -> once_at start (m ;;; ret tt) w.
Proof.
  unfold once_at, bind, ret. destruct (m w) as [[a|e] w1]; cbn [fst snd]; auto.
Qed.

(** [metrics()] reports the action count, the rounded mean duration and
    the quotient of errors by actions, and zeros before the first
    completed action. *)
Lemma metrics_report (s : AgentEyes) :
  let m := _metrics s in
  r_actions (metrics s) = actions m
  /\ (actions m = 0 ->
      errorRate (metrics s) = 0%Q /\ avgDurationMs (metrics s) = 0)
  /\ (actions m <> 0 ->
      errorRate (metrics s) = (inject_Z (errors m) / inject_Z (actions m))%Q
      /\ avgDurationMs (metrics s)
         = Math_round (inject_Z (totalDurationMs m) / inject_Z (actions m))%Q).
Proof.
  cbv zeta. unfold metrics. cbn [r_actions errorRate avgDurationMs].
  destruct (Z.eqb_spec (actions (_metrics s)) 0) as [E|E].
  - split; [reflexivity|]. split; [intros _; split; reflexivity|]. intros H. contradiction.
  - split; [reflexivity|]. split; [intros H; contradiction|]. intros _. split; reflexivity.
Qed.

(** The claim C3 as it is written fails for [type] without a selector
    on an open session: the call is refused, and neither the action
    count nor the error count moves. *)
Lemma type_without_selector_not_counted :
  fst (type noArgs opened) = Throw (BadInputError "type.selector is required" None None)
  /\ _metrics (state (snd (type noArgs opened))) = _metrics (state opened)
  /\ ~ once_at (now opened) (type noArgs) opened.
Proof.
  split; [reflexivity|]. split; [reflexivity|].
  unfold once_at. cbn. unfold errored. cbn. discriminate.
Qed.

(** C3, amended: on an open session an invocation of one of the seven
    actions that gets as far as its [try] block updates the metrics
    exactly once: a completed action adds one to the action count and
    its duration to the total, a failed one adds one to the error count
    and leaves the action count alone.  An invocation that is refused
    before the [try] block ([navigate] without URL or refused by the
    guard, [type] without selector, unknown action) throws and leaves
    the world as it was.  [metrics()] reports the action count, the
    rounded mean duration and errors / actions, with zeros while the
    action count is 0. *)
Theorem action_updates_metrics_once (action : string) (args : Args)
    (w : World AgentEyes) :
  page (state w) = true ->
  (if refused_early action args w
   then exists e, _dispatch action args w = (Throw e, w)
   else once_at (now w) (_dispatch action args) w)
  /\ (forall s,
        let m := _metrics s in
        r_actions (metrics s) = actions m
        /\ (actions m = 0 ->
            errorRate (metrics s) = 0%Q /\ avgDurationMs (metrics s) = 0)
        /\ (actions m <> 0 ->
            errorRate (metrics s) = (inject_Z (errors m) / inject_Z (actions m))%Q
            /\ avgDurationMs (metrics s)
               = Math_round (inject_Z (totalDurationMs m) / inject_Z (actions m))%Q)).
Proof.
  intros Hp. split; [|exact metrics_report].
  unfold _dispatch, refused_early.
  destruct (String.eqb_spec action "navigate") as [->|_];
    [exact (navigate_updates args w Hp)|].
  destruct (String.eqb_spec action "click") as [->|_].
  { destruct (String.eqb_spec "click" "type"); [discriminate|]. apply click_once, Hp. }
  destruct (String.eqb_spec action "type") as [->|_];
    [exact (type_updates args w Hp)|].
  destruct (String.eqb_spec action "wait") as [->|_]; [apply wait_once, Hp|].
  destruct (String.eqb_spec action "scroll") as [->|_]; [apply scroll_once, Hp|].
  destruct (String.eqb_spec action "keys") as [->|_]; [apply keys_once, Hp|].
  destruct (String.eqb_spec action "exec") as [->|_];
    [apply once_at_then_ret, exec_once, Hp|].
  eexists; reflexivity.
Qed.

Lemma action_updates_metrics_once_witness :
  (if refused_early "click" both_args opened
   then exists e, _dispatch "click" both_args opened = (Throw e, opened)
   else once_at (now opened) (_dispatch "click" both_args) opened)
  /\ (forall s,
        let m := _metrics s in
        r_actions (metrics s) = actions m
        /\ (actions m = 0 ->
            errorRate (metrics s) = 0%Q /\ avgDurationMs (metrics s) = 0)
        /\ (actions m <> 0 ->
            errorRate (metrics s) = (inject_Z (errors m) / inject_Z (actions m))%Q
            /\ avgDurationMs (metrics s)
               = Math_round (inject_Z (totalDurationMs m) / inject_Z (actions m))%Q)).
Proof. apply (@action_updates_metrics_once "click" both_args opened). reflexivity. Defined.

(** ** [click]: selector or text *)

Lemma le_refl w : log_extends w w.
Proof. exists []. rewrite app_nil_r. reflexivity. Qed.

Lemma le_trans a b c : log_extends a b -> log_extends b c -> log_extends a c.
Proof.
  intros [l1 H1] [l2 H2]. exists (l1 ++ l2)%list.
  rewrite H2, H1, app_assoc. reflexivity.
Qed.

Lemma le_call c : respects log_extends (call c).
Proof.
  intros w. unfold call. destruct (answer _); cbn [snd served log]; eexists; reflexivity.
Qed.

Lemma le_tell e : respects log_extends (tell e).
Proof. intros w. cbn. eexists; reflexivity. Qed.

Lemma le_modify f : respects log_extends (modify f).
Proof. intros w. exists []. cbn. rewrite app_nil_r. reflexivity. Qed.

Lemma le_Math_random : respects log_extends Math_random.
Proof.
  intros w. unfold Math_random.
  destruct (random w); exists []; cbn; rewrite app_nil_r; reflexivity.
Qed.

Ltac le_base :=
  first [ apply le_call | apply le_tell | apply le_modify | apply le_Math_random ].

Ltac le := respects_by le_refl le_trans le_base.

Lemma call_accepts c n (w : World AgentEyes) :
  engine_accepts (S n) w ->
  exists v, call c w = (Ok v, served c w) /\ engine_accepts n (served c w).
Proof.
  unfold engine_accepts, call, next_outcome. intros H.
  destruct (engine w) as [|o rest] eqn:E.
  - exists VUndefined. split; [reflexivity|].
    intros o. cbn [served engine]. rewrite E. cbn. destruct n; contradiction.
  - destruct (H o) as [v Hv]; [left; reflexivity|].
    rewrite Hv. exists v. split; [reflexivity|].
    intros o' Ho'. apply H. right. cbn [served engine] in Ho'. rewrite E in Ho'. exact Ho'.
Qed.



(** When neither a selector nor a text is given, the [BadInputError]
    that the [try] block throws is caught by the same block and comes
    out as [ELEMENT_NOT_FOUND]. *)
Lemma click_without_selector_and_text :
  option_map code_of (match fst (click noArgs opened) with
                      | Ok _ => None
                      | Throw e => Some e
                      end)
  = Some (Some ELEMENT_NOT_FOUND).
Proof. reflexivity. Qed.





End ActionFacts.

(* ===================================================================== *)
(** * Properties of the runner: attempts and backoff *)
(* ===================================================================== *)

Module RetryFacts.
Import Engine Eyes Runner Sample Plans MonadFacts RespectFacts RunFacts ActionFacts.
Local Open Scope eyes_scope.

Lemma slept_app l l' : slept (l ++ l') = slept l + slept l'.
Proof.
  induction l as [|e l IH]; cbn [app slept]; [reflexivity|].
  destruct e as [c| | | |]; try exact IH.
  destruct c; try exact IH. rewrite IH. lia.
Qed.

(** ** Computations that do not sleep *)

Lemma ss_refl w : same_sleep w w.
Proof. reflexivity. Qed.

Lemma ss_trans a b c : same_sleep a b -> same_sleep b c -> same_sleep a c.
Proof. unfold same_sleep. congruence. Qed.

Lemma ss_tell e :
  match e with Called _ => False | _ => True end ->
  respects same_sleep (tell e).
Proof.
  intros H w. unfold same_sleep. cbn. rewrite slept_app.
  destruct e; cbn; try lia; contradiction.
Qed.

Lemma ss_modify f : respects same_sleep (modify f).
Proof. intros w. reflexivity. Qed.

Lemma ss_Math_random : respects same_sleep Math_random.
Proof. intros w. unfold Math_random. destruct (random w); reflexivity. Qed.

Ltac ss_base :=
  first [ apply ss_tell; exact I | apply ss_modify | apply ss_Math_random ].

Ltac ss := respects_by ss_refl ss_trans ss_base.

Lemma ss_trace ev start ok err : respects same_sleep (_trace ev start ok err).
Proof. unfold _trace. ss. Qed.

Lemma ss_afterAction action start : respects same_sleep (_afterAction action start).
Proof. unfold _afterAction. ss. Qed.

(** ** Computations that do not take back sleep *)

Lemma so_refl w : sleeps_on w w.
Proof. unfold sleeps_on. lia. Qed.

Lemma so_trans a b c : sleeps_on a b -> sleeps_on b c -> sleeps_on a c.
Proof. unfold sleeps_on. lia. Qed.

Lemma so_same (A : Type) (m : E A) : respects same_sleep m -> respects sleeps_on m.
Proof. intros H w. specialize (H w). unfold same_sleep, sleeps_on in *. lia. Qed.

Lemma so_call c :
  match c with WaitForTimeout ms => 0 <= ms | _ => True end ->
  respects sleeps_on (call c).
Proof.
  intros H w. unfold sleeps_on, call.
  destruct (answer _); cbn [snd served log]; rewrite slept_app;
    destruct c; cbn; lia.
Qed.

Ltac so_base :=
  first [ apply so_call; first [exact I | cbn; lia]
        | apply so_same; first [ apply ss_trace | apply ss_afterAction
                               | apply ss_modify | apply ss_Math_random
                               | apply ss_tell; exact I ] ].

Ltac so := respects_by so_refl so_trans so_base.

Lemma click_sleeps_on args : respects sleeps_on (click args).
Proof. unfold click. so. Qed.

Lemma wait_selector_sleeps_on args :
  str_is (a_for args) "selector" = true -> respects sleeps_on (wait args).
Proof.
  intros H. unfold wait.
  destruct (str_is (a_for args) "selector"); [|discriminate]. so.
Qed.

Lemma fragile_dispatch_sleeps_on action args :
  fragile action args = true -> respects sleeps_on (_dispatch action args).
Proof.
  unfold fragile, _dispatch. intros H.
  destruct (String.eqb_spec action "click") as [->|_].
  - cbn. apply click_sleeps_on.
  - cbn [orb] in H.
    destruct (String.eqb_spec action "wait") as [->|_]; [|discriminate].
    cbn [andb] in H. cbn. apply wait_selector_sleeps_on, H.
Qed.

(** ** The backoff *)

Lemma Math_random_draw (w w' : World AgentEyes) u :
  Math_random w = (Ok u, w') -> 0 <= u < 2 ^ 53 /\ log w' = log w.
Proof.
  unfold Math_random. destruct (random w) as [|r rest]; intros H;
    injection H as <- <-; cbn [log]; split; try reflexivity.
  - lia.
  - apply Z.mod_pos_bound. lia.
Qed.

(** [Math.floor(Math.random() * 100)] is one of 0, ..., 99. *)
Lemma jitter_range u : 0 <= u < 2 ^ 53 -> 0 <= jitter u < 100.
Proof.
  intros H. unfold jitter. split.
  - apply Z.div_pos; lia.
  - apply Z.div_lt_upper_bound; lia.
Qed.

Lemma backoff_floor_values :
  backoff_floor 0 = 300 /\ backoff_floor 1 = 600 /\ backoff_floor 2 = 1200
  /\ forall i, 3 <= i -> backoff_floor i = 2000.
Proof.
  repeat split. intros i Hi. unfold backoff_floor.
  assert (2 ^ 3 <= 2 ^ i) by (apply Z.pow_le_mono_r; lia).
  change (2 ^ 3) with 8 in *. lia.
Qed.

(** A wait for a timeout that returns has asked the page to wait for
    exactly that time. *)
Lemma wait_timeout_sleeps b (w w' : World AgentEyes) :
  wait (timeout_args b) w = (Ok tt, w') ->
  slept (log w') = slept (log w) + b.
Proof.
  unfold wait. rewrite bind_Date_now.
  destruct (page (state w)) eqn:Hp.
  2:{ rewrite bind_requirePage_closed by exact Hp. discriminate. }
  rewrite bind_requirePage by exact Hp.
  cbn [timeout_args a_for a_timeoutMs a_selector str_is dflt].
  change (String.eqb "timeout" "selector") with false.
  change (String.eqb "timeout" "networkidle") with false.
  change (String.eqb "timeout" "timeout") with true.
  cbv iota zeta.
  unfold try_catch. unfold bind at 1. unfold bind at 1. unfold call.
  destruct (answer (next_outcome w)) as [v|m].
  - unfold ret at 1. cbv beta iota.
    match goal with
    | |- context [?k (served ?c w)] =>
        assert (Hk : respects same_sleep k) by ss;
        specialize (Hk (served c w));
        destruct (k (served c w)) as [[[]|e] w1]
    end.
    + intros H. injection H as <-. cbn [snd] in Hk.
      unfold same_sleep in Hk. rewrite Hk. cbn [served log].
      rewrite slept_app. cbn. lia.
    + match goal with
      | |- ?h w1 = _ -> _ =>
          assert (Hh : always_throws h) by at_; specialize (Hh w1);
          destruct (h w1) as [[[]|e'] w2]; cbn in Hh; [discriminate|]
      end.
      discriminate.
  - cbv beta iota.
    match goal with
    | |- ?h ?w1 = _ -> _ =>
        assert (Hh : always_throws h) by at_; specialize (Hh w1);
        destruct (h w1) as [[[]|e'] w2]; cbn in Hh; [discriminate|]
    end.
    discriminate.
Qed.

(** A backoff sleep after the attempt [i] that returns has slept for
    at least [min(2000, 300 * 2^i)] and less than 100 more. *)
Lemma backoff_sleep_adds i (w w' : World AgentEyes) :
  backoff_sleep i w = (Ok tt, w') ->
  slept (log w) + backoff_floor i <= slept (log w')
  /\ slept (log w') < slept (log w) + backoff_floor i + 100.
Proof.
  unfold backoff_sleep, bind.
  destruct (Math_random w) as [[u|e] w0] eqn:Er; [|discriminate].
  destruct (Math_random_draw w Er) as [Hu Hl].
  intros H. apply wait_timeout_sleeps in H. rewrite H, Hl.
  pose proof (jitter_range Hu). lia.
Qed.

Lemma attempt_retry i attempts step next (w w1 w2 : World AgentEyes) e :
  (i =? attempts - 1) = false ->
  _dispatch (action step) (dflt noArgs (args step)) w = (Throw e, w1) ->
  backoff_sleep i w1 = (Ok tt, w2) ->
  attempt i attempts step next w = next w2.
Proof.
  intros Hi Hd Hs. unfold attempt, try_catch. rewrite Hd, Hi.
  unfold backoff_sleep in Hs. unfold bind in *.
  destruct (Math_random w1) as [[u|e'] w'] ; [|discriminate].
  destruct (wait _ w') as [[[]|e'] w'']; [|discriminate].
  injection Hs as <-. reflexivity.
Qed.

(** [_execute] is one attempt for a step that is not fragile and three
    attempts for a fragile one. *)
Lemma execute_attempts step :
  _execute step
  = if fragile (action step) (dflt noArgs (args step))
    then attempt 0 3 step (attempt 1 3 step (attempt 2 3 step (ret tt)))
    else attempt 0 1 step (ret tt).
Proof.
  unfold _execute, attempts.
  destruct (fragile (action step) (dflt noArgs (args step))); reflexivity.
Qed.

(** The classifier of [_execute] is the one of the specification. *)
Lemma fragile_spec step :
  fragile (action step) (dflt noArgs (args step)) = true
  <-> click_or_wait_for_selector step.
Proof.
  unfold fragile, click_or_wait_for_selector, str_is.
  rewrite orb_true_iff, andb_true_iff, !String.eqb_eq.
  destruct (a_for (dflt noArgs (args step))) as [f|].
  - rewrite String.eqb_eq. split; intros [H|[H1 H2]]; auto.
    + right. split; [exact H1|congruence].
    + right. split; [exact H1|congruence].
  - split; intros [H|[H1 H2]]; auto; discriminate.
Qed.

(** A step that is not fragile: one dispatch, and its error made a
    typed one. *)
Lemma execute_once step (w : World AgentEyes) :
  fragile (action step) (dflt noArgs (args step)) = false ->
  let d := _dispatch (action step) (dflt noArgs (args step)) w in
  _execute step w
  = (match fst d with Ok _ => Ok tt | Throw e => Throw (toEyesError e) end, snd d).
Proof.
  intros Hf. cbv zeta. rewrite execute_attempts, Hf.
  unfold attempt, try_catch.
  destruct (_dispatch _ _ w) as [[[]|e] w1]; reflexivity.
Qed.

(** A fragile step whose first two attempts fail: two sleeps, and the
    third attempt decides. *)
Lemma execute_third step (w0 w1 w2 w3 w4 : World AgentEyes) e1 e2 :
  let dispatch := _dispatch (action step) (dflt noArgs (args step)) in
  fragile (action step) (dflt noArgs (args step)) = true ->
  dispatch w0 = (Throw e1, w1) ->
  backoff_sleep 0 w1 = (Ok tt, w2) ->
  dispatch w2 = (Throw e2, w3) ->
  backoff_sleep 1 w3 = (Ok tt, w4) ->
  _execute step w0
  = (match fst (dispatch w4) with Ok _ => Ok tt | Throw e => Throw (toEyesError e) end,
     snd (dispatch w4))
  /\ slept (log w0) + 300 + 600 <= slept (log (snd (dispatch w4))).
Proof.
  intros dispatch Hf H1 S1 H2 S2. split.
  - rewrite execute_attempts, Hf.
    rewrite (@attempt_retry 0 3 step _ w0 w1 w2 e1 eq_refl H1 S1).
    rewrite (@attempt_retry 1 3 step _ w2 w3 w4 e2 eq_refl H2 S2).
    unfold attempt, try_catch. fold dispatch.
    destruct (dispatch w4) as [[[]|e] w5]; reflexivity.
  - pose proof (fragile_dispatch_sleeps_on _ _ Hf w0) as A1.
    pose proof (fragile_dispatch_sleeps_on _ _ Hf w2) as A2.
    pose proof (fragile_dispatch_sleeps_on _ _ Hf w4) as A3.
    fold dispatch in A1, A2, A3. rewrite H1 in A1. rewrite H2 in A2.
    cbn [snd] in A1, A2. unfold sleeps_on in *.
    destruct (@backoff_sleep_adds 0 w1 w2 S1) as [B1 _].
    destruct (@backoff_sleep_adds 1 w3 w4 S2) as [B2 _].
    destruct backoff_floor_values as (F0 & F1 & _).
    rewrite F0 in B1. rewrite F1 in B2. lia.
Qed.

Lemma screenshot_sleeps_on args : respects sleeps_on (screenshot args).
Proof. unfold screenshot. so. Qed.

Lemma dom_sleeps_on opts : respects sleeps_on (dom opts).
Proof. unfold dom, Artifacts.serializeDOM, _requirePage. so. Qed.

Lemma state_sleeps_on : respects sleeps_on state_.
Proof. unfold state_, _requirePage. so. Qed.

(** C6: [_execute] makes up to three attempts at a fragile step (a
    click, or a wait for a selector) and exactly one attempt at any
    other step; after a failed attempt [i] that is not the last one it
    sleeps for [min(2000, 300 * 2^i)] milliseconds plus a jitter below
    100.  A plan whose step is fragile, fails twice and succeeds at the
    third attempt is reported by [run] as a success without error, and
    the sleeps asked of the page in between add up to 900 milliseconds
    at least. *)
Theorem fragile_step_retries_with_backoff (p : Plan) (step : Step)
    (w : World AgentEyes) :
  let dispatch := _dispatch (action step) (dflt noArgs (args step)) in
  let a1 := dispatch (snd (Math_random w)) in
  let s1 := backoff_sleep 0 (snd a1) in
  let a2 := dispatch (snd s1) in
  let s2 := backoff_sleep 1 (snd a2) in
  let a3 := dispatch (snd s2) in
  steps p = Some [step] ->
  click_or_wait_for_selector step ->
  is_ok (fst a1) = false ->
  fst s1 = Ok tt ->
  is_ok (fst a2) = false ->
  fst s2 = Ok tt ->
  fst a3 = Ok tt ->
  (forall s,
     click_or_wait_for_selector s ->
     _execute s = attempt 0 3 s (attempt 1 3 s (attempt 2 3 s (ret tt))))
  /\ (forall s (w0 : World AgentEyes),
        ~ click_or_wait_for_selector s ->
        let d := _dispatch (action s) (dflt noArgs (args s)) w0 in
        _execute s w0
        = (match fst d with Ok _ => Ok tt | Throw e => Throw (toEyesError e) end,
           snd d))
  /\ (forall s (w0 : World AgentEyes),
        click_or_wait_for_selector s ->
        let d := _dispatch (action s) (dflt noArgs (args s)) in
        let b1 := d w0 in
        let t1 := backoff_sleep 0 (snd b1) in
        let b2 := d (snd t1) in
        let t2 := backoff_sleep 1 (snd b2) in
        let b3 := d (snd t2) in
        is_ok (fst b1) = false -> fst t1 = Ok tt ->
        is_ok (fst b2) = false -> fst t2 = Ok tt ->
        forall e, fst b3 = Throw e ->
        _execute s w0 = (Throw (toEyesError e), snd b3))
  /\ (forall i (w0 w' : World AgentEyes),
        backoff_sleep i w0 = (Ok tt, w') ->
        slept (log w0) + Z.min 2000 (300 * 2 ^ i) <= slept (log w')
        /\ slept (log w') < slept (log w0) + Z.min 2000 (300 * 2 ^ i) + 100)
  /\ fst (_execute step (snd (Math_random w))) = Ok tt
  /\ exists report w',
       run (Some p) w = (Ok report, w')
       /\ success report = true
       /\ error report = None
       /\ slept (log w) + 300 + 600 <= slept (log w').
Proof.
  intros dispatch a1 s1 a2 s2 a3 Hs Hf H1 S1 H2 S2 H3.
  assert (Third : forall s (w0 : World AgentEyes),
             click_or_wait_for_selector s ->
             let d := _dispatch (action s) (dflt noArgs (args s)) in
             let b1 := d w0 in
             let t1 := backoff_sleep 0 (snd b1) in
             let b2 := d (snd t1) in
             let t2 := backoff_sleep 1 (snd b2) in
             let b3 := d (snd t2) in
             is_ok (fst b1) = false -> fst t1 = Ok tt ->
             is_ok (fst b2) = false -> fst t2 = Ok tt ->
             _execute s w0
             = (match fst b3 with Ok _ => Ok tt | Throw e => Throw (toEyesError e) end,
                snd b3)
             /\ slept (log w0) + 300 + 600 <= slept (log (snd b3))).
  { intros s w0 Fs. cbv zeta. intros B1 T1 B2 T2.
    apply fragile_spec in Fs.
    destruct (_dispatch (action s) (dflt noArgs (args s)) w0) as [[[]|e1] w1] eqn:E1;
      cbn [fst snd is_ok] in *; [discriminate|].
    destruct (backoff_sleep 0 w1) as [r1 w2] eqn:E2; cbn [fst snd] in *. subst r1.
    destruct (_dispatch (action s) (dflt noArgs (args s)) w2) as [[[]|e2] w3] eqn:E3;
      cbn [fst snd is_ok] in *; [discriminate|].
    destruct (backoff_sleep 1 w3) as [r2 w4] eqn:E4; cbn [fst snd] in *. subst r2.
    apply (@execute_third s w0 w1 w2 w3 w4 e1 e2 Fs E1 E2 E3 E4). }
  split; [|split; [|split; [|split; [|split]]]].
  - intros s Fs. apply fragile_spec in Fs. rewrite execute_attempts, Fs. reflexivity.
  - intros s w0 Fs. apply execute_once.
    destruct (fragile _ _) eqn:E; [|reflexivity].
    exfalso. apply Fs, fragile_spec, E.
  - intros s w0 Fs. cbv zeta. intros B1 T1 B2 T2 e B3.
    destruct (Third s w0 Fs B1 T1 B2 T2) as [E _].
    rewrite E, B3. reflexivity.
  - intros i w0 w' H. eapply backoff_sleep_adds. exact H.
  - destruct (Third step (snd (Math_random w)) Hf H1 S1 H2 S2) as [E _].
    change (_execute step (snd (Math_random w))
            = (match fst a3 with Ok _ => Ok tt | Throw e => Throw (toEyesError e) end,
               snd a3)) in E.
    rewrite E, H3. reflexivity.
  - destruct (Third step (snd (Math_random w)) Hf H1 S1 H2 S2) as [E Hsl].
    change (_execute step (snd (Math_random w))
            = (match fst a3 with Ok _ => Ok tt | Throw e => Throw (toEyesError e) end,
               snd a3)) in E.
    change (slept (log (snd (Math_random w))) + 300 + 600 <= slept (log (snd a3))) in Hsl.
    rewrite H3 in E.
    assert (Hl : (List.length [step] <= 50)%nat) by (cbn; lia).
    destruct (run_loop_report p w Hs Hl)
      as (le & report & w' & Hle & Hrun & Hok & Herr).
    pose proof (run_final_world p w Hs Hl) as Hw. cbv zeta in Hw.
    rewrite Hrun in Hw. cbn [snd] in Hw.
    assert (Hloop : step_loop p (now w) [step] None (snd (Math_random w))
                    = (Ok None, snd a3)).
    { rewrite step_loop_cons, E.
      destruct (over_budget p (now w) (snd a3)); reflexivity. }
    rewrite Hloop in Hle, Hw. cbn [fst snd] in Hle, Hw. injection Hle as <-.
    exists report, w'. split; [exact Hrun|]. split; [exact Hok|].
    split; [exact Herr|].
    subst w'.
    pose proof (screenshot_sleeps_on (mkShotArgs None (Some "webp") (Some 60)) (snd a3)) as K1.
    pose proof (dom_sleeps_on (Artifacts.mkDomOpts (Some 3) (Some true))
                  (snd (screenshot (mkShotArgs None (Some "webp") (Some 60)) (snd a3)))) as K2.
    pose proof (state_sleeps_on
                  (snd (dom (Artifacts.mkDomOpts (Some 3) (Some true))
                     (snd (screenshot (mkShotArgs None (Some "webp") (Some 60)) (snd a3)))))) as K3.
    unfold sleeps_on in *.
    assert (Hr : slept (log (snd (Math_random w))) = slept (log w)).
    { unfold Math_random. destruct (random w); reflexivity. }
    lia.
Qed.

Lemma fragile_step_retries_with_backoff_witness :
  (forall s,
     click_or_wait_for_selector s ->
     _execute s = attempt 0 3 s (attempt 1 3 s (attempt 2 3 s (ret tt))))
  /\ (forall s (w0 : World AgentEyes),
        ~ click_or_wait_for_selector s ->
        let d := _dispatch (action s) (dflt noArgs (args s)) w0 in
        _execute s w0
        = (match fst d with Ok _ => Ok tt | Throw e => Throw (toEyesError e) end,
           snd d))
  /\ (forall s (w0 : World AgentEyes),
        click_or_wait_for_selector s ->
        let d := _dispatch (action s) (dflt noArgs (args s)) in
        let b1 := d w0 in
        let t1 := backoff_sleep 0 (snd b1) in
        let b2 := d (snd t1) in
        let t2 := backoff_sleep 1 (snd b2) in
        let b3 := d (snd t2) in
        is_ok (fst b1) = false -> fst t1 = Ok tt ->
        is_ok (fst b2) = false -> fst t2 = Ok tt ->
        forall e, fst b3 = Throw e ->
        _execute s w0 = (Throw (toEyesError e), snd b3))
  /\ (forall i (w0 w' : World AgentEyes),
        backoff_sleep i w0 = (Ok tt, w') ->
        slept (log w0) + Z.min 2000 (300 * 2 ^ i) <= slept (log w')
        /\ slept (log w') < slept (log w0) + Z.min 2000 (300 * 2 ^ i) + 100)
  /\ fst (_execute click_text (snd (Math_random flaky))) = Ok tt
  /\ exists report w',
       run (Some (mkPlan "go" (Some [click_text]) None None)) flaky = (Ok report, w')
       /\ success report = true
       /\ error report = None
       /\ slept (log flaky) + 300 + 600 <= slept (log w').
Proof.
  apply (@fragile_step_retries_with_backoff
           (mkPlan "go" (Some [click_text]) None None) click_text flaky).
  - reflexivity.
  - left. reflexivity.
  - vm_compute. reflexivity.
  - vm_compute. reflexivity.
  - vm_compute. reflexivity.
  - vm_compute. reflexivity.
  - vm_compute. reflexivity.
Defined.

End RetryFacts.

(* ===================================================================== *)
(** * More on src/errors.js and src/security.js *)
(* ===================================================================== *)

Module GuardFacts.
Import RegExp Security Sample Decide.

(** X1: [toEyesError] always gives a typed error, leaves a typed error
    as it is, and does nothing when it is applied again; an untyped
    error becomes [INTERNAL] with the original error as its cause and
    the original message, or ['Unexpected error'] when that is empty. *)
Theorem toEyesError_normalises (err : Thrown) :
  code_of (toEyesError err) <> None
  /\ toEyesError (toEyesError err) = toEyesError err
  /\ (code_of err <> None -> toEyesError err = err)
  /\ (forall m, err = JsError m ->
        toEyesError err
        = EyesError INTERNAL (if String.eqb m "" then "Unexpected error" else m)
                    None (Some err)).
Proof.
  destruct err as [c m h o|m]; cbn.
  - repeat split; try discriminate; reflexivity.
  - split; [discriminate|]. split; [reflexivity|]. split; [intros H; contradiction|].
    intros m' H. injection H as <-. destruct (String.eqb m ""); reflexivity.
Qed.

Ltac fold_chars :=
  repeat match goal with
         | |- context [Ascii.eqb ?x ?y] =>
             first [is_var x; fail 1 | is_var y; fail 1 | idtac];
             let b := eval vm_compute in (Ascii.eqb x y) in
             change (Ascii.eqb x y) with b
         end.

Ltac split_char :=
  match goal with
  | |- context [Ascii.eqb ?x ?y] =>
      first [is_var x | is_var y];
      destruct (Ascii.eqb_spec x y); subst; try congruence
  end.

(** The scheme test [/^https?:$/] accepts the two strings ['http:'] and
    ['https:'] and nothing else. *)
Lemma scheme_test (p : string) :
  RegExp.test (RegExp.mk (Cat (lit "http") (Cat (Opt (Chr "s")) (Chr ":"))) true false) p
  = orb (String.eqb p "http:") (String.eqb p "https:").
Proof.
  unfold RegExp.test. cbn [dollar flag_i body].
  repeat (match goal with
          | |- context [full _ _ ?p] => is_var p; destruct p as [|? ?]
          end;
          cbn -[Ascii.eqb]; fold_chars; cbn -[Ascii.eqb];
          repeat (split_char; cbn -[Ascii.eqb]; fold_chars; cbn -[Ascii.eqb]);
          try reflexivity).
Qed.

Lemma settle_sound dollar ci p : forall r b,
  settle dollar ci r p = Some b ->
  forall rest,
    RegExp.test (RegExp.mk r dollar ci) (p ++ rest) = b.
Proof.
  unfold RegExp.test. cbn [RegExp.dollar flag_i body].
  induction p as [|c p IH]; intros r b; cbn [settle].
  - destruct dollar; cbn [negb andb].
    + discriminate.
    + destruct (nullable r) eqn:N; [|discriminate].
      intros H rest. injection H as <-. destruct (("" ++ rest)%string); cbn; rewrite N; reflexivity.
  - destruct dollar; cbn [negb andb].
    + destruct (deriv ci c r) as [d|] eqn:D.
      * intros H rest. cbn [append full]. rewrite D. apply (IH d b H).
      * intros H rest. injection H as <-. cbn [append full]. rewrite D. reflexivity.
    + destruct (nullable r) eqn:N.
      * intros H rest. injection H as <-. cbn [append RegExp.prefix]. rewrite N. reflexivity.
      * destruct (deriv ci c r) as [d|] eqn:D.
        -- intros H rest. cbn [append RegExp.prefix]. rewrite N, D. apply (IH d b H).
        -- intros H rest. injection H as <-. cbn [append RegExp.prefix]. rewrite N, D. reflexivity.
Qed.

Lemma settle_any_sound l p b :
  settle_any l p = Some b ->
  forall rest, existsb (fun re => RegExp.test re (p ++ rest)) l = b.
Proof.
  revert b. induction l as [|re l IH]; intros b; cbn [settle_any existsb].
  - intros H rest. congruence.
  - destruct (settle _ _ _ p) as [b1|] eqn:E1; [|discriminate].
    destruct (settle_any l p) as [b2|]; [|discriminate].
    intros H rest. injection H as <-.
    rewrite (IH b2 eq_refl rest).
    destruct re as [r d i]. cbn [dollar flag_i body] in E1.
    rewrite (settle_sound _ _ _ _ E1 rest). reflexivity.
Qed.

Lemma strip_close_app p rest :
  bracket_free p = true ->
  strip_close (p ++ rest) = p ++ strip_close rest.
Proof.
  induction p as [|c p IH]; cbn [bracket_free append]; [reflexivity|].
  intros H. apply andb_prop in H. destruct H as [Hc Hp].
  apply andb_prop in Hc. destruct Hc as [_ Hc]. apply negb_true_iff in Hc.
  rewrite SecurityFacts.strip_close_cons by exact Hc.
  rewrite (IH Hp). reflexivity.
Qed.

Lemma strip_open_free p rest :
  bracket_free p = true -> p <> "" -> strip_open (p ++ rest) = p ++ rest.
Proof.
  destruct p as [|c p]; [congruence|]. cbn [bracket_free append]. intros H _.
  apply andb_prop in H. destruct H as [Hc _].
  apply andb_prop in Hc. destruct Hc as [Hc _]. apply negb_true_iff in Hc.
  unfold strip_open. destruct c as [[] [] [] [] [] [] [] []]; try reflexivity.
  discriminate.
Qed.

Lemma all_octets_settled :
  forallb (fun a => forallb (octets_settled a) octet_range) octet_range = true.
Proof. vm_compute. reflexivity. Qed.

Lemma append_assoc3 (x y z : string) : ((x ++ y) ++ z = x ++ (y ++ z))%string.
Proof. induction x as [|c x IH]; cbn [append]; [reflexivity|]. rewrite IH. reflexivity. Qed.

Lemma in_octet_range a : 0 <= a <= 255 -> In a octet_range.
Proof.
  intros H. unfold octet_range. apply in_map_iff. exists (Z.to_nat a).
  split; [lia|]. apply in_seq. lia.
Qed.

(** The first two groups of a dotted IPv4 host name decide the answer
    of the table, whatever follows and whatever brackets surround it. *)
Lemma ipv4_table (a b c d : Z) (opening closing : bool) :
  0 <= a <= 255 -> 0 <= b <= 255 ->
  isPrivateHostname (bracketed opening closing (ipv4 a b c d)) = ipv4_private a b.
Proof.
  intros Ha Hb.
  pose proof all_octets_settled as H.
  rewrite forallb_forall in H. specialize (H a (in_octet_range Ha)).
  rewrite forallb_forall in H. specialize (H b (in_octet_range Hb)).
  unfold octets_settled in H. cbv zeta in H.
  apply andb_prop in H. destruct H as [Hfree Hset].
  destruct (settle_any PRIVATE_CIDRS _) as [r|] eqn:E; [|discriminate].
  apply Bool.eqb_prop in Hset. subst r.
  unfold ipv4, bracketed.
  set (cl := if closing then "]" else "").
  replace ((dec a ++ "." ++ dec b ++ "." ++ dec c ++ "." ++ dec d) ++ cl)%string
    with ((dec a ++ "." ++ dec b ++ ".") ++ (dec c ++ "." ++ dec d ++ cl))%string.
  2:{ rewrite !append_assoc3. reflexivity. }
  unfold isPrivateHostname.
  assert (Ho : strip_open ((if opening then "[" else "")
                           ++ (dec a ++ "." ++ dec b ++ ".") ++ (dec c ++ "." ++ dec d ++ cl))
               = ((dec a ++ "." ++ dec b ++ ".") ++ (dec c ++ "." ++ dec d ++ cl))%string).
  { destruct opening; [reflexivity|]. cbn [append].
    apply strip_open_free; [exact Hfree|]. destruct (dec a); discriminate. }
  rewrite Ho, strip_close_app by exact Hfree.
  apply (settle_any_sound _ _ E).
Qed.

(** A host that the table lets pass is none of the loopback names and
    no IPv4 address of the five ranges. *)
Lemma not_private_host (h : string) :
  isPrivateHostname h = false -> outside_ranges h.
Proof.
  intros H. unfold outside_ranges.
  repeat split; try (intros ->; vm_compute in H; discriminate H).
  intros a b c d o cl Ha Hb Hp ->.
  rewrite ipv4_table in H by assumption. congruence.
Qed.

(** X3: on the host name of an IPv4 address [a.b.c.d] in decimal
    notation, with or without a bracket in front of it and behind it,
    the table answers exactly by the ranges 10/8, 127/8, 169.254/16,
    172.16/12 and 192.168/16: every address in them is private and no
    address outside them is. *)
Theorem ipv4_hosts_exact (a b c d : Z) (opening closing : bool) :
  0 <= a <= 255 -> 0 <= b <= 255 ->
  isPrivateHostname (ipv4 a b c d) = ipv4_private a b
  /\ isPrivateHostname (bracketed opening closing (ipv4 a b c d)) = ipv4_private a b.
Proof.
  intros Ha Hb. split.
  - pose proof (@ipv4_table a b c d false false Ha Hb) as H.
    unfold bracketed in H. cbn [append] in H.
    replace (ipv4 a b c d ++ "")%string with (ipv4 a b c d) in H; [exact H|].
    generalize (ipv4 a b c d). intros s.
    induction s as [|ch s IH]; cbn [append]; congruence.
  - apply ipv4_table; assumption.
Qed.

Lemma ipv4_hosts_exact_witness :
  isPrivateHostname (ipv4 172 20 0 1) = ipv4_private 172 20
  /\ isPrivateHostname (bracketed true true (ipv4 172 20 0 1)) = ipv4_private 172 20.
Proof. apply (@ipv4_hosts_exact 172 20 0 1 true true); lia. Defined.

(** The guard throws [BAD_INPUT] or [SECURITY_BLOCKED]. *)
Lemma guardNavigation_codes (new_URL : string -> option URL)
    (rawUrl : string) (options : GuardOptions) e :
  guardNavigation new_URL rawUrl options = inl e ->
  (new_URL rawUrl = None /\ code_of e = Some BAD_INPUT)
  \/ (new_URL rawUrl <> None /\ code_of e = Some SECURITY_BLOCKED).
Proof.
  unfold guardNavigation, ensureValidUrl.
  destruct (new_URL rawUrl) as [u|];
    [|intros H; injection H as <-; left; split; reflexivity].
  intros H. right. split; [discriminate|].
  destruct (negb _); [injection H as <-; reflexivity|].
  destruct (match allowNavigationTo options with Some _ => _ | None => _ end);
    [injection H as <-; reflexivity|].
  destruct (andb _ _); [injection H as <-; reflexivity|discriminate].
Qed.

(** When the guard returns. *)
Lemma guard_returns_iff (new_URL : string -> option URL)
    (rawUrl : string) (options : GuardOptions) (s : string) :
  guardNavigation new_URL rawUrl options = inr s <->
  exists u,
    new_URL rawUrl = Some u /\ s = href u
    /\ (protocol u = "http:" \/ protocol u = "https:")
    /\ match allowNavigationTo options with
       | Some allow => allow (href u) = true
       | None => True
       end
    /\ (blockPrivateIPs options = Some false
        \/ isPrivateHostname (hostname u) = false).
Proof.
  unfold guardNavigation, ensureValidUrl.
  destruct (new_URL rawUrl) as [u|].
  2:{ split; [discriminate|]. intros (u & H & _). discriminate. }
  rewrite scheme_test.
  assert (Hs : orb (String.eqb (protocol u) "http:") (String.eqb (protocol u) "https:") = true
               <-> protocol u = "http:" \/ protocol u = "https:").
  { rewrite orb_true_iff, !String.eqb_eq. reflexivity. }
  assert (Hb : andb (not_false (blockPrivateIPs options)) (isPrivateHostname (hostname u)) = false
               <-> blockPrivateIPs options = Some false
                   \/ isPrivateHostname (hostname u) = false).
  { destruct (blockPrivateIPs options) as [[|]|], (isPrivateHostname (hostname u));
      cbn; split; auto; intros [H|H]; congruence. }
  assert (Ha : match allowNavigationTo options with
               | Some allow => negb (allow (href u))
               | None => false
               end = false
               <-> match allowNavigationTo options with
                   | Some allow => allow (href u) = true
                   | None => True
                   end).
  { destruct (allowNavigationTo options) as [allow|]; [|tauto].
    destruct (allow (href u)); cbn; split; congruence. }
  split.
  - destruct (orb _ _) eqn:Es; cbn [negb]; [|discriminate].
    destruct (match allowNavigationTo options with Some _ => _ | None => _ end) eqn:Ea;
      [discriminate|].
    destruct (andb _ _) eqn:Eb; [discriminate|].
    intros H. injection H as <-. exists u.
    split; [reflexivity|]. split; [reflexivity|].
    split; [apply Hs; reflexivity|]. split; [apply Ha; reflexivity|apply Hb; reflexivity].
  - intros (u' & H & -> & Hp & Hal & Hbl). injection H as <-.
    apply Hs in Hp. apply Ha in Hal. apply Hb in Hbl.
    rewrite Hp, Hal, Hbl. reflexivity.
Qed.

(** What the guard has checked of a URL that it returns. *)
Lemma guard_returns new_URL rawUrl options url :
  guardNavigation new_URL rawUrl options = inr url ->
  exists u,
    new_URL rawUrl = Some u /\ url = href u
    /\ (protocol u = "http:" \/ protocol u = "https:")
    /\ match allowNavigationTo options with
       | Some allow => allow (href u) = true
       | None => True
       end
    /\ (blockPrivateIPs options = Some false
        \/ (isPrivateHostname (hostname u) = false /\ outside_ranges (hostname u))).
Proof.
  intros H. apply guard_returns_iff in H.
  destruct H as (u & Hu & Hs & Hp & Ha & Hb). exists u.
  repeat (split; [assumption|]).
  destruct Hb as [Hb|Hb]; [left; exact Hb|right].
  split; [exact Hb|apply not_private_host, Hb].
Qed.

(** X2: [guardNavigation], for one call of it and with the answer of
    [allowNavigationTo.test] on the normalised URL taken as given.  It
    fails with [BAD_INPUT] exactly when [new URL] refuses the input, and
    with [SECURITY_BLOCKED] otherwise.  It returns exactly when the
    input parses, the scheme is the string ['http:'] or ['https:'], the
    allow-list (if any) accepts the normalised URL, and the table of
    [isPrivateHostname] does not match the host or [blockPrivateIPs] is
    [false]; what it returns is the normalised URL.  With the block on
    it therefore returns no URL whose host is [localhost], [::1] or a
    dotted IPv4 address in 10/8, 127/8, 169.254/16, 172.16/12 or
    192.168/16, and it refuses no IPv4 address outside these ranges for
    its host.  What it returns under some options it returns without
    allow-list and with the block off. *)
Theorem guardNavigation_decides (new_URL : string -> option URL)
    (rawUrl : string) (options : GuardOptions) :
  (new_URL rawUrl = None <->
   exists e, guardNavigation new_URL rawUrl options = inl e
             /\ code_of e = Some BAD_INPUT)
  /\ (forall e,
        guardNavigation new_URL rawUrl options = inl e ->
        code_of e = Some BAD_INPUT \/ code_of e = Some SECURITY_BLOCKED)
  /\ (forall s,
        guardNavigation new_URL rawUrl options = inr s <->
        exists u,
          new_URL rawUrl = Some u /\ s = href u
          /\ (protocol u = "http:" \/ protocol u = "https:")
          /\ match allowNavigationTo options with
             | Some allow => allow (href u) = true
             | None => True
             end
          /\ (blockPrivateIPs options = Some false
              \/ isPrivateHostname (hostname u) = false))
  /\ (forall s,
        guardNavigation new_URL rawUrl options = inr s ->
        blockPrivateIPs options <> Some false ->
        exists u,
          new_URL rawUrl = Some u /\ s = href u /\ outside_ranges (hostname u))
  /\ (forall u a b c d opening closing,
        new_URL rawUrl = Some u ->
        hostname u = bracketed opening closing (ipv4 a b c d) ->
        0 <= a <= 255 -> 0 <= b <= 255 ->
        ipv4_private a b = false ->
        (protocol u = "http:" \/ protocol u = "https:") ->
        match allowNavigationTo options with
        | Some allow => allow (href u) = true
        | None => True
        end ->
        guardNavigation new_URL rawUrl options = inr (href u))
  /\ (forall s,
        guardNavigation new_URL rawUrl options = inr s ->
        guardNavigation new_URL rawUrl (mkGuardOptions None (Some false)) = inr s).
Proof.
  split; [|split; [|split; [|split; [|split]]]].
  - split.
    + intros H. unfold guardNavigation, ensureValidUrl. rewrite H.
      eexists. split; reflexivity.
    + intros (e & He & Hc).
      destruct (guardNavigation_codes _ _ _ He) as [[H _]|[_ H]]; [exact H|].
      congruence.
  - intros e He.
    destruct (guardNavigation_codes _ _ _ He) as [[_ H]|[_ H]]; auto.
  - intros s. apply guard_returns_iff.
  - intros s Hs Hb.
    destruct (guard_returns _ _ _ Hs) as (u & Hu & Hh & _ & _ & [Hx|[_ Ho]]);
      [contradiction|].
    exists u. auto.
  - intros u a b c d o cl Hu Hh Ha Hb Hp Hs Hal.
    apply guard_returns_iff. exists u.
    repeat (split; [first [assumption|reflexivity]|]).
    right. rewrite Hh. rewrite ipv4_table by assumption. exact Hp.
  - intros s Hs. apply guard_returns_iff in Hs.
    destruct Hs as (u & Hu & Hh & Hp & _ & _).
    apply guard_returns_iff. exists u. cbn.
    repeat (split; [first [assumption|exact I]|]). left. reflexivity.
Qed.

End GuardFacts.

(* ===================================================================== *)
(** * More on the actions of the session *)
(* ===================================================================== *)

Module SessionFacts.
Import Engine Eyes Runner Sample Notions Buffers MonadFacts RespectFacts ActionFacts.
Local Open Scope eyes_scope.

(** ** The errors that the actions throw *)

Lemma to_weaken {St A} (P Q : Thrown -> Prop) (m : M St A) :
  throws_only P m -> (forall e, P e -> Q e) -> throws_only Q m.
Proof. intros H HPQ w e E. apply HPQ. apply (H w e E). Qed.

Lemma to_try_from {St A} (P Q : Thrown -> Prop) (m : M St A) (h : Thrown -> M St A) :
  throws_only P m -> (forall e, P e -> throws_only Q (h e)) ->
  throws_only Q (try_catch m h).
Proof.
  intros Hm Hh w e. unfold try_catch. specialize (Hm w).
  destruct (m w) as [[a|e'] w1]; cbn [fst] in *.
  - discriminate.
  - apply Hh. apply Hm. reflexivity.
Qed.

Lemma to_call {St} c : throws_only untyped (@call St c).
Proof.
  intros w e. unfold call. destruct (answer _); cbn; [discriminate|].
  intros H. injection H as <-. reflexivity.
Qed.

Lemma to_requirePage : throws_only (has_code [INTERNAL]) _requirePage.
Proof.
  unfold _requirePage. apply to_bind; [apply to_never, nt_get|]. intros s.
  destruct (page s); [apply to_never, nt_ret|].
  apply to_throw. cbn. auto.
Qed.

Lemma toEyesError_untyped e : untyped e -> has_code [INTERNAL] (toEyesError e).
Proof. destruct e; cbn; [discriminate|]. intros _. cbn. auto. Qed.

Lemma toEyesError_typed l e : has_code l e -> has_code l (toEyesError e).
Proof. destruct e; cbn; [auto|contradiction]. Qed.

Lemma has_code_incl l l' e : incl l l' -> has_code l e -> has_code l' e.
Proof. unfold has_code. destruct (code_of e); [auto|contradiction]. Qed.

Ltac body_throws :=
  repeat (intros;
          first [ apply to_never; solve [nt]
                | eapply to_weaken; [apply to_call|intros ? ?; left; assumption]
                | apply to_throw; right; cbn; auto
                | apply to_bind
                | progress cbv zeta
                | match goal with
                  | |- throws_only _ (if ?b then _ else _) => destruct b
                  | |- throws_only _ (match ?x with _ => _ end) => destruct x
                  end ]).

Ltac handler_throws :=
  repeat (intros;
          first [ apply to_never; solve [nt]
                | apply to_bind
                | progress cbv zeta ]).

Lemma normalised_code e :
  raw_or_bad_input e -> has_code [INTERNAL; BAD_INPUT] (toEyesError e).
Proof.
  intros [H|H].
  - eapply has_code_incl; [|apply toEyesError_untyped, H]. intros c [<-|[]]; cbn; auto.
  - eapply has_code_incl; [|apply toEyesError_typed, H]. intros c [<-|[]]; cbn; auto.
Qed.

Ltac body_untyped :=
  repeat (intros;
          first [ apply to_never; solve [nt]
                | apply to_call
                | apply to_bind
                | progress cbv zeta
                | match goal with
                  | |- throws_only _ (if ?b then _ else _) => destruct b
                  | |- throws_only _ (match ?x with _ => _ end) => destruct x
                  end ]).

Ltac prelude_throws :=
  apply to_bind; [apply to_never, nt_Date_now|]; intros ?;
  apply to_bind;
  [ eapply to_weaken; [apply to_requirePage|];
    intros ?; apply has_code_incl; intros ? [<-|[]]; cbn; auto |];
  intros _; cbv zeta.

Lemma wait_throws args : throws_only (has_code [INTERNAL; BAD_INPUT]) (wait args).
Proof.
  unfold wait. prelude_throws.
  apply to_try_from with (P := raw_or_bad_input); [body_throws|].
  intros e He. handler_throws. intros. apply to_throw, normalised_code, He.
Qed.

Lemma scroll_throws args : throws_only (has_code [INTERNAL]) (scroll args).
Proof.
  unfold scroll. prelude_throws.
  apply to_try_from with (P := untyped); [body_untyped|].
  intros e He. handler_throws. intros. apply to_throw, toEyesError_untyped, He.
Qed.

Lemma keys_throws args : throws_only (has_code [INTERNAL]) (keys args).
Proof.
  unfold keys. prelude_throws.
  apply to_try_from with (P := untyped); [body_untyped|].
  intros e He. handler_throws. intros. apply to_throw, toEyesError_untyped, He.
Qed.

Lemma exec_throws args : throws_only (has_code [INTERNAL; SCRIPT_ERROR]) (exec args).
Proof.
  unfold exec. prelude_throws.
  apply to_try. intros e. handler_throws. intros. apply to_throw. cbn. auto.
Qed.

Lemma click_throws args : throws_only (has_code [INTERNAL; ELEMENT_NOT_FOUND]) (click args).
Proof.
  unfold click. prelude_throws.
  apply to_try. intros e. handler_throws. intros. apply to_throw. cbn. auto.
Qed.

Lemma type_throws args :
  throws_only (has_code [INTERNAL; BAD_INPUT; ELEMENT_NOT_FOUND]) (type args).
Proof.
  unfold type. prelude_throws.
  destruct (negb _); [apply to_throw; cbn; auto|].
  apply to_try. intros e. handler_throws. intros. apply to_throw. cbn. auto.
Qed.

Lemma setContent_throws args :
  throws_only (has_code [INTERNAL; BAD_INPUT]) (setContent args).
Proof.
  unfold setContent. prelude_throws.
  destruct (a_html args) as [html|]; [|apply to_throw; cbn; auto].
  cbv zeta. apply to_try_from with (P := untyped); [body_untyped|].
  intros e He. handler_throws. intros. apply to_throw.
  eapply has_code_incl; [|apply toEyesError_untyped, He]. intros c [<-|[]]; cbn; auto.
Qed.

Lemma screenshot_throws args : throws_only (has_code [INTERNAL]) (screenshot args).
Proof.
  unfold screenshot. prelude_throws.
  apply to_bind.
  - apply to_try_from with (P := untyped); [apply to_call|].
    intros e He. apply to_throw, toEyesError_untyped, He.
  - intros buf. body_untyped.
Qed.

Lemma navigate_throws args :
  throws_only (has_code [INTERNAL; BAD_INPUT; SECURITY_BLOCKED; NAVIGATION_TIMEOUT])
              (navigate args).
Proof.
  unfold navigate. prelude_throws.
  destruct (negb _); [apply to_throw; cbn; auto|].
  apply to_bind; [apply to_never, nt_get|]. intros s.
  apply to_bind; [apply to_never; intros w; reflexivity|]. intros parse.
  destruct (Security.guardNavigation _ _ _) as [e|url] eqn:G.
  - apply to_throw.
    destruct (GuardFacts.guardNavigation_codes _ _ _ G) as [[_ Hc]|[_ Hc]];
      unfold has_code; rewrite Hc; cbn; auto.
  - cbv zeta. apply to_try. intros e. handler_throws. intros. apply to_throw. cbn. auto.
Qed.

(** X4: every error that one of the nine instrumented actions throws
    is typed, and its code is determined by the action: [navigate]
    throws [BAD_INPUT], [SECURITY_BLOCKED] or [NAVIGATION_TIMEOUT],
    [click] throws [ELEMENT_NOT_FOUND], [type] throws [BAD_INPUT] or
    [ELEMENT_NOT_FOUND], [wait] and [setContent] throw [BAD_INPUT] or
    [INTERNAL], [exec] throws [SCRIPT_ERROR], [scroll], [keys] and
    [screenshot] throw [INTERNAL]; each of them throws [INTERNAL] on a
    session that is not open. *)
Theorem actions_throw_typed_errors (args : Args) (sargs : ShotArgs) :
  throws_only (has_code [INTERNAL; BAD_INPUT; SECURITY_BLOCKED; NAVIGATION_TIMEOUT])
              (navigate args)
  /\ throws_only (has_code [INTERNAL; ELEMENT_NOT_FOUND]) (click args)
  /\ throws_only (has_code [INTERNAL; BAD_INPUT; ELEMENT_NOT_FOUND]) (type args)
  /\ throws_only (has_code [INTERNAL; BAD_INPUT]) (wait args)
  /\ throws_only (has_code [INTERNAL]) (scroll args)
  /\ throws_only (has_code [INTERNAL]) (keys args)
  /\ throws_only (has_code [INTERNAL; SCRIPT_ERROR]) (exec args)
  /\ throws_only (has_code [INTERNAL; BAD_INPUT]) (setContent args)
  /\ throws_only (has_code [INTERNAL]) (screenshot sargs).
Proof.
  repeat split.
  - apply navigate_throws.
  - apply click_throws.
  - apply type_throws.
  - apply wait_throws.
  - apply scroll_throws.
  - apply keys_throws.
  - apply exec_throws.
  - apply setContent_throws.
  - apply screenshot_throws.
Qed.

(** ** Actions that leave the engine alone *)

Lemma ei_refl w : engine_idle w w.
Proof. split; reflexivity. Qed.

Lemma ei_trans a b c : engine_idle a b -> engine_idle b c -> engine_idle a c.
Proof. unfold engine_idle. intros [H1 H2] [H3 H4]. split; congruence. Qed.

Lemma engine_calls_app l l' :
  engine_calls (l ++ l') = (engine_calls l ++ engine_calls l')%list.
Proof. unfold engine_calls. apply flat_map_app. Qed.

Lemma ei_tell e :
  match e with Called _ => False | _ => True end ->
  respects engine_idle (tell e).
Proof.
  intros H w. split; [reflexivity|]. cbn. rewrite engine_calls_app.
  destruct e; try contradiction; cbn; apply app_nil_r.
Qed.

Lemma ei_modify f : respects engine_idle (modify f).
Proof. intros w. split; reflexivity. Qed.

Ltac ei_base := first [ apply ei_tell; exact I | apply ei_modify ].

Ltac ei := respects_by ei_refl ei_trans ei_base.

Lemma ei_trace ev start ok err : respects engine_idle (_trace ev start ok err).
Proof. unfold _trace. ei. Qed.

Lemma ei_afterAction action start : respects engine_idle (_afterAction action start).
Proof. unfold _afterAction. ei. Qed.

Lemma ei_errors_incr : respects engine_idle errors_incr.
Proof. unfold errors_incr. ei. Qed.

(** The [catch] block of [wait], [scroll], [keys] and [setContent]:
    one more error, the typed error rethrown, the engine left alone. *)
Lemma rethrow_typed event start e (w : World AgentEyes) :
  let h : E unit := errors_incr ;;;
                    _trace event start false (Some (toEyesError e)) ;;;
                    throw (toEyesError e) in
  fst (h w) = Throw (toEyesError e)
  /\ errored w (snd (h w)) /\ engine_idle w (snd (h w)).
Proof.
  cbv zeta. set (w0 := snd (errors_incr w)).
  pose proof (sm_trace event start false (Some (toEyesError e)) w0) as Hs.
  pose proof (ei_trace event start false (Some (toEyesError e)) w0) as He.
  destruct (nt_result w0 (nt_trace event start false (Some (toEyesError e)))) as [[] Ht].
  match goal with |- fst (?h w) = _ /\ _ =>
    assert (Hh : h w = (Throw (toEyesError e),
                        snd (_trace event start false (Some (toEyesError e)) w0)))
  end.
  { unfold bind at 1. change (errors_incr w) with (@Ok unit tt, w0). cbv beta iota.
    unfold bind. rewrite Ht. reflexivity. }
  rewrite Hh. cbn [fst snd].
  split; [reflexivity|]. split.
  - unfold errored, same_metrics in *. rewrite Hs. reflexivity.
  - eapply ei_trans; [|exact He]. split; reflexivity.
Qed.

(** X5: on an open session [wait] refuses the mode [selector] without
    a selector, and every mode other than [selector], [networkidle]
    and [timeout], with a [BAD_INPUT] error that keeps its code; the
    refusal is counted as an error and the engine is not called. *)
Theorem wait_refuses_bad_arguments (args : Args) (w : World AgentEyes) :
  page (state w) = true ->
  wait_refuses args = true ->
  (exists message,
     fst (wait args w) = Throw (EyesError BAD_INPUT message None None))
  /\ errored w (snd (wait args w))
  /\ engine_idle w (snd (wait args w)).
Proof.
  intros Hp Hr. unfold wait.
  rewrite bind_Date_now, bind_requirePage by exact Hp. cbv zeta.
  unfold wait_refuses in Hr.
  assert (Hbody : forall k : unit -> E unit, exists message,
             bind (if str_is (a_for args) "selector"
                   then if negb (truthy (a_selector args))
                        then throw (BadInputError "wait.selector is required" None None)
                        else bind (call (WaitForSelector (str (a_selector args))
                                           (dflt 10000 (a_timeoutMs args))))
                                  (fun _ => ret tt)
                   else if str_is (a_for args) "networkidle"
                        then bind (call (WaitForLoadState "networkidle"
                                           (dflt 10000 (a_timeoutMs args))))
                                  (fun _ => ret tt)
                        else if str_is (a_for args) "timeout"
                             then bind (call (WaitForTimeout (dflt 10000 (a_timeoutMs args))))
                                       (fun _ => ret tt)
                             else throw (BadInputError
                                           "wait.for must be selector|networkidle|timeout"
                                           None None)) k w
             = (Throw (EyesError BAD_INPUT message None None), w)).
  { intros k. destruct (str_is (a_for args) "selector").
    - rewrite Hr. eexists. reflexivity.
    - destruct (str_is (a_for args) "networkidle"); [discriminate|].
      destruct (str_is (a_for args) "timeout"); [discriminate|].
      eexists. reflexivity. }
  match goal with |- context [try_catch (bind ?m ?k) ?h w] =>
    destruct (Hbody k) as [message Hm];
    rewrite (@try_throw _ _ (bind m k) h w _ (f_equal fst Hm)); rewrite Hm
  end.
  cbn [snd].
  pose proof (@rethrow_typed "wait" (now w) (EyesError BAD_INPUT message None None) w) as H.
  cbv zeta in H. cbn [toEyesError] in H.
  destruct H as (H1 & H2 & H3).
  split; [exists message; exact H1|]. split; assumption.
Qed.

Lemma wait_refuses_bad_arguments_witness :
  (exists message,
     fst (wait hover_args opened) = Throw (EyesError BAD_INPUT message None None))
  /\ errored opened (snd (wait hover_args opened))
  /\ engine_idle opened (snd (wait hover_args opened)).
Proof. apply (@wait_refuses_bad_arguments hover_args opened); reflexivity. Defined.

(** X6: on an open session a [scroll] without selector and without
    coordinates succeeds without calling the engine, and it is counted
    as a completed action. *)
Theorem scroll_without_target_is_noop (args : Args) (w : World AgentEyes) :
  page (state w) = true ->
  truthy (a_intoViewSelector args) = false ->
  a_x args = None -> a_y args = None ->
  fst (scroll args w) = Ok tt
  /\ counted (now w) w (snd (scroll args w))
  /\ engine_idle w (snd (scroll args w)).
Proof.
  intros Hp Hs Hx Hy.
  pose proof (scroll_once args w Hp) as Ho. unfold once_at in Ho.
  unfold scroll in *.
  rewrite bind_Date_now, bind_requirePage in * by exact Hp.
  rewrite Hs, Hx, Hy in *.
  match goal with |- fst (try_catch ?b ?h w) = _ /\ _ =>
    assert (Hnt : never_throws b) by nt;
    assert (Hei : respects engine_idle b) by (ei; first [apply ei_trace|apply ei_afterAction]);
    destruct (nt_result w Hnt) as [[] Hb]; specialize (Hei w);
    rewrite (@try_ok _ _ b h w tt (f_equal fst Hb)) in *
  end.
  cbn [fst snd] in *. split; [reflexivity|]. split; assumption.
Qed.

Lemma scroll_without_target_is_noop_witness :
  fst (scroll noArgs opened) = Ok tt
  /\ counted (now opened) opened (snd (scroll noArgs opened))
  /\ engine_idle opened (snd (scroll noArgs opened)).
Proof. apply (@scroll_without_target_is_noop noArgs opened); reflexivity. Defined.

Lemma bind_inv_ok {St A B} (m : M St A) (k : A -> M St B) w b w' :
  bind m k w = (Ok b, w') ->
  exists a w1, m w = (Ok a, w1) /\ k a w1 = (Ok b, w').
Proof.
  unfold bind. destruct (m w) as [[a|e] w1]; [eauto|discriminate].
Qed.

(** A [try] block that begins with a call on the engine. *)
Lemma try_call_done {A} c (k : Value -> E A) (h : Thrown -> E A)
    (w : World AgentEyes) v :
  answer (next_outcome w) = Done v ->
  never_throws (k v) ->
  try_catch (bind (call c) k) h w = k v (served c w).
Proof.
  intros Ha Hk. unfold try_catch, bind, call. rewrite Ha.
  specialize (Hk (served c w)).
  destruct (k v (served c w)) as [[a|e] w1]; cbn in Hk; [reflexivity|discriminate].
Qed.

Lemma try_call_failed {A} c (k : Value -> E A) (h : Thrown -> E A)
    (w : World AgentEyes) m :
  answer (next_outcome w) = Failed m ->
  try_catch (bind (call c) k) h w = h (JsError m) (served c w).
Proof. intros Ha. unfold try_catch, bind, call. rewrite Ha. reflexivity. Qed.

(** A call on the engine whose failure is made a typed error. *)
Lemma bind_try_call {A} c (k : Value -> E A) (w : World AgentEyes) :
  bind (try_catch (call c) (fun e => throw (toEyesError e))) k w
  = match answer (next_outcome w) with
    | Done v => k v (served c w)
    | Failed m => (Throw (toEyesError (JsError m)), served c w)
    end.
Proof. unfold bind, try_catch, call, throw. destruct (answer _); reflexivity. Qed.

Lemma calls_served c (w : World AgentEyes) :
  engine_calls (log (served c w)) = (engine_calls (log w) ++ [c])%list.
Proof.
  unfold engine_calls. cbn [served log]. rewrite flat_map_app. reflexivity.
Qed.

(** X7: on an open session [setContent] without a string [html] is
    refused with [BAD_INPUT] before anything happens.  With a string it
    asks the engine once, for [setContent(html)] with the timeout given
    or 15000 ms; when the engine accepts, it returns and is counted as
    one completed action; when the engine fails with a message, it
    throws the [INTERNAL] error that carries the message (or
    ['Unexpected error'] for an empty one) and the failure as its
    cause, and is counted as one error. *)
Theorem setContent_updates (args : Args) (w : World AgentEyes) :
  page (state w) = true ->
  match a_html args with
  | None =>
      setContent args w
      = (Throw (BadInputError "setContent.html must be a string" None None), w)
  | Some html =>
      once_at (now w) (setContent args) w
      /\ engine_calls (log (snd (setContent args w)))
         = (engine_calls (log w)
            ++ [SetContent html (match a_timeoutMs args with Some t => t | None => 15000 end)])%list
      /\ match answer (next_outcome w) with
         | Done _ =>
             fst (setContent args w) = Ok tt
             /\ counted (now w) w (snd (setContent args w))
         | Failed m =>
             fst (setContent args w)
             = Throw (EyesError INTERNAL (if String.eqb m "" then "Unexpected error" else m)
                                None (Some (JsError m)))
             /\ errored w (snd (setContent args w))
         end
  end.
Proof.
  intros Hp.
  destruct (a_html args) as [html|] eqn:Eh.
  2:{ unfold setContent. rewrite bind_Date_now, bind_requirePage by exact Hp.
      rewrite Eh. reflexivity. }
  assert (Ho : once_at (now w) (setContent args) w).
  { unfold setContent, once_at.
    rewrite bind_Date_now, bind_requirePage by exact Hp. rewrite Eh. cbv zeta.
    match goal with
    | |- context [try_catch ?b ?h ?w] =>
        let H := fresh in
        assert (H : once (now w) (try_catch b h)) by once_by; exact (H w)
    end. }
  split; [exact Ho|].
  unfold once_at in Ho. unfold setContent in *.
  rewrite bind_Date_now, bind_requirePage in * by exact Hp. rewrite Eh in *.
  cbv zeta in *.
  destruct (answer (next_outcome w)) as [v|m] eqn:Ea.
  - erewrite try_call_done in *; [|exact Ea|nt|exact Ea|nt].
    match goal with
    | |- context [fst (?K ?w1)] =>
        assert (Hnt : never_throws K) by nt;
        assert (Hei : respects engine_idle K)
          by (ei; first [apply ei_trace|apply ei_afterAction]);
        destruct (nt_result w1 Hnt) as [[] Hr]; specialize (Hei w1);
        rewrite Hr in *
    end.
    cbn [fst snd] in *. destruct Hei as [_ Hei]. rewrite Hei, calls_served.
    unfold dflt. repeat split. exact Ho.
  - erewrite try_call_failed in * by exact Ea.
    destruct (@rethrow_typed "setContent" (now w) (JsError m)
                (served (SetContent html (dflt 15000 (a_timeoutMs args))) w))
      as (R1 & R2 & R3).
    cbv zeta in *. rewrite R1 in *. destruct R3 as [_ R3].
    rewrite R3, calls_served. unfold dflt.
    split; [reflexivity|]. split; [|exact Ho].
    cbn. destruct (String.eqb m ""); reflexivity.
Qed.

Lemma setContent_updates_witness :
  once_at (now opened) (setContent html_args) opened
  /\ engine_calls (log (snd (setContent html_args opened)))
     = (engine_calls (log opened) ++ [SetContent "<p>hi</p>" 15000])%list
  /\ fst (setContent html_args opened) = Ok tt
  /\ counted (now opened) opened (snd (setContent html_args opened)).
Proof. apply (@setContent_updates html_args opened). reflexivity. Defined.

(** X8: on an open session [screenshot] asks the engine once, for an
    image of the format given (webp when none is given) with the
    quality given (70 for webp and none for other formats when none is
    given).  When the engine answers with bytes, it returns these
    bytes, their data URL and the mime type, [image/png] for the format
    [png] and [image/webp] for every other format, and is counted as
    one completed action; when the engine fails, it throws the
    [INTERNAL] error that carries the message of the failure and
    leaves the metrics as they were: it is not counted as an error. *)
Theorem screenshot_updates (args : ShotArgs) (w : World AgentEyes) :
  page (state w) = true ->
  let type := match s_format args with
              | Some f => if String.eqb f "" then "webp" else f
              | None => "webp"
              end in
  let quality := match s_quality args with
                 | Some q => Some q
                 | None => if String.eqb type "webp" then Some 70 else None
                 end in
  let mime := if str_is (s_format args) "png" then "image/png" else "image/webp" in
  engine_calls (log (snd (screenshot args w)))
  = (engine_calls (log w)
     ++ [Screenshot type quality (match s_fullPage args with Some f => f | None => false end)])%list
  /\ (forall b,
        answer (next_outcome w) = Done (VBytes b) ->
        fst (screenshot args w) = Ok (mkShot b (Artifacts.toDataURL b mime) mime))
  /\ (forall v,
        answer (next_outcome w) = Done v ->
        (exists shot, fst (screenshot args w) = Ok shot)
        /\ counted (now w) w (snd (screenshot args w)))
  /\ (forall m,
        answer (next_outcome w) = Failed m ->
        fst (screenshot args w)
        = Throw (EyesError INTERNAL (if String.eqb m "" then "Unexpected error" else m)
                           None (Some (JsError m)))
        /\ same_metrics w (snd (screenshot args w))).
Proof.
  intros Hp. cbv zeta.
  assert (Et : (if truthy (s_format args) then str (s_format args) else "webp")
               = match s_format args with
                 | Some f => if String.eqb f "" then "webp" else f
                 | None => "webp"
                 end).
  { unfold truthy, str, dflt. destruct (s_format args) as [f|]; [|reflexivity].
    destruct (String.eqb f ""); reflexivity. }
  assert (Em : (if String.eqb (if truthy (s_format args) then str (s_format args) else "webp") "png"
                then "image/png" else "image/webp")
               = if str_is (s_format args) "png" then "image/png" else "image/webp").
  { unfold str_is, truthy, str, dflt. destruct (s_format args) as [f|]; [|reflexivity].
    destruct (String.eqb_spec f ""); [subst; reflexivity|]. reflexivity. }
  unfold screenshot.
  rewrite bind_Date_now, bind_requirePage by exact Hp. cbv zeta.
  rewrite Em, Et.
  match goal with |- context [fst (?m w)] =>
    assert (Hc : counts (now w) m) by counts_by; specialize (Hc w)
  end.
  rewrite bind_try_call in *.
  destruct (answer (next_outcome w)) as [v|m] eqn:Ea.
  - match goal with
    | |- context [fst (bind ?t ?k ?w1)] =>
        assert (Hnt : never_throws (bind t k)) by nt;
        destruct (nt_result w1 Hnt) as [shot Hr];
        assert (Hei : respects engine_idle (bind t k))
          by (ei; first [apply ei_trace|apply ei_afterAction]);
        specialize (Hei w1)
    end.
    pose proof Hr as Hr'.
    apply bind_inv_ok in Hr'. destruct Hr' as ([] & w2 & _ & Hr').
    apply bind_inv_ok in Hr'. destruct Hr' as ([] & w3 & _ & Hr').
    injection Hr' as Hs _.
    rewrite Hr in *. cbn [fst snd] in *. destruct Hei as [_ Hei].
    rewrite Hei, calls_served. unfold dflt.
    split; [reflexivity|]. split; [|split].
    + intros b Hb. injection Hb as ->. rewrite <- Hs. reflexivity.
    + intros v' _. split; [eauto|exact Hc].
    + intros m; discriminate.
  - cbn [fst snd] in *. rewrite calls_served. unfold dflt.
    split; [reflexivity|]. split; [|split].
    + intros b; discriminate.
    + intros v; discriminate.
    + intros m' Hm. injection Hm as <-. split; [|exact Hc].
      cbn. destruct (String.eqb m ""); reflexivity.
Qed.

Lemma screenshot_updates_witness :
  engine_calls (log (snd (screenshot (mkShotArgs None (Some "png") None) shooting)))
  = (engine_calls (log shooting) ++ [Screenshot "png" None false])%list
  /\ (forall b,
        answer (next_outcome shooting) = Done (VBytes b) ->
        fst (screenshot (mkShotArgs None (Some "png") None) shooting)
        = Ok (mkShot b (Artifacts.toDataURL b "image/png") "image/png"))
  /\ (forall v,
        answer (next_outcome shooting) = Done v ->
        (exists shot, fst (screenshot (mkShotArgs None (Some "png") None) shooting) = Ok shot)
        /\ counted (now shooting) shooting
             (snd (screenshot (mkShotArgs None (Some "png") None) shooting)))
  /\ (forall m,
        answer (next_outcome shooting) = Failed m ->
        fst (screenshot (mkShotArgs None (Some "png") None) shooting)
        = Throw (EyesError INTERNAL (if String.eqb m "" then "Unexpected error" else m)
                           None (Some (JsError m)))
        /\ same_metrics shooting
             (snd (screenshot (mkShotArgs None (Some "png") None) shooting))).
Proof.
  apply (@screenshot_updates (mkShotArgs None (Some "png") None) shooting). reflexivity.
Defined.

(** X9: [dom] is not instrumented: on an open session it never changes
    the metrics, writes no trace and emits no event, and an error of
    the engine comes out as it is, untyped. *)
Theorem dom_is_not_instrumented (opts : Artifacts.DomOpts) (w : World AgentEyes) :
  page (state w) = true ->
  state (snd (dom opts w)) = state w
  /\ log (snd (dom opts w)) = (log w ++ [Called DocumentElement])%list
  /\ (forall e, fst (dom opts w) = Throw e -> untyped e)
  /\ (forall m, answer (next_outcome w) = Failed m ->
                fst (dom opts w) = Throw (JsError m)).
Proof.
  intros Hp. unfold dom. rewrite bind_requirePage by exact Hp.
  unfold Artifacts.serializeDOM, bind, call, ret.
  destruct (answer (next_outcome w)) as [v|m]; cbn [fst snd served state log].
  - repeat split; try discriminate.
  - repeat split.
    + intros e H. injection H as <-. reflexivity.
    + intros m' H. injection H as <-. reflexivity.
Qed.

Lemma dom_is_not_instrumented_witness :
  let opts := Artifacts.mkDomOpts None None in
  state (snd (dom opts failing)) = state failing
  /\ log (snd (dom opts failing)) = (log failing ++ [Called DocumentElement])%list
  /\ (forall e, fst (dom opts failing) = Throw e -> untyped e)
  /\ (forall m, answer (next_outcome failing) = Failed m ->
                fst (dom opts failing) = Throw (JsError m)).
Proof.
  apply (@dom_is_not_instrumented (Artifacts.mkDomOpts None None) failing). reflexivity.
Defined.

(** ** [open] *)

Ltac open_cases :=
  repeat match goal with
         | |- context [match answer ?o with _ => _ end] => destruct (answer o)
         | |- context [if Security.not_false ?b then _ else _] =>
             destruct (Security.not_false b)
         end.

Lemma open_noop (w : World AgentEyes) :
  browser (state w) = true -> open w = (Ok tt, w).
Proof. intros Hb. unfold open. rewrite bind_get, Hb. reflexivity. Qed.

(** X10: [open] does nothing on a session that has a browser handle,
    whatever else it has.  From a session without handles, an [open]
    that returns has set the three handles and the frame timer, so that
    a second [open] does nothing. *)
Theorem open_is_idempotent (w : World AgentEyes) :
  (browser (state w) = true -> open w = (Ok tt, w))
  /\ (unopened (state w) -> fst (open w) = Ok tt ->
      let w1 := snd (open w) in
      browser (state w1) = true /\ context (state w1) = true
      /\ page (state w1) = true /\ _frameInterval (state w1) = true
      /\ open w1 = (Ok tt, w1)).
Proof.
  split.
  - apply open_noop.
  - intros (Hb & Hc & Hp) Hok.
    assert (Hset : let w1 := snd (open w) in
                   browser (state w1) = true /\ context (state w1) = true
                   /\ page (state w1) = true /\ _frameInterval (state w1) = true).
    { revert Hok.
      cbv beta iota zeta delta [open bind get call modify _startFrameStream
                                _requirePage ret throw].
      rewrite Hb. open_cases; cbn; try discriminate; auto. }
    cbv zeta in *. destruct Hset as (H1 & H2 & H3 & H4).
    repeat split; try assumption.
    apply open_noop. exact H1.
Qed.

Lemma open_is_idempotent_witness :
  (browser (state fresh) = true -> open fresh = (Ok tt, fresh))
  /\ (unopened (state fresh) -> fst (open fresh) = Ok tt ->
      let w1 := snd (open fresh) in
      browser (state w1) = true /\ context (state w1) = true
      /\ page (state w1) = true /\ _frameInterval (state w1) = true
      /\ open w1 = (Ok tt, w1)).
Proof. apply (@open_is_idempotent fresh). Defined.

(** X11: when the engine launches the browser and then fails to create
    the context, [open] throws the error of the engine and leaves a
    session with a browser handle and without page: every further
    [open] does nothing, the actions fail with ['Eyes not opened'], and
    only [close] brings the session back to a state from which [open]
    launches again. *)
Theorem failed_open_sticks (w : World AgentEyes) o1 o2 rest v m :
  unopened (state w) ->
  engine w = o1 :: o2 :: rest ->
  answer o1 = Done v ->
  answer o2 = Failed m ->
  let w1 := snd (open w) in
  fst (open w) = Throw (JsError m)
  /\ browser (state w1) = true /\ page (state w1) = false
  /\ open w1 = (Ok tt, w1)
  /\ (forall args, click args w1 = (Throw not_open, w1))
  /\ unopened (state (snd (close w1))).
Proof.
  intros (Hb & Hc & Hp) He H1 H2.
  assert (Hopen : fst (open w) = Throw (JsError m)
                  /\ browser (state (snd (open w))) = true
                  /\ page (state (snd (open w))) = false).
  { cbv beta iota zeta delta [open bind get call modify next_outcome served
                              _startFrameStream _requirePage ret throw].
    rewrite Hb, He. cbn. rewrite H1. cbn. rewrite H2. cbn.
    repeat split. exact Hp. }
  cbv zeta. destruct Hopen as (E1 & E2 & E3).
  split; [exact E1|]. split; [exact E2|]. split; [exact E3|].
  split; [apply open_noop; exact E2|].
  split.
  - intros args. generalize dependent (snd (open w)). intros w1 _ E3.
    unfold click.
    rewrite bind_Date_now, bind_requirePage_closed by exact E3. reflexivity.
  - destruct (LifecycleFacts.close_clears (snd (open w))) as (C1 & C2 & C3 & _).
    repeat split; assumption.
Qed.

Lemma failed_open_sticks_witness :
  let w1 := snd (open half_open) in
  fst (open half_open) = Throw (JsError "browser has been closed")
  /\ browser (state w1) = true /\ page (state w1) = false
  /\ open w1 = (Ok tt, w1)
  /\ (forall args, click args w1 = (Throw not_open, w1))
  /\ unopened (state (snd (close w1))).
Proof.
  apply (@failed_open_sticks half_open
           (mkOutcome 900 (Done VUndefined))
           (mkOutcome 20 (Failed "browser has been closed")) [] VUndefined
           "browser has been closed");
    repeat split; reflexivity.
Defined.

End SessionFacts.

(* ===================================================================== *)
(** * Properties of the buffer readers and of the metrics report *)
(* ===================================================================== *)

Module BufferFacts.
Import Engine Eyes Sample Notions Buffers MonadFacts RespectFacts RingFacts ActionFacts.

Lemma lastn_lastn {A} n m (l : list A) :
  lastn n (lastn m l) = lastn (Nat.min n m) l.
Proof.
  unfold lastn. rewrite length_skipn, skipn_skipn. f_equal. lia.
Qed.

Lemma slice_from_last {A} n (l : list A) :
  1 <= n -> slice_from (- n) l = lastn (Z.to_nat n) l.
Proof.
  intros H. unfold slice_from, lastn.
  destruct (Z.ltb_spec (- n) 0); [|lia]. f_equal. lia.
Qed.

Lemma slice_from_zero {A} (l : list A) : slice_from (- 0) l = l.
Proof.
  unfold slice_from. cbn [Z.opp Z.ltb Z.compare].
  rewrite Z.min_l by lia. reflexivity.
Qed.

(** X12: [getConsole(n)] and [getNetwork(n)] return the last [n]
    entries of their buffer, in order, for [n >= 1] (100 and 200 when
    [n] is left out), and the whole buffer for [n = 0].  After any
    sequence of page events on a session whose buffers are within their
    capacities, [getConsole(n)] is the last [min n 500] records of
    everything that was reported, and [getNetwork(n)] the last
    [min n 1000]. *)
Theorem readers_return_most_recent (n : Z) (evs : list PageEvent)
    (w : World AgentEyes) :
  1 <= n ->
  (List.length (_console (state w)) <= 500)%nat ->
  (List.length (_network (state w)) <= 1000)%nat ->
  let s := state w in
  let s' := state (snd (deliver evs w)) in
  getConsole (Some n) s = lastn (Z.to_nat n) (_console s)
  /\ getNetwork (Some n) s = lastn (Z.to_nat n) (_network s)
  /\ getConsole None s = lastn 100 (_console s)
  /\ getNetwork None s = lastn 200 (_network s)
  /\ getConsole (Some 0) s = _console s
  /\ getNetwork (Some 0) s = _network s
  /\ getConsole (Some n) s'
     = lastn (Nat.min (Z.to_nat n) 500)
             (_console s ++ console_recs (now w) evs)
  /\ getNetwork (Some n) s'
     = lastn (Nat.min (Z.to_nat n) 1000)
             (_network s ++ network_recs (now w) evs).
Proof.
  intros Hn Hc Hk. cbv zeta.
  destruct (deliver_pushes evs w) as (_ & _ & Ec & En).
  cbv zeta in Ec, En.
  rewrite (@push_all_lastn _ _ _ 500) in Ec by (cbn; lia).
  rewrite (@push_all_lastn _ _ _ 1000) in En by (cbn; lia).
  change (Z.to_nat 500) with 500%nat in Ec.
  change (Z.to_nat 1000) with 1000%nat in En.
  unfold getConsole, getNetwork. cbn [dflt].
  rewrite Ec, En, <- !lastn_lastn.
  repeat split; try (apply slice_from_last; lia);
    try (apply (@slice_from_last _ 100); lia);
    try (apply (@slice_from_last _ 200); lia); apply slice_from_zero.
Qed.

Lemma readers_return_most_recent_witness :
  let s := state fresh in
  let s' := state (snd (deliver messages fresh)) in
  getConsole (Some 700) s = lastn (Z.to_nat 700) (_console s)
  /\ getNetwork (Some 700) s = lastn (Z.to_nat 700) (_network s)
  /\ getConsole None s = lastn 100 (_console s)
  /\ getNetwork None s = lastn 200 (_network s)
  /\ getConsole (Some 0) s = _console s
  /\ getNetwork (Some 0) s = _network s
  /\ getConsole (Some 700) s'
     = lastn (Nat.min (Z.to_nat 700) 500)
             (_console s ++ console_recs (now fresh) messages)
  /\ getNetwork (Some 700) s'
     = lastn (Nat.min (Z.to_nat 700) 1000)
             (_network s ++ network_recs (now fresh) messages).
Proof.
  apply (@readers_return_most_recent 700 messages fresh); cbn; lia.
Defined.

Lemma kp_refl w : keeps_page w w.
Proof. reflexivity. Qed.

Lemma kp_trans a b c : keeps_page a b -> keeps_page b c -> keeps_page a c.
Proof. unfold keeps_page. congruence. Qed.

Lemma kp_call c : respects keeps_page (call c).
Proof. intros w. unfold call. destruct (answer (next_outcome w)); reflexivity. Qed.

Lemma kp_tell e : respects keeps_page (tell e).
Proof. intros w. reflexivity. Qed.

Lemma kp_modify f :
  (forall s, page (f s) = page s) -> respects keeps_page (modify f).
Proof. intros H w. apply H. Qed.

Lemma kp_Math_random : respects keeps_page (@Math_random AgentEyes).
Proof. intros w. unfold Math_random. destruct (random w); reflexivity. Qed.

Ltac kp_base :=
  first [ apply kp_call | apply kp_tell
        | apply kp_modify; intros; reflexivity | apply kp_Math_random ].

Ltac kp := respects_by kp_refl kp_trans kp_base.

Lemma kp_invoke i : respects keeps_page (invoke i).
Proof.
  destruct i; cbn [invoke];
    unfold click, wait, scroll, keys, exec, _requirePage, _trace, _afterAction,
      errors_incr, _microIdle, _suggestSelectors; kp.
Qed.

Lemma invoke_once i w :
  page (state w) = true -> once_at (now w) (invoke i) w.
Proof.
  intros Hp. destruct i; cbn [invoke].
  - apply click_once, Hp.
  - apply wait_once, Hp.
  - apply scroll_once, Hp.
  - apply keys_once, Hp.
  - pose proof (exec_once args w Hp) as H. unfold once_at in *.
    unfold bind, ret. destruct (exec args w) as [[v|e] w1]; exact H.
Qed.

(** The counters after a sequence of invocations. *)
Lemma invoke_all_counts l : forall w,
  page (state w) = true ->
  actions (_metrics (state (snd (invoke_all l w))))
  = actions (_metrics (state w)) + count_returned (fst (invoke_all l w))
  /\ errors (_metrics (state (snd (invoke_all l w))))
     = errors (_metrics (state w)) + count_thrown (fst (invoke_all l w))
  /\ 0 <= count_returned (fst (invoke_all l w))
  /\ 0 <= count_thrown (fst (invoke_all l w))
  /\ count_returned (fst (invoke_all l w)) + count_thrown (fst (invoke_all l w))
     = Z.of_nat (List.length l).
Proof.
  induction l as [|i l IH]; intros w Hp; cbn [invoke_all fst snd].
  - cbn. repeat split; lia.
  - pose proof (@invoke_once i w Hp) as Ho. pose proof (kp_invoke i w) as Hk.
    unfold once_at, keeps_page in *.
    destruct (invoke i w) as [[[]|e] w1]; cbn [fst snd] in *;
      rewrite Hp in Hk;
      destruct (IH w1 Hk) as (A & B & C & D & F);
      cbn [count_returned count_thrown List.length];
      rewrite A, B; unfold counted, errored in Ho; rewrite Ho; cbn [actions errors];
      repeat split; lia.
Qed.

(** X13: [errors] counts the actions that failed and [actions] only
    the ones that completed.  After a sequence of invocations of
    [click], [wait], [scroll], [keys] and [exec] on an open session
    whose counters are zero, [actions] is the number of invocations
    that returned and [errors] the number of those that threw, so the
    error rate of [metrics()] is the number of failures divided by the
    number of completed actions, not a fraction of the invocations: it
    is [0] when every invocation failed, and greater than [1] when the
    failures outnumber the completed actions. *)
Theorem errorRate_is_failures_per_success (l : list Invocation)
    (w : World AgentEyes) :
  page (state w) = true ->
  actions (_metrics (state w)) = 0 ->
  errors (_metrics (state w)) = 0 ->
  let rs := fst (invoke_all l w) in
  let s := state (snd (invoke_all l w)) in
  actions (_metrics s) = count_returned rs
  /\ errors (_metrics s) = count_thrown rs
  /\ count_returned rs + count_thrown rs = Z.of_nat (List.length l)
  /\ errorRate (metrics s)
     = (if count_returned rs =? 0 then 0%Q
        else (inject_Z (count_thrown rs) / inject_Z (count_returned rs))%Q)
  /\ (count_returned rs = 0 -> errorRate (metrics s) = 0%Q)
  /\ (0 < count_returned rs < count_thrown rs -> (1 < errorRate (metrics s))%Q).
Proof.
  intros Hp Ha He. cbv zeta.
  destruct (@invoke_all_counts l w Hp) as (A & B & C & D & F).
  rewrite Ha in A. rewrite He in B. cbn in A, B.
  assert (R : errorRate (metrics (state (snd (invoke_all l w))))
              = (if count_returned (fst (invoke_all l w)) =? 0 then 0%Q
                 else (inject_Z (count_thrown (fst (invoke_all l w)))
                       / inject_Z (count_returned (fst (invoke_all l w))))%Q)).
  { unfold metrics. cbn [errorRate]. rewrite A, B. reflexivity. }
  split; [exact A|]. split; [exact B|]. split; [exact F|]. split; [exact R|].
  rewrite R. split.
  - intros H. rewrite H. reflexivity.
  - intros [H1 H2].
    destruct (Z.eqb_spec (count_returned (fst (invoke_all l w))) 0); [lia|].
    apply Qlt_shift_div_l.
    + change 0%Q with (inject_Z 0). rewrite <- Zlt_Qlt. exact H1.
    + rewrite Qmult_1_l. rewrite <- Zlt_Qlt. exact H2.
Qed.

Lemma errorRate_is_failures_per_success_witness :
  let rs := fst (invoke_all burst jammed) in
  let s := state (snd (invoke_all burst jammed)) in
  actions (_metrics s) = count_returned rs
  /\ errors (_metrics s) = count_thrown rs
  /\ count_returned rs + count_thrown rs = Z.of_nat (List.length burst)
  /\ errorRate (metrics s)
     = (if count_returned rs =? 0 then 0%Q
        else (inject_Z (count_thrown rs) / inject_Z (count_returned rs))%Q)
  /\ (count_returned rs = 0 -> errorRate (metrics s) = 0%Q)
  /\ (0 < count_returned rs < count_thrown rs -> (1 < errorRate (metrics s))%Q).
Proof.
  apply (@errorRate_is_failures_per_success burst jammed); reflexivity.
Defined.

(** In the example two invocations fail and one completes. *)
Lemma burst_on_jammed :
  count_returned (fst (invoke_all burst jammed)) = 1
  /\ count_thrown (fst (invoke_all burst jammed)) = 2.
Proof. vm_compute. split; reflexivity. Qed.

End BufferFacts.

(* ===================================================================== *)
(** * An invariant of the log: keyboard delays *)
(* ===================================================================== *)

Module DelayFacts.
Import Engine Eyes Runner Sample Notions Plans MonadFacts RespectFacts ActionFacts.
Local Open Scope eyes_scope.

Lemma kd_refl w : keeps_delays w w.
Proof. intros H. exact H. Qed.

Lemma kd_trans a b c : keeps_delays a b -> keeps_delays b c -> keeps_delays a c.
Proof. unfold keeps_delays. auto. Qed.

Lemma kd_modify f : respects keeps_delays (modify f).
Proof. intros w H. exact H. Qed.

Lemma kd_Math_random : respects keeps_delays (@Math_random AgentEyes).
Proof. intros w H. unfold Math_random. destruct (random w); exact H. Qed.

Lemma kd_tell e :
  match e with
  | Called _ => False
  | _ => True
  end ->
  respects keeps_delays (tell e).
Proof.
  intros He w H. cbn. unfold delays_clamped in *.
  apply Forall_app. split; [exact H|]. constructor; [|constructor].
  destruct e; try exact I; contradiction.
Qed.

Lemma kd_call c :
  match c with
  | KeyboardType _ (Whole delay) => 0 <= delay <= 200
  | KeyboardType _ NaN => False
  | _ => True
  end ->
  respects keeps_delays (call c).
Proof.
  intros Hc w H. unfold call.
  assert (G : delays_clamped (log (served c w))).
  { cbn. unfold delays_clamped in *. apply Forall_app. split; [exact H|].
    constructor; [exact Hc|constructor]. }
  destruct (answer (next_outcome w)); exact G.
Qed.

(** The clamp of [type]: an integer comes out between 0 and 200. *)
Lemma clamp_whole (delayMs : option Num) :
  delayMs <> Some NaN ->
  exists d,
    Math_min (Math_max (dflt (Whole 20) delayMs) (Whole 0)) (Whole 200) = Whole d
    /\ 0 <= d <= 200.
Proof.
  intros H. destruct delayMs as [[n|]|]; cbn.
  - eexists. split; [reflexivity|lia].
  - congruence.
  - eexists. split; [reflexivity|lia].
Qed.

Ltac kd_base :=
  first [ apply kd_modify | apply kd_Math_random
        | apply kd_tell; exact I
        | apply kd_call; exact I ].

Ltac kd := respects_by kd_refl kd_trans kd_base.

Lemma kd_trace ev start ok err : respects keeps_delays (_trace ev start ok err).
Proof. unfold _trace. kd. Qed.

Lemma kd_afterAction action start : respects keeps_delays (_afterAction action start).
Proof. unfold _afterAction. kd. Qed.

Lemma kd_errors_incr : respects keeps_delays errors_incr.
Proof. unfold errors_incr. kd. Qed.

Lemma kd_requirePage : respects keeps_delays _requirePage.
Proof. unfold _requirePage. kd. Qed.

Lemma kd_microIdle : respects keeps_delays _microIdle.
Proof. unfold _microIdle. kd. Qed.

Lemma kd_suggestSelectors s : respects keeps_delays (_suggestSelectors s).
Proof. unfold _suggestSelectors. kd; apply kd_requirePage. Qed.

Ltac kd_known :=
  first [ apply kd_trace | apply kd_afterAction | apply kd_errors_incr
        | apply kd_requirePage | apply kd_microIdle
        | apply kd_suggestSelectors | kd_base ].

Ltac kd_action := respects_by kd_refl kd_trans kd_known.

Lemma kd_navigate args : respects keeps_delays (navigate args).
Proof. unfold navigate. kd_action. Qed.

Lemma kd_wait args : respects keeps_delays (wait args).
Proof. unfold wait. kd_action. Qed.

Lemma kd_click args : respects keeps_delays (click args).
Proof. unfold click. kd_action. Qed.

Lemma kd_type args : whole_delay args -> respects keeps_delays (type args).
Proof.
  intros Hd. unfold type.
  destruct (clamp_whole Hd) as (d & -> & Hr).
  respects_by kd_refl kd_trans
    ltac:(first [ kd_known | apply kd_call; exact Hr ]).
Qed.

Lemma kd_scroll args : respects keeps_delays (scroll args).
Proof. unfold scroll. kd_action. Qed.

Lemma kd_keys args : respects keeps_delays (keys args).
Proof. unfold keys. kd_action. Qed.

Lemma kd_exec args : respects keeps_delays (exec args).
Proof. unfold exec. kd_action. Qed.

Lemma kd_screenshot args : respects keeps_delays (screenshot args).
Proof. unfold screenshot. kd_action. Qed.

Lemma kd_dom opts : respects keeps_delays (dom opts).
Proof. unfold dom, Artifacts.serializeDOM. kd_action. Qed.

Lemma kd_state : respects keeps_delays state_.
Proof. unfold state_. kd_action. Qed.

Lemma kd_dispatch action args :
  whole_delay args -> respects keeps_delays (_dispatch action args).
Proof.
  intros Hd. unfold _dispatch.
  repeat match goal with
         | |- respects _ (if ?b then _ else _) => destruct b
         end;
    first [ apply kd_navigate | apply kd_click | apply kd_type, Hd | apply kd_wait
          | apply kd_scroll | apply kd_keys
          | apply (@r_bind _ _ kd_trans); [apply kd_exec|intros; apply (@r_ret _ _ kd_refl)]
          | apply (@r_throw _ _ kd_refl) ].
Qed.

Lemma kd_attempt_loop remaining i attempts action args :
  whole_delay args ->
  respects keeps_delays (attempt_loop remaining i attempts action args).
Proof.
  intros Hd. revert i. induction remaining as [|k IH]; intros i; cbn [attempt_loop].
  - apply (@r_ret _ _ kd_refl).
  - apply (@r_try _ _ kd_trans); [apply kd_dispatch, Hd|]. intros e. cbv zeta.
    destruct (negb _); [|apply (@r_throw _ _ kd_refl)].
    apply (@r_bind _ _ kd_trans); [apply kd_Math_random|]. intros u.
    apply (@r_bind _ _ kd_trans); [apply kd_wait|]. intros _. apply IH.
Qed.

Lemma kd_execute step :
  whole_delay (dflt noArgs (args step)) -> respects keeps_delays (_execute step).
Proof. intros Hd. unfold _execute. apply kd_attempt_loop, Hd. Qed.

Lemma kd_step_loop plan started l :
  Forall (fun s => whole_delay (dflt noArgs (args s))) l ->
  forall lastError, respects keeps_delays (step_loop plan started l lastError).
Proof.
  induction 1 as [|step l Hd _ IH]; intros lastError; cbn [step_loop].
  - apply (@r_ret _ _ kd_refl).
  - apply (@r_bind _ _ kd_trans).
    + apply (@r_try _ _ kd_trans).
      * apply (@r_bind _ _ kd_trans); [apply kd_execute, Hd|].
        intros. apply (@r_ret _ _ kd_refl).
      * intros. apply (@r_ret _ _ kd_refl).
    + intros failure. cbv zeta.
      destruct (andb _ _); [apply (@r_ret _ _ kd_refl)|].
      apply (@r_bind _ _ kd_trans); [apply (@r_Date_now _ _ kd_refl)|]. intros t.
      destruct (match maxDurationMs plan with Some _ => _ | None => _ end);
        [apply (@r_ret _ _ kd_refl)|apply IH].
Qed.

Lemma kd_run p l :
  steps p = Some l ->
  Forall (fun s => whole_delay (dflt noArgs (args s))) l ->
  respects keeps_delays (run (Some p)).
Proof.
  intros Hs Hd. unfold run. rewrite Hs.
  cbv zeta. destruct (_ >? _); [apply (@r_throw _ _ kd_refl)|].
  respects_by kd_refl kd_trans
    ltac:(first [ apply (kd_step_loop _ _ Hd) | apply kd_screenshot | apply kd_dom
                | apply kd_state | kd_base ]).
Qed.

(** What [type] asks of the keyboard when the engine accepts the two
    calls on the locator. *)
Lemma type_types args (w : World AgentEyes) :
  page (state w) = true ->
  truthy (a_selector args) = true ->
  engine_accepts 2 w ->
  In (Called (KeyboardType
                (if truthy (a_text args) then str (a_text args) else "")
                (Math_min (Math_max (dflt (Whole 20) (a_delayMs args)) (Whole 0))
                          (Whole 200))))
     (log (snd (type args w))).
Proof.
  intros Hp Hs A0. unfold type.
  rewrite bind_Date_now, bind_requirePage by exact Hp.
  rewrite Hs. cbn [negb]. cbv zeta.
  set (c := KeyboardType _ _).
  destruct (call_accepts (LocatorWaitFor (BySelector (str (a_selector args)) None) 10000) A0)
    as (v1 & E1 & A1).
  destruct (call_accepts (LocatorClick (BySelector (str (a_selector args)) None) 10000) A1)
    as (v2 & E2 & _).
  match goal with
  | |- In _ (log (snd (try_catch (_ ;;; _ ;;; (call c ;;; ?k)) ?h w))) =>
      assert (Hk : respects log_extends k) by le;
      assert (Hh : forall e, respects log_extends (h e)) by (intros; le);
      set (kk := k) in *; set (hh := h) in *
  end.
  unfold try_catch. unfold bind at 1. rewrite E1. unfold bind at 1. rewrite E2.
  set (w2 := served _ (served _ w)).
  assert (G : In (Called c) (log (served c w2))).
  { cbn [served log]. apply in_or_app. right. left. reflexivity. }
  assert (Ext : forall w', log_extends (served c w2) w' -> In (Called c) (log w')).
  { intros w' [l Hl]. rewrite Hl. apply in_or_app. left. exact G. }
  unfold bind at 1. unfold call at 1.
  destruct (answer (next_outcome w2)).
  - pose proof (Hk (served c w2)) as K.
    destruct (kk (served c w2)) as [[[]|e] w3]; cbn [snd] in *.
    + apply Ext, K.
    + apply Ext. eapply le_trans; [exact K|apply Hh].
  - apply Ext, Hh.
Qed.

(** X14: for a [type] step whose [delayMs] is an integer, or absent,
    the engine types with a delay between 0 and 200 milliseconds:
    every [keyboard.type] call in the log after a run of a plan of such
    steps has its delay in that range.  The clamp does not catch a
    [delayMs] that is [NaN], or that converts to it: [type] then asks
    the keyboard for the delay [NaN]. *)
Theorem keyboard_delay_is_clamped (p : Plan) (l : list Step)
    (w : World AgentEyes) (text : string) (delay : Num) :
  steps p = Some l ->
  Forall (fun s => whole_delay (dflt noArgs (args s))) l ->
  delays_clamped (log w) ->
  In (Called (KeyboardType text delay)) (log (snd (run (Some p) w))) ->
  (exists d, delay = Whole d /\ 0 <= d <= 200)
  /\ (forall args (w' : World AgentEyes),
        page (state w') = true ->
        truthy (a_selector args) = true ->
        engine_accepts 2 w' ->
        a_delayMs args = Some NaN ->
        In (Called (KeyboardType
                      (if truthy (a_text args) then str (a_text args) else "")
                      NaN))
           (log (snd (type args w')))).
Proof.
  intros Hs Hd H G. split.
  - pose proof (@kd_run p l Hs Hd w H) as K. unfold delays_clamped in K.
    rewrite Forall_forall in K. specialize (K _ G). cbn in K.
    destruct delay as [d|]; [eauto|contradiction].
  - intros args w' Hp Hsel Ha Hn.
    pose proof (@type_types args w' Hp Hsel Ha) as T. rewrite Hn in T. exact T.
Qed.

Lemma keyboard_delay_is_clamped_witness :
  (exists d, Whole 200 = Whole d /\ 0 <= d <= 200)
  /\ (forall args (w' : World AgentEyes),
        page (state w') = true ->
        truthy (a_selector args) = true ->
        engine_accepts 2 w' ->
        a_delayMs args = Some NaN ->
        In (Called (KeyboardType
                      (if truthy (a_text args) then str (a_text args) else "")
                      NaN))
           (log (snd (type args w')))).
Proof.
  apply (@keyboard_delay_is_clamped
           (mkPlan "fill" (Some [mkStep "type" (Some slow_typing)]) None None)
           [mkStep "type" (Some slow_typing)] opened "hello" (Whole 200)).
  - reflexivity.
  - repeat constructor. discriminate.
  - unfold delays_clamped. vm_compute. repeat constructor.
  - vm_compute. auto 30.
Defined.

End DelayFacts.


(* ===================================================================== *)
(** * Properties of the loop over the steps of a plan *)
(* ===================================================================== *)

Module PlanFacts.
Import Engine Eyes Runner Sample Notions Plans MonadFacts RespectFacts
       RunFacts ActionFacts SessionFacts.
Local Open Scope eyes_scope.

(** The loop reads the plan for [abortOnError] and [maxDurationMs]
    only. *)
Lemma step_loop_ext p1 p2 :
  abortOnError p1 = abortOnError p2 ->
  (forall started w, over_budget p1 started w = over_budget p2 started w) ->
  forall l started le w,
    step_loop p1 started l le w = step_loop p2 started l le w.
Proof.
  intros Ha Hb l started. induction l as [|step l IH]; intros le w.
  - reflexivity.
  - rewrite !step_loop_cons, Ha.
    destruct (_execute step w) as [[[]|e] w1]; rewrite Hb.
    + destruct (over_budget p2 started w1); [reflexivity|apply IH].
    + destruct (Security.not_false _); [reflexivity|].
      destruct (over_budget p2 started w1); [reflexivity|apply IH].
Qed.

(** Two plans whose loops agree have the same run. *)
Lemma run_ext p1 l1 p2 l2 w :
  steps p1 = Some l1 -> steps p2 = Some l2 ->
  (List.length l1 <= 50)%nat -> (List.length l2 <= 50)%nat ->
  (forall started w0,
     step_loop p1 started l1 None w0 = step_loop p2 started l2 None w0) ->
  run (Some p1) w = run (Some p2) w.
Proof.
  intros H1 H2 L1 L2 H. unfold run. rewrite H1, H2. cbv zeta.
  destruct (Z.gtb_spec (Z.of_nat (List.length l1)) 50); [lia|].
  destruct (Z.gtb_spec (Z.of_nat (List.length l2)) 50); [lia|].
  rewrite !bind_Date_now.
  unfold bind at 1. symmetry. unfold bind at 1. symmetry.
  destruct (Math_random w) as [[u|e] w0]; [|reflexivity].
  unfold bind at 1. symmetry. unfold bind at 1. symmetry.
  rewrite H. reflexivity.
Qed.

(** ** Steps that are never reached *)

Lemma loop_cut p started step rest :
  Security.not_false (abortOnError p) = true ->
  always_throws (_execute step) ->
  forall pre le w,
    step_loop p started (pre ++ step :: rest) le w
    = step_loop p started (pre ++ [step]) le w.
Proof.
  intros Ha Ht pre. induction pre as [|s pre IH]; intros le w.
  - cbn [app]. rewrite !step_loop_cons, Ha.
    specialize (Ht w). destruct (_execute step w) as [[[]|e] w1]; cbn in Ht.
    + discriminate.
    + reflexivity.
  - cbn [app]. rewrite !step_loop_cons.
    destruct (_execute s w) as [[[]|e] w1].
    + destruct (over_budget p started w1); [reflexivity|apply IH].
    + destruct (Security.not_false _); [reflexivity|].
      destruct (over_budget p started w1); [reflexivity|apply IH].
Qed.

(** X15: unless [abortOnError] is [false], the steps that follow a step
    that cannot succeed are dead: the run of the plan is the run of the
    plan cut after that step, with the same report and the same
    effects. *)
Theorem steps_after_sure_failure_are_dead (p : Plan) (pre rest : list Step)
    (step : Step) (w : World AgentEyes) :
  abortOnError p <> Some false ->
  always_throws (_execute step) ->
  (List.length (pre ++ step :: rest) <= 50)%nat ->
  run (Some (with_steps p (pre ++ step :: rest))) w
  = run (Some (with_steps p (pre ++ [step]))) w.
Proof.
  intros Ha Ht Hl.
  assert (Ha' : Security.not_false (abortOnError p) = true).
  { destruct (abortOnError p) as [[]|]; try reflexivity. congruence. }
  apply run_ext with (l1 := (pre ++ step :: rest)%list) (l2 := (pre ++ [step])%list);
    try reflexivity; try exact Hl.
  - rewrite length_app in *. cbn [List.length] in *. lia.
  - intros started w0.
    rewrite (@step_loop_ext (with_steps p (pre ++ step :: rest)) p) by reflexivity.
    rewrite (@step_loop_ext (with_steps p (pre ++ [step])) p) by reflexivity.
    apply loop_cut; assumption.
Qed.

Lemma hover_always_throws : always_throws (_execute hover).
Proof. intros w. reflexivity. Qed.

Lemma steps_after_sure_failure_are_dead_witness :
  let p := mkPlan "fill the form" None None None in
  run (Some (with_steps p ([press_enter] ++ hover :: [press_enter; press_enter]))) opened
  = run (Some (with_steps p ([press_enter] ++ [hover]))) opened.
Proof.
  apply (@steps_after_sure_failure_are_dead
           (mkPlan "fill the form" None None None)
           [press_enter] [press_enter; press_enter] hover opened).
  - discriminate.
  - exact hover_always_throws.
  - cbn. lia.
Defined.

(** ** A failure is kept *)

Lemma loop_keeps_failure p started l :
  forall e w, exists e',
    fst (step_loop p started l (Some e) w) = Ok (Some e').
Proof.
  induction l as [|step l IH]; intros e w.
  - exists e. reflexivity.
  - rewrite step_loop_cons.
    destruct (_execute step w) as [[[]|e1] w1].
    + destruct (over_budget p started w1); [exists e; reflexivity|apply IH].
    + destruct (Security.not_false _); [exists e1; reflexivity|].
      destruct (over_budget p started w1); [exists e1; reflexivity|apply IH].
Qed.

Lemma unlimited_never_over p started w :
  unlimited p -> over_budget p started w = false.
Proof. unfold over_budget. intros [H|H]; rewrite H; reflexivity. Qed.

Lemma loop_meets_failure p started step l :
  unlimited p ->
  always_throws (_execute step) ->
  In step l ->
  forall le w, exists e,
    fst (step_loop p started l le w) = Ok (Some e).
Proof.
  intros Hu Ht. induction l as [|s l IH]; intros Hin le w.
  - contradiction.
  - rewrite step_loop_cons.
    destruct Hin as [->|Hin].
    + specialize (Ht w). destruct (_execute step w) as [[[]|e1] w1]; cbn in Ht.
      * discriminate.
      * rewrite (unlimited_never_over _ _ Hu).
        destruct (Security.not_false _); [exists e1; reflexivity|].
        apply loop_keeps_failure.
    + destruct (_execute s w) as [[[]|e1] w1];
        rewrite (unlimited_never_over _ _ Hu).
      * apply IH, Hin.
      * destruct (Security.not_false _); [exists e1; reflexivity|].
        apply loop_keeps_failure.
Qed.

(** X16: a plan without a time budget that contains a step that cannot
    succeed never reports success, with or without [abortOnError]: a
    failure, once met, is kept to the end of the loop. *)
Theorem sure_failure_is_reported (p : Plan) (l : list Step) (step : Step)
    (w : World AgentEyes) :
  steps p = Some l ->
  (List.length l <= 50)%nat ->
  unlimited p ->
  In step l ->
  always_throws (_execute step) ->
  exists report info w',
    run (Some p) w = (Ok report, w')
    /\ success report = false
    /\ error report = Some info.
Proof.
  intros Hs Hl Hu Hin Ht.
  destruct (@run_loop_report p l w Hs Hl) as (le & report & w' & Hle & Hrun & Hok & Herr).
  destruct (@loop_meets_failure p (now w) step l Hu Ht Hin None
                                (snd (Math_random w))) as [e He].
  rewrite He in Hle. injection Hle as <-.
  exists report, (_errorInfo e), w'. auto.
Qed.

Lemma sure_failure_is_reported_witness :
  exists report info w',
    run (Some (mkPlan "press and hover" (Some [press_enter; hover; press_enter])
                      (Some false) None)) opened
    = (Ok report, w')
    /\ success report = false
    /\ error report = Some info.
Proof.
  apply (@sure_failure_is_reported
           (mkPlan "press and hover" (Some [press_enter; hover; press_enter])
                   (Some false) None)
           [press_enter; hover; press_enter] hover opened).
  - reflexivity.
  - cbn. lia.
  - left. reflexivity.
  - cbn. auto.
  - exact hover_always_throws.
Defined.

(** ** The time budget *)

(** X17: a budget of [0] is no budget: the run is the run of the plan
    without [maxDurationMs]. *)
Theorem zero_budget_is_no_budget (p : Plan) (w : World AgentEyes) :
  run (Some (with_budget p (Some 0))) w = run (Some (with_budget p None)) w.
Proof.
  destruct (steps p) as [l|] eqn:Hs.
  - destruct (Nat.le_gt_cases (List.length l) 50) as [Hl|Hl].
    + apply run_ext with (l1 := l) (l2 := l); try assumption.
      intros started w0. apply step_loop_ext; reflexivity.
    + unfold run. cbn [steps with_budget]. rewrite Hs. cbv zeta.
      destruct (Z.gtb_spec (Z.of_nat (List.length l)) 50); [reflexivity|lia].
  - unfold run. cbn [steps with_budget]. rewrite Hs. reflexivity.
Qed.

(** X18: the budget is looked at after a step, never before: the first
    step is always executed, and when the clock is past the budget at
    its end the run is the run of the plan with that step alone.  The
    report does not tell: it says [success] when the step has
    succeeded. *)
Theorem budget_stops_after_slow_step (p : Plan) (step : Step)
    (rest : list Step) (d : Z) (w : World AgentEyes) :
  maxDurationMs p = Some d ->
  d <> 0 ->
  (List.length (step :: rest) <= 50)%nat ->
  let done := _execute step (snd (Math_random w)) in
  now (snd done) - now w > d ->
  run (Some (with_steps p (step :: rest))) w
  = run (Some (with_steps p [step])) w
  /\ exists report w',
       run (Some (with_steps p (step :: rest))) w = (Ok report, w')
       /\ (success report = true <-> fst done = Ok tt).
Proof.
  intros Hd Hz Hl. cbv zeta. intros Hslow.
  assert (Hover : over_budget p (now w)
                    (snd (_execute step (snd (Math_random w)))) = true).
  { unfold over_budget. rewrite Hd.
    destruct (Z.eqb_spec d 0); [contradiction|]. cbn [negb andb]. lia. }
  assert (Hloop : forall l,
             step_loop (with_steps p (step :: l)) (now w) (step :: l) None
                       (snd (Math_random w))
             = (match fst (_execute step (snd (Math_random w))) with
                | Ok _ => Ok None
                | Throw e => Ok (Some e)
                end, snd (_execute step (snd (Math_random w))))).
  { intros l.
    rewrite (@step_loop_ext (with_steps p (step :: l)) p) by reflexivity.
    rewrite step_loop_cons.
    destruct (_execute step (snd (Math_random w))) as [[[]|e] w1];
      cbn [fst snd] in *; rewrite Hover.
    - reflexivity.
    - destruct (Security.not_false _); reflexivity. }
  split.
  - unfold run. cbn [steps with_steps]. cbv zeta.
    destruct (Z.gtb_spec (Z.of_nat (List.length (step :: rest))) 50); [lia|].
    destruct (Z.gtb_spec (Z.of_nat (List.length [step])) 50); [cbn in *; lia|].
    rewrite !bind_Date_now.
    unfold bind at 1. symmetry. unfold bind at 1. symmetry.
    destruct (nt_result w (@nt_Math_random AgentEyes)) as [u Hu].
    rewrite Hu. cbn [fst snd].
    unfold bind at 1. symmetry. unfold bind at 1. symmetry.
    rewrite (Hloop rest), (Hloop []). reflexivity.
  - destruct (@run_loop_report (with_steps p (step :: rest)) (step :: rest) w
                eq_refl Hl)
      as (le & report & w' & Hle & Hrun & Hok & _).
    exists report, w'. split; [exact Hrun|].
    rewrite Hloop in Hle. cbn [fst] in Hle. rewrite Hok.
    destruct (fst (_execute step (snd (Math_random w)))) as [[]|e];
      injection Hle as <-; split; intros; congruence.
Qed.

Lemma budget_stops_after_slow_step_witness :
  let p := mkPlan "press twice" None None (Some 300) in
  let done := _execute press_enter (snd (Math_random slow)) in
  run (Some (with_steps p (press_enter :: [hover]))) slow
  = run (Some (with_steps p [press_enter])) slow
  /\ exists report w',
       run (Some (with_steps p (press_enter :: [hover]))) slow = (Ok report, w')
       /\ (success report = true <-> fst done = Ok tt).
Proof.
  apply (@budget_stops_after_slow_step
           (mkPlan "press twice" None None (Some 300)) press_enter [hover]
           300 slow).
  - reflexivity.
  - lia.
  - cbn. lia.
  - vm_compute. reflexivity.
Defined.

(** ** A session that is not open *)

Lemma navigate_closed args w :
  page (state w) = false -> navigate args w = (Throw not_open, w).
Proof.
  intros H. unfold navigate.
  rewrite bind_Date_now, bind_requirePage_closed by exact H. reflexivity.
Qed.

Lemma click_closed args w :
  page (state w) = false -> click args w = (Throw not_open, w).
Proof.
  intros H. unfold click.
  rewrite bind_Date_now, bind_requirePage_closed by exact H. reflexivity.
Qed.

Lemma type_closed args w :
  page (state w) = false -> type args w = (Throw not_open, w).
Proof.
  intros H. unfold type.
  rewrite bind_Date_now, bind_requirePage_closed by exact H. reflexivity.
Qed.

Lemma wait_closed args w :
  page (state w) = false -> wait args w = (Throw not_open, w).
Proof.
  intros H. unfold wait.
  rewrite bind_Date_now, bind_requirePage_closed by exact H. reflexivity.
Qed.

Lemma scroll_closed args w :
  page (state w) = false -> scroll args w = (Throw not_open, w).
Proof.
  intros H. unfold scroll.
  rewrite bind_Date_now, bind_requirePage_closed by exact H. reflexivity.
Qed.

Lemma keys_closed args w :
  page (state w) = false -> keys args w = (Throw not_open, w).
Proof.
  intros H. unfold keys.
  rewrite bind_Date_now, bind_requirePage_closed by exact H. reflexivity.
Qed.

Lemma exec_closed args w :
  page (state w) = false -> exec args w = (Throw not_open, w).
Proof.
  intros H. unfold exec.
  rewrite bind_Date_now, bind_requirePage_closed by exact H. reflexivity.
Qed.

Lemma screenshot_closed args w :
  page (state w) = false -> screenshot args w = (Throw not_open, w).
Proof.
  intros H. unfold screenshot.
  rewrite bind_Date_now, bind_requirePage_closed by exact H. reflexivity.
Qed.

Lemma dom_closed opts w :
  page (state w) = false -> dom opts w = (Throw not_open, w).
Proof.
  intros H. unfold dom. rewrite bind_requirePage_closed by exact H. reflexivity.
Qed.

Lemma state_closed w :
  page (state w) = false -> state_ w = (Throw not_open, w).
Proof.
  intros H. unfold state_. rewrite bind_requirePage_closed by exact H. reflexivity.
Qed.

Lemma dispatch_closed action args w :
  page (state w) = false ->
  known_action action = true ->
  _dispatch action args w = (Throw not_open, w).
Proof.
  intros H K. unfold _dispatch. unfold known_action in K. cbn [existsb] in K.
  destruct (String.eqb action "navigate"); [apply navigate_closed, H|].
  destruct (String.eqb action "click"); [apply click_closed, H|].
  destruct (String.eqb action "type"); [apply type_closed, H|].
  destruct (String.eqb action "wait"); [apply wait_closed, H|].
  destruct (String.eqb action "scroll"); [apply scroll_closed, H|].
  destruct (String.eqb action "keys"); [apply keys_closed, H|].
  destruct (String.eqb action "exec"); [|discriminate].
  unfold bind. rewrite (@exec_closed args w H). reflexivity.
Qed.

Lemma draws_only_refl w : draws_only w w.
Proof. repeat split. Qed.

Lemma draws_only_trans a b c : draws_only a b -> draws_only b c -> draws_only a c.
Proof.
  unfold draws_only. intros (A1 & A2 & A3 & A4 & A5) (B1 & B2 & B3 & B4 & B5).
  repeat split; congruence.
Qed.

Lemma Math_random_draws_only (w : World AgentEyes) :
  draws_only w (snd (Math_random w)).
Proof. unfold Math_random. destruct (random w); repeat split. Qed.

(** On a session that is not open a step ends with ['Eyes not opened']
    after one attempt: for a fragile step the wait of the backoff
    fails too. *)
Lemma execute_closed step w :
  page (state w) = false ->
  known_action (action step) = true ->
  exists w', _execute step w = (Throw not_open, w') /\ draws_only w w'.
Proof.
  intros H K. unfold _execute. cbv zeta. unfold attempts.
  destruct (fragile _ _).
  - change (Z.to_nat 3) with 3%nat. cbn [attempt_loop].
    unfold try_catch at 1. rewrite (@dispatch_closed _ _ w H K).
    change (0 =? 3 - 1) with false. cbn [negb]. cbv zeta.
    unfold bind at 1.
    destruct (nt_result w (@nt_Math_random AgentEyes)) as [u Hu].
    rewrite Hu. cbn [fst snd].
    pose proof (Math_random_draws_only w) as D.
    assert (H' : page (state (snd (Math_random w))) = false).
    { destruct D as (D1 & _). rewrite D1. exact H. }
    unfold bind at 1. rewrite (@wait_closed _ _ H').
    eexists. split; [reflexivity|exact D].
  - change (Z.to_nat 1) with 1%nat. cbn [attempt_loop].
    unfold try_catch. rewrite (@dispatch_closed _ _ w H K).
    exists w. split; [reflexivity|apply draws_only_refl].
Qed.

Lemma loop_closed p started l :
  Forall (fun step => known_action (action step) = true) l ->
  forall le w,
    page (state w) = false ->
    exists w',
      step_loop p started l le w
      = (Ok (match l with [] => le | _ :: _ => Some not_open end), w')
      /\ draws_only w w'.
Proof.
  induction 1 as [|step l K _ IH]; intros le w H.
  - exists w. split; [reflexivity|apply draws_only_refl].
  - rewrite step_loop_cons.
    destruct (@execute_closed step w H K) as (w1 & E & D). rewrite E.
    assert (H1 : page (state w1) = false).
    { destruct D as (D1 & _). rewrite D1. exact H. }
    destruct (Security.not_false _); [exists w1; split; [reflexivity|exact D]|].
    destruct (over_budget p started w1); [exists w1; split; [reflexivity|exact D]|].
    destruct (IH (Some not_open) w1 H1) as (w2 & E2 & D2).
    exists w2. split; [|eapply draws_only_trans; eassumption].
    rewrite E2. destruct l; reflexivity.
Qed.

(** X19: [run] on a session that is not open, with a plan of known
    actions: no step reaches the engine, and the report says
    [INTERNAL], ['Eyes not opened'], with no screenshot, no DOM snippet
    and the placeholder state.  Nothing of the world changes but the
    draws of [Math.random()] that are left. *)
Theorem run_on_unopened_session (p : Plan) (step : Step) (rest : list Step)
    (w : World AgentEyes) :
  page (state w) = false ->
  steps p = Some (step :: rest) ->
  (List.length (step :: rest) <= 50)%nat ->
  Forall (fun s => known_action (action s) = true) (step :: rest) ->
  exists u w',
    run (Some p) w
    = (Ok (mkRunReport false (now w, u) None None None
                       (Some (mkErrorInfo INTERNAL "Eyes not opened" None))),
       w')
    /\ draws_only w w'.
Proof.
  intros H Hs Hl K. unfold run. rewrite Hs. cbv zeta.
  destruct (Z.gtb_spec (Z.of_nat (List.length (step :: rest))) 50); [lia|].
  rewrite bind_Date_now. unfold bind at 1.
  destruct (nt_result w (@nt_Math_random AgentEyes)) as [u Hu].
  rewrite Hu. cbn [fst snd].
  pose proof (Math_random_draws_only w) as D0.
  assert (Hc0 : page (state (snd (Math_random w))) = false).
  { destruct D0 as (D1 & _). rewrite D1. exact H. }
  destruct (@loop_closed p (now w) _ K None _ Hc0) as (w1 & E1 & D1).
  assert (Hc1 : page (state w1) = false).
  { destruct D1 as (D & _). rewrite D. exact Hc0. }
  unfold bind at 1. rewrite E1.
  unfold bind, try_catch, ret.
  rewrite (@screenshot_closed _ _ Hc1), (@dom_closed _ _ Hc1), (@state_closed _ Hc1).
  exists u, w1. split; [reflexivity|].
  eapply draws_only_trans; eassumption.
Qed.

Lemma run_on_unopened_session_witness :
  exists u w',
    run (Some (mkPlan "press" (Some [press_enter; press_enter]) (Some false) None))
        fresh
    = (Ok (mkRunReport false (now fresh, u) None None None
                       (Some (mkErrorInfo INTERNAL "Eyes not opened" None))),
       w')
    /\ draws_only fresh w'.
Proof.
  apply (@run_on_unopened_session
           (mkPlan "press" (Some [press_enter; press_enter]) (Some false) None)
           press_enter [press_enter] fresh).
  - reflexivity.
  - reflexivity.
  - cbn. lia.
  - repeat constructor.
Defined.

(** ** The codes of a report *)

Ltac in_step_codes :=
  let c := fresh "c" in let Hc := fresh "Hc" in
  intros c Hc; unfold step_codes; cbn [In] in Hc |- *; intuition.

Lemma dispatch_throws action args :
  throws_only (has_code step_codes) (_dispatch action args).
Proof.
  unfold _dispatch.
  repeat match goal with
         | |- throws_only _ (if ?b then _ else _) => destruct b
         end.
  - eapply to_weaken; [apply navigate_throws|].
    intros e. apply has_code_incl. in_step_codes.
  - eapply to_weaken; [apply click_throws|].
    intros e. apply has_code_incl. in_step_codes.
  - eapply to_weaken; [apply type_throws|].
    intros e. apply has_code_incl. in_step_codes.
  - eapply to_weaken; [apply wait_throws|].
    intros e. apply has_code_incl. in_step_codes.
  - eapply to_weaken; [apply scroll_throws|].
    intros e. apply has_code_incl. in_step_codes.
  - eapply to_weaken; [apply keys_throws|].
    intros e. apply has_code_incl. in_step_codes.
  - apply to_bind.
    + eapply to_weaken; [apply exec_throws|].
      intros e. apply has_code_incl. in_step_codes.
    + intros. apply to_never, nt_ret.
  - apply to_throw. cbn. auto.
Qed.

Lemma attempt_loop_throws remaining i attempts action args :
  throws_only (has_code step_codes) (attempt_loop remaining i attempts action args).
Proof.
  revert i. induction remaining as [|k IH]; intros i; cbn [attempt_loop].
  - apply to_never, nt_ret.
  - apply to_try_from with (P := has_code step_codes); [apply dispatch_throws|].
    intros e He. cbv zeta. destruct (negb _).
    + apply to_bind; [apply to_never, nt_Math_random|]. intros u.
      apply to_bind; [|intros; apply IH].
      eapply to_weaken; [apply wait_throws|].
      intros e'. apply has_code_incl. in_step_codes.
    + apply to_throw. apply toEyesError_typed, He.
Qed.

Lemma execute_throws step : throws_only (has_code step_codes) (_execute step).
Proof. unfold _execute. apply attempt_loop_throws. Qed.

Lemma loop_errors p started l :
  forall le w e,
    (forall e0, le = Some e0 -> has_code step_codes e0) ->
    fst (step_loop p started l le w) = Ok (Some e) ->
    has_code step_codes e.
Proof.
  induction l as [|step l IH]; intros le w e Hle.
  - cbn. intros E. injection E as E'. subst. auto.
  - rewrite step_loop_cons.
    pose proof (execute_throws step w) as Hx.
    destruct (_execute step w) as [[[]|e1] w1]; cbn [fst] in Hx.
    + destruct (over_budget p started w1).
      * cbn. intros E. injection E as E'. subst. auto.
      * apply IH, Hle.
    + assert (H1 : forall e0, Some e1 = Some e0 -> has_code step_codes e0).
      { intros e0 E0. injection E0 as <-. apply Hx. reflexivity. }
      destruct (Security.not_false _); [cbn; intros E; injection E as E'; subst; auto|].
      destruct (over_budget p started w1); [cbn; intros E; injection E as E'; subst; auto|].
      apply IH, H1.
Qed.

Lemma last_failure_cons (x : Step * Result unit) rs :
  last_failure (x :: rs)
  = match last_failure rs with
    | Some e => Some e
    | None => match snd x with Throw e => Some e | Ok _ => None end
    end.
Proof.
  unfold last_failure at 1. cbn [fold_left]. rewrite fold_failure. reflexivity.
Qed.

Lemma last_failure_in rs e :
  last_failure rs = Some e -> exists step, In (step, Throw e) rs.
Proof.
  induction rs as [|[s r] rs IH]; [discriminate|].
  rewrite last_failure_cons. cbn [snd].
  destruct (last_failure rs) as [e'|].
  - intros H. injection H as ->. destruct (IH eq_refl) as [step Hin].
    exists step. right. exact Hin.
  - destruct r as [[]|e']; [discriminate|].
    intros H. injection H as ->. exists s. left. reflexivity.
Qed.

(** X20: when a report of [run] on a plan whose steps are objects
    carries an error, this is the information of the last failure among
    the steps that were carried out: a typed error, whose own code is
    the code of the report and is one of [INTERNAL], [BAD_INPUT],
    [SECURITY_BLOCKED], [NAVIGATION_TIMEOUT], [ELEMENT_NOT_FOUND] and
    [SCRIPT_ERROR].  [_execute] normalises what such a step throws, so
    that the fallback code of [_errorInfo] is not used for it, and no
    such report says [RATE_LIMIT]. *)
Theorem report_error_is_typed (plan : option Plan) (w : World AgentEyes)
    (info : ErrorInfo) :
  reported_error (fst (run plan w)) = Some info ->
  In (code info) step_codes
  /\ code info <> RATE_LIMIT
  /\ exists p l e step,
       plan = Some p /\ steps p = Some l
       /\ last_failure (fst (carried_out p (now w) l (snd (Math_random w)))) = Some e
       /\ In (step, Throw e) (fst (carried_out p (now w) l (snd (Math_random w))))
       /\ code_of e = Some (code info)
       /\ message info = message_of e
       /\ hint info = hint_of e.
Proof.
  intros H.
  destruct plan as [p|]; [|discriminate].
  destruct (steps p) as [l|] eqn:Hs; [|unfold run in H; rewrite Hs in H; discriminate].
  destruct (Nat.le_gt_cases (List.length l) 50) as [Hl|Hl].
  - destruct (@run_loop_report p l w Hs Hl) as (le & report & w' & Hle & Hrun & _ & Herr).
    rewrite Hrun in H. cbn [fst reported_error] in H. rewrite Herr in H.
    destruct le as [e|]; [|discriminate]. cbn in H. injection H as <-.
    assert (He : has_code step_codes e).
    { eapply loop_errors; [|exact Hle]. intros e0 E0. discriminate. }
    unfold has_code in He. unfold _errorInfo. cbn [code message hint].
    destruct (code_of e) as [c|] eqn:Ec; [|contradiction]. cbn [dflt].
    split; [exact He|]. split.
    { intros ->. cbn in He. intuition discriminate. }
    rewrite step_loop_carried_out in Hle. cbn [fst] in Hle.
    destruct (last_failure _) as [e'|] eqn:El; [|discriminate].
    injection Hle as ->.
    destruct (last_failure_in _ El) as [step Hin].
    exists p, l, e, step. rewrite Ec. repeat split; try assumption.
  - unfold run in H. rewrite Hs in H. cbv zeta in H.
    destruct (Z.gtb_spec (Z.of_nat (List.length l)) 50); [discriminate|lia].
Qed.

Lemma report_error_is_typed_witness :
  let info := mkErrorInfo BAD_INPUT "Unknown action: hover" None in
  In (code info) step_codes
  /\ code info <> RATE_LIMIT
  /\ exists p l e step,
       Some (mkPlan "press, then hover" (Some [press_enter; hover]) None None) = Some p
       /\ steps p = Some l
       /\ last_failure (fst (carried_out p (now opened) l (snd (Math_random opened)))) = Some e
       /\ In (step, Throw e) (fst (carried_out p (now opened) l (snd (Math_random opened))))
       /\ code_of e = Some (code info)
       /\ message info = message_of e
       /\ hint info = hint_of e.
Proof.
  apply (@report_error_is_typed
           (Some (mkPlan "press, then hover" (Some [press_enter; hover]) None None)) opened
           (mkErrorInfo BAD_INPUT "Unknown action: hover" None)).
  vm_compute. reflexivity.
Defined.

End PlanFacts.


(* ===================================================================== *)
(** * Properties of the selector suggestions *)
(* ===================================================================== *)

Module SuggestFacts.
Import Suggest.

Lemma lev_nil_l b : lev "" b = len b.
Proof. destruct b; reflexivity. Qed.

Lemma lev_nil_r a : lev a "" = len a.
Proof. destruct a; reflexivity. Qed.

Lemma lev_cons x a y b :
  lev (String x a) (String y b)
  = Z.min (Z.min (lev a (String y b) + 1) (lev (String x a) b + 1))
          (lev a b + (if Ascii.eqb x y then 0 else 1)).
Proof. reflexivity. Qed.

Lemma len_cons c s : len (String c s) = len s + 1.
Proof. unfold len. cbn [String.length]. lia. Qed.

Lemma len_nonneg s : 0 <= len s.
Proof. unfold len. lia. Qed.

(** The two inductions of the table, on the recurrence. *)
Lemma lev_ind2 (P : string -> string -> Prop) :
  (forall b, P "" b) ->
  (forall a, P a "") ->
  (forall x a y b,
     P a (String y b) -> P (String x a) b -> P a b ->
     P (String x a) (String y b)) ->
  forall a b, P a b.
Proof.
  intros H1 H2 H3. induction a as [|x a IHa]; [exact H1|].
  induction b as [|y b IHb]; [apply H2|].
  apply H3; [apply IHa|exact IHb|apply IHa].
Qed.

Lemma cost_range (x y : ascii) : 0 <= (if Ascii.eqb x y then 0 else 1) <= 1.
Proof. destruct (Ascii.eqb x y); lia. Qed.

Lemma lev_bounds a b :
  Z.abs (len a - len b) <= lev a b <= Z.max (len a) (len b).
Proof.
  revert a b.
  apply (lev_ind2 (fun a b => Z.abs (len a - len b) <= lev a b
                              <= Z.max (len a) (len b))).
  - intros b. rewrite lev_nil_l. pose proof (len_nonneg b).
    change (len "") with 0. lia.
  - intros a. rewrite lev_nil_r. pose proof (len_nonneg a).
    change (len "") with 0. lia.
  - intros x a y b H1 H2 H3. rewrite lev_cons.
    rewrite !len_cons in *. pose proof (cost_range x y).
    pose proof (len_nonneg a). pose proof (len_nonneg b). lia.
Qed.

Lemma lev_refl a : lev a a = 0.
Proof.
  induction a as [|x a IH]; [reflexivity|].
  rewrite lev_cons, IH, Ascii.eqb_refl.
  pose proof (lev_bounds a (String x a)). pose proof (lev_bounds (String x a) a).
  rewrite !len_cons in *. lia.
Qed.

Lemma lev_zero a b : lev a b = 0 -> a = b.
Proof.
  revert a b.
  apply (lev_ind2 (fun a b => lev a b = 0 -> a = b)).
  - intros b. rewrite lev_nil_l. destruct b as [|c b]; [reflexivity|].
    rewrite len_cons. pose proof (len_nonneg b). lia.
  - intros a. rewrite lev_nil_r. destruct a as [|c a]; [reflexivity|].
    rewrite len_cons. pose proof (len_nonneg a). lia.
  - intros x a y b _ _ H3. rewrite lev_cons. intros H.
    pose proof (lev_bounds a (String y b)). pose proof (lev_bounds (String x a) b).
    pose proof (lev_bounds a b).
    destruct (Ascii.eqb_spec x y) as [->|N].
    + f_equal. apply H3. lia.
    + lia.
Qed.

Lemma lev_sym a b : lev a b = lev b a.
Proof.
  revert a b. apply (lev_ind2 (fun a b => lev a b = lev b a)).
  - intros b. rewrite lev_nil_l, lev_nil_r. reflexivity.
  - intros a. rewrite lev_nil_l, lev_nil_r. reflexivity.
  - intros x a y b H1 H2 H3. rewrite !lev_cons, H1, H2, H3.
    rewrite (Ascii.eqb_sym y x). lia.
Qed.

(** ** The table computes the recurrence *)

Lemma fill_row_spec x ra b :
  forall acc,
    fill_row x b (map (lev ra) (prefixes acc b)) (lev ra acc)
             (lev (String x ra) acc)
    = map (lev (String x ra)) (prefixes acc b).
Proof.
  induction b as [|y b IH]; intros acc; [reflexivity|].
  cbn [prefixes map fill_row]. cbv zeta.
  rewrite <- (lev_cons x ra y acc). f_equal. apply IH.
Qed.

Lemma fill_rows_spec b :
  forall a ra,
    fill_rows a b (len ra) (len ra :: map (lev ra) (prefixes "" b))
    = len (rev_onto a ra) :: map (lev (rev_onto a ra)) (prefixes "" b).
Proof.
  induction a as [|x a IH]; intros ra; [reflexivity|].
  cbn [fill_rows rev_onto tl hd].
  pose proof (fill_row_spec x ra b "") as F.
  rewrite !lev_nil_r, len_cons in F. rewrite F, <- (len_cons x ra).
  apply IH.
Qed.

Lemma first_row_tail b :
  forall acc,
    map Z.of_nat (seq (S (String.length acc)) (String.length b))
    = map (lev "") (prefixes acc b).
Proof.
  induction b as [|y b IH]; intros acc; [reflexivity|].
  cbn [String.length seq map prefixes]. rewrite lev_nil_l. f_equal.
  apply (IH (String y acc)).
Qed.

Lemma first_row_spec b :
  first_row b = len "" :: map (lev "") (prefixes "" b).
Proof.
  unfold first_row. cbn [seq map]. f_equal. apply (first_row_tail b "").
Qed.

Lemma last_prefixes (f : string -> Z) b :
  forall acc, last (f acc :: map f (prefixes acc b)) 0 = f (rev_onto b acc).
Proof.
  induction b as [|y b IH]; intros acc; [reflexivity|].
  cbn [prefixes map rev_onto]. rewrite <- IH. reflexivity.
Qed.

Lemma distance_lev a b : distance a b = lev (reverse a) (reverse b).
Proof.
  unfold distance, reverse. rewrite first_row_spec.
  change (fill_rows a b 0) with (fill_rows a b (len "")).
  rewrite (fill_rows_spec b a "").
  rewrite <- (lev_nil_r (rev_onto a "")). apply last_prefixes.
Qed.

Lemma rev_onto_length s : forall acc,
  String.length (rev_onto s acc) = (String.length s + String.length acc)%nat.
Proof.
  induction s as [|c s IH]; intros acc; [reflexivity|].
  cbn [rev_onto String.length]. rewrite IH. cbn [String.length]. lia.
Qed.

Lemma rev_onto_inj s : forall t acc acc',
  String.length acc = String.length acc' ->
  rev_onto s acc = rev_onto t acc' -> s = t /\ acc = acc'.
Proof.
  induction s as [|c s IH]; intros t acc acc' L H.
  - destruct t as [|d t]; [split; [reflexivity|exact H]|].
    cbn [rev_onto] in H. apply (f_equal String.length) in H.
    rewrite rev_onto_length in H. cbn [String.length] in H. lia.
  - destruct t as [|d t].
    + cbn [rev_onto] in H. apply (f_equal String.length) in H.
      rewrite rev_onto_length in H. cbn [String.length] in H. lia.
    + cbn [rev_onto] in H. apply IH in H; [|cbn [String.length]; lia].
      destruct H as [-> E]. injection E as -> ->. split; reflexivity.
Qed.

Lemma reverse_inj s t : reverse s = reverse t -> s = t.
Proof. intros H. apply (@rev_onto_inj s t "" "" eq_refl H). Qed.

Lemma len_reverse s : len (reverse s) = len s.
Proof. unfold len, reverse. rewrite rev_onto_length. cbn. f_equal. lia. Qed.

Lemma distance_is_edit_distance_aux a b :
  distance a a = 0 /\ (distance a b = 0 -> a = b).
Proof.
  split; [rewrite distance_lev; apply lev_refl|].
  rewrite distance_lev. intros H. apply reverse_inj, lev_zero, H.
Qed.

(** X21: the table of [distance] computes the edit distance: its last
    cell is the value of the recurrence of Levenshtein on the reversed
    strings.  So the distance of a string to itself is 0, only equal
    strings are at distance 0, the distance is symmetric, and it lies
    between the difference of the two lengths and the greater of
    them. *)
Theorem distance_is_edit_distance (a b : string) :
  distance a b = lev (reverse a) (reverse b)
  /\ distance a a = 0
  /\ (distance a b = 0 <-> a = b)
  /\ distance a b = distance b a
  /\ Z.abs (len a - len b) <= distance a b <= Z.max (len a) (len b).
Proof.
  split; [apply distance_lev|].
  split; [rewrite distance_lev; apply lev_refl|].
  split; [split|].
  - rewrite distance_lev. intros H. apply reverse_inj, lev_zero, H.
  - intros ->. rewrite distance_lev. apply lev_refl.
  - split; [rewrite !distance_lev; apply lev_sym|].
    rewrite distance_lev, <- (len_reverse a), <- (len_reverse b).
    apply lev_bounds.
Qed.

(** ** The ranking *)

Lemma uniq_In seen all s :
  In s (uniq seen all) <-> In s all /\ ~ In s seen.
Proof.
  revert seen. induction all as [|t all IH]; intros seen; cbn [uniq In].
  - tauto.
  - destruct (existsb (String.eqb t) seen) eqn:E.
    + rewrite IH. apply existsb_exists in E. destruct E as (t' & Hin & Heq).
      apply String.eqb_eq in Heq. subst t'.
      split; [tauto|]. intros [[->|H] N]; [contradiction|tauto].
    + cbn [In]. rewrite IH. cbn [In].
      assert (N : ~ In t seen).
      { intros Hin. apply Bool.not_true_iff_false in E. apply E.
        apply existsb_exists. exists t. split; [exact Hin|apply String.eqb_refl]. }
      destruct (String.eqb_spec t s) as [->|D]; [tauto|].
      split; [intros [->|(H1 & H2)]; tauto|].
      intros [[->|H] H2]; [contradiction|]. right. tauto.
Qed.

Lemma uniq_NoDup seen all : NoDup (uniq seen all).
Proof.
  revert seen. induction all as [|t all IH]; intros seen; cbn [uniq].
  - constructor.
  - destruct (existsb (String.eqb t) seen); [apply IH|].
    constructor; [|apply IH]. rewrite uniq_In. cbn [In]. tauto.
Qed.

Lemma insert_perm key s l : Permutation (insert key s l) (s :: l).
Proof.
  induction l as [|t l IH]; cbn [insert]; [reflexivity|].
  destruct (key s <=? key t); [reflexivity|].
  rewrite IH. apply perm_swap.
Qed.

Lemma sort_by_perm key l : Permutation (sort_by key l) l.
Proof.
  induction l as [|s l IH]; cbn [sort_by fold_right]; [reflexivity|].
  rewrite insert_perm. constructor. exact IH.
Qed.

Lemma insert_sorted key s l :
  StronglySorted (fun a b => key a <= key b) l ->
  StronglySorted (fun a b => key a <= key b) (insert key s l).
Proof.
  induction 1 as [|t l Hs IH Ht]; cbn [insert].
  - repeat constructor.
  - destruct (Z.leb_spec (key s) (key t)) as [L|L].
    + constructor; [constructor; assumption|].
      constructor; [exact L|].
      rewrite Forall_forall in *. intros u Hu. specialize (Ht u Hu). lia.
    + constructor; [exact IH|].
      rewrite Forall_forall in *. intros u Hu.
      apply (Permutation_in _ (insert_perm key s l)) in Hu.
      destruct Hu as [<-|Hu]; [lia|auto].
Qed.

Lemma sort_by_sorted key l :
  StronglySorted (fun a b => key a <= key b) (sort_by key l).
Proof.
  induction l as [|s l IH]; cbn [sort_by fold_right]; [constructor|].
  apply insert_sorted, IH.
Qed.

Lemma sorted_split (R : string -> string -> Prop) n l :
  StronglySorted R l ->
  forall s t, In s (firstn n l) -> In t (skipn n l) -> R s t.
Proof.
  intros H. revert n. induction H as [|u l Hs IH Hu]; intros n s t.
  - destruct n; cbn; contradiction.
  - destruct n as [|n]; cbn [firstn skipn]; [contradiction|].
    intros [<-|Hin] Ht.
    + rewrite Forall_forall in Hu. apply Hu.
      rewrite <- (firstn_skipn n l). apply in_or_app. right. exact Ht.
    + apply (IH n); assumption.
Qed.

Lemma firstn_NoDup {A} n (l : list A) : NoDup l -> NoDup (firstn n l).
Proof.
  intros H. rewrite <- (firstn_skipn n l) in H.
  apply NoDup_app_remove_r in H. exact H.
Qed.

Lemma firstn_In {A} n (l : list A) x : In x (firstn n l) -> In x l.
Proof.
  intros H. rewrite <- (firstn_skipn n l). apply in_or_app. left. exact H.
Qed.

Lemma distance_nonneg a b : 0 <= distance a b.
Proof.
  rewrite distance_lev. pose proof (lev_bounds (reverse a) (reverse b)). lia.
Qed.

(** X22: the suggestions of [_suggestSelectors] are at most five
    distinct descriptors of the page, in the order of their edit
    distance to the selector that was not found: no descriptor that is
    left out is closer than one that is kept, and a descriptor that is
    the selector itself comes first. *)
Theorem suggestions_are_the_closest (sel : string) (all : list string) :
  let out := suggestions sel all in
  (List.length out <= 5)%nat
  /\ List.length out = Nat.min 5 (List.length (uniq [] all))
  /\ NoDup out
  /\ (forall s, In s out -> In s all)
  /\ StronglySorted (fun s t => distance sel s <= distance sel t) out
  /\ (forall s t, In s out -> In t all -> ~ In t out ->
                  distance sel s <= distance sel t)
  /\ (In sel all -> exists rest, out = sel :: rest).
Proof.
  cbv zeta. unfold suggestions.
  set (u := uniq [] all). set (sorted := sort_by (distance sel) u).
  pose proof (sort_by_perm (distance sel) u) as Hperm. fold sorted in Hperm.
  pose proof (sort_by_sorted (distance sel) u) as Hsorted. fold sorted in Hsorted.
  assert (Hu : forall s, In s sorted <-> In s all).
  { intros s. split.
    - intros H. apply (Permutation_in _ Hperm) in H.
      apply uniq_In in H. tauto.
    - intros H. apply (Permutation_in _ (Permutation_sym Hperm)).
      apply uniq_In. cbn [In]. tauto. }
  split; [rewrite length_firstn; lia|].
  split; [rewrite length_firstn, (Permutation_length Hperm); reflexivity|].
  split.
  { apply firstn_NoDup. apply (Permutation_NoDup (Permutation_sym Hperm)).
    apply uniq_NoDup. }
  split; [intros s H; apply Hu, (firstn_In _ _ _ H)|].
  split.
  { rewrite <- (firstn_skipn 5 sorted) in Hsorted.
    clear - Hsorted. revert Hsorted.
    generalize (firstn 5 sorted) as l. induction l as [|s l IH]; intros H.
    - constructor.
    - cbn [app] in H. inversion H as [|? ? Hl Hs]; subst.
      constructor; [apply IH, Hl|].
      rewrite Forall_forall in *. intros t Ht. apply Hs, in_or_app. tauto. }
  split.
  { intros s t Hs Ht Hnot.
    apply (@sorted_split (fun s t => distance sel s <= distance sel t) 5 sorted Hsorted);
      [exact Hs|].
    apply Hu in Ht. rewrite <- (firstn_skipn 5 sorted) in Ht.
    apply in_app_or in Ht. tauto. }
  intros Hsel. apply Hu in Hsel.
  destruct sorted as [|h rest] eqn:E; [contradiction|].
  cbn [firstn]. exists (firstn 4 rest). f_equal.
  assert (Hh : distance sel h <= distance sel sel).
  { destruct Hsel as [->|Hin]; [lia|].
    inversion Hsorted as [|? ? _ Hall]; subst.
    rewrite Forall_forall in Hall. apply Hall, Hin. }
  destruct (distance_is_edit_distance_aux sel h) as [H0 Hz].
  rewrite H0 in Hh. pose proof (distance_nonneg sel h).
  symmetry. apply Hz. lia.
Qed.

Lemma suggestions_are_the_closest_witness :
  let out := suggestions "input#user" page_descriptors in
  (List.length out <= 5)%nat
  /\ List.length out = Nat.min 5 (List.length (uniq [] page_descriptors))
  /\ NoDup out
  /\ (forall s, In s out -> In s page_descriptors)
  /\ StronglySorted (fun s t => distance "input#user" s <= distance "input#user" t) out
  /\ (forall s t, In s out -> In t page_descriptors -> ~ In t out ->
                  distance "input#user" s <= distance "input#user" t)
  /\ (In "input#user" page_descriptors -> exists rest, out = "input#user" :: rest).
Proof. apply (@suggestions_are_the_closest "input#user" page_descriptors). Defined.

End SuggestFacts.


(* ===================================================================== *)
(** * Properties of the image comparison and of the image hash *)
(* ===================================================================== *)

Module PixelFacts.
Import Artifacts Hash Pixels DiffFacts.

Section Threshold.
Variables d1 d2 : Z -> Z.
Variables w h sampleStride : Z.

Lemma sample_close x y c :
  delta d1 d2 ((y * w + x) * 4) <= 30 ->
  diff (sample d1 d2 w x y c) = diff c.
Proof.
  unfold delta, sample. cbn [diff]. intros H.
  destruct (Z.gtb_spec
              (Z.abs (d1 ((y * w + x) * 4) - d2 ((y * w + x) * 4))
               + Z.abs (d1 ((y * w + x) * 4 + 1) - d2 ((y * w + x) * 4 + 1))
               + Z.abs (d1 ((y * w + x) * 4 + 2) - d2 ((y * w + x) * 4 + 2))) 30);
    [lia|reflexivity].
Qed.

Lemma sample_far x y c :
  delta d1 d2 ((y * w + x) * 4) > 30 ->
  diff (sample d1 d2 w x y c) = diff c + 1.
Proof.
  unfold delta, sample. cbn [diff]. intros H.
  destruct (Z.gtb_spec
              (Z.abs (d1 ((y * w + x) * 4) - d2 ((y * w + x) * 4))
               + Z.abs (d1 ((y * w + x) * 4 + 1) - d2 ((y * w + x) * 4 + 1))
               + Z.abs (d1 ((y * w + x) * 4 + 2) - d2 ((y * w + x) * 4 + 2))) 30);
    [reflexivity|lia].
Qed.

Lemma for_x_close fuel x y c :
  (forall k, delta d1 d2 (k * 4) <= 30) ->
  diff (for_x d1 d2 w sampleStride fuel x y c) = diff c.
Proof.
  intros H. revert x c. induction fuel as [|fuel IH]; intros x c; cbn [for_x].
  - reflexivity.
  - destruct (x <? w); [|reflexivity]. rewrite IH. apply sample_close, H.
Qed.

Lemma for_y_close fuel y c :
  (forall k, delta d1 d2 (k * 4) <= 30) ->
  diff (for_y d1 d2 w h sampleStride fuel y c) = diff c.
Proof.
  intros H. revert y c. induction fuel as [|fuel IH]; intros y c; cbn [for_y].
  - reflexivity.
  - destruct (y <? h); [|reflexivity]. rewrite IH. apply for_x_close, H.
Qed.

Lemma for_x_far fuel x y c :
  (forall k, delta d1 d2 (k * 4) > 30) ->
  total (for_x d1 d2 w sampleStride fuel x y c)
  - diff (for_x d1 d2 w sampleStride fuel x y c) = total c - diff c.
Proof.
  intros H. revert x c. induction fuel as [|fuel IH]; intros x c; cbn [for_x].
  - reflexivity.
  - destruct (x <? w); [|reflexivity]. rewrite IH.
    rewrite sample_total, sample_far by apply H. lia.
Qed.

Lemma for_y_far fuel y c :
  (forall k, delta d1 d2 (k * 4) > 30) ->
  total (for_y d1 d2 w h sampleStride fuel y c)
  - diff (for_y d1 d2 w h sampleStride fuel y c) = total c - diff c.
Proof.
  intros H. revert y c. induction fuel as [|fuel IH]; intros y c; cbn [for_y].
  - reflexivity.
  - destruct (y <? h); [|reflexivity]. rewrite IH. apply for_x_far, H.
Qed.
End Threshold.

(** The two loops visit the sampled pixels, each once. *)
Section Grid.
Variables d1 d2 : Z -> Z.
Variables w h s : Z.
Hypothesis Hs : 1 <= s.

Lemma below_iff n k : (k * s <? n) = (k <? (n + s - 1) / s).
Proof.
  destruct (Z.ltb_spec (k * s) n) as [H|H];
    destruct (Z.ltb_spec k ((n + s - 1) / s)) as [H'|H'];
    try reflexivity; exfalso.
  - assert (k + 1 <= (n + s - 1) / s); [|lia].
    apply Z.div_le_lower_bound; nia.
  - pose proof (Z.mul_div_le (n + s - 1) s ltac:(lia)). nia.
Qed.

Lemma multiples_from n k :
  0 <= k < (n + s - 1) / s ->
  List.map (fun j => Z.of_nat j * s)
           (seq (Z.to_nat k) (Z.to_nat ((n + s - 1) / s - k)))
  = k * s :: List.map (fun j => Z.of_nat j * s)
                      (seq (Z.to_nat (k + 1)) (Z.to_nat ((n + s - 1) / s - (k + 1)))).
Proof.
  intros Hk.
  replace (Z.to_nat ((n + s - 1) / s - k))
    with (S (Z.to_nat ((n + s - 1) / s - (k + 1)))) by lia.
  cbn [seq List.map]. rewrite Z2Nat.id by lia.
  replace (S (Z.to_nat k)) with (Z.to_nat (k + 1)) by lia. reflexivity.
Qed.

Lemma multiples_none n k :
  (n + s - 1) / s <= k ->
  List.map (fun j => Z.of_nat j * s)
           (seq (Z.to_nat k) (Z.to_nat ((n + s - 1) / s - k))) = [].
Proof.
  intros Hk. replace (Z.to_nat ((n + s - 1) / s - k)) with O by lia. reflexivity.
Qed.

Lemma for_x_multiples y fuel : forall k c,
  0 <= k ->
  (Z.to_nat (w - k * s) <= fuel)%nat ->
  for_x d1 d2 w s fuel (k * s) y c
  = fold_left (fun c x => sample d1 d2 w x y c)
              (List.map (fun j => Z.of_nat j * s)
                        (seq (Z.to_nat k) (Z.to_nat ((w + s - 1) / s - k)))) c.
Proof.
  induction fuel as [|fuel IH]; intros k c Hk Hf; cbn [for_x].
  - rewrite multiples_none; [reflexivity|].
    pose proof (below_iff w k) as B.
    destruct (Z.ltb_spec (k * s) w); [lia|].
    destruct (Z.ltb_spec k ((w + s - 1) / s)); [discriminate|lia].
  - rewrite below_iff.
    destruct (Z.ltb_spec k ((w + s - 1) / s)) as [H|H].
    + rewrite multiples_from by lia. cbn [fold_left].
      replace (k * s + s) with ((k + 1) * s) by ring.
      apply IH; [lia|].
      pose proof (below_iff w k) as B.
      destruct (Z.ltb_spec (k * s) w); [nia|].
      destruct (Z.ltb_spec k ((w + s - 1) / s)); [discriminate|lia].
    + rewrite multiples_none by lia. reflexivity.
Qed.

Lemma for_x_grid y c :
  for_x d1 d2 w s (Z.to_nat w) 0 y c
  = fold_left (fun c x => sample d1 d2 w x y c) (grid w s) c.
Proof.
  pose proof (@for_x_multiples y (Z.to_nat w) 0 c ltac:(lia) ltac:(lia)) as H.
  rewrite Z.mul_0_l, Z.sub_0_r in H. exact H.
Qed.

Lemma for_y_multiples fuel : forall k c,
  0 <= k ->
  (Z.to_nat (h - k * s) <= fuel)%nat ->
  for_y d1 d2 w h s fuel (k * s) c
  = fold_left (fun c y => fold_left (fun c x => sample d1 d2 w x y c) (grid w s) c)
              (List.map (fun j => Z.of_nat j * s)
                        (seq (Z.to_nat k) (Z.to_nat ((h + s - 1) / s - k)))) c.
Proof.
  induction fuel as [|fuel IH]; intros k c Hk Hf; cbn [for_y].
  - rewrite multiples_none; [reflexivity|].
    pose proof (below_iff h k) as B.
    destruct (Z.ltb_spec (k * s) h); [lia|].
    destruct (Z.ltb_spec k ((h + s - 1) / s)); [discriminate|lia].
  - rewrite below_iff.
    destruct (Z.ltb_spec k ((h + s - 1) / s)) as [H|H].
    + rewrite multiples_from by lia. cbn [fold_left].
      replace (k * s + s) with ((k + 1) * s) by ring.
      rewrite for_x_grid.
      apply IH; [lia|].
      pose proof (below_iff h k) as B.
      destruct (Z.ltb_spec (k * s) h); [nia|].
      destruct (Z.ltb_spec k ((h + s - 1) / s)); [discriminate|lia].
    + rewrite multiples_none by lia. reflexivity.
Qed.

Lemma fold_flat_map {A B C} (f : A -> C -> A) (g : B -> list C) l : forall a,
  fold_left f (flat_map g l) a = fold_left (fun a y => fold_left f (g y) a) l a.
Proof.
  induction l as [|y l IH]; intros a; cbn [flat_map fold_left]; [reflexivity|].
  rewrite fold_left_app. apply IH.
Qed.

Lemma fold_map {A B C} (f : A -> C -> A) (g : B -> C) l : forall a,
  fold_left f (List.map g l) a = fold_left (fun a x => f a (g x)) l a.
Proof.
  induction l as [|y l IH]; intros a; cbn [List.map fold_left]; [reflexivity|apply IH].
Qed.

Lemma for_y_sampled c :
  for_y d1 d2 w h s (Z.to_nat h) 0 c
  = fold_left (fun c p => sample d1 d2 w (fst p) (snd p) c) (sampled w h s) c.
Proof.
  pose proof (@for_y_multiples (Z.to_nat h) 0 c ltac:(lia) ltac:(lia)) as H.
  rewrite Z.mul_0_l, Z.sub_0_r in H. rewrite H. clear H.
  change (List.map (fun j => Z.of_nat j * s) (seq (Z.to_nat 0) (Z.to_nat ((h + s - 1) / s))))
    with (grid h s).
  unfold sampled. rewrite fold_flat_map.
  generalize (grid h s). intros l. revert c.
  induction l as [|y l IH]; intros c; cbn [fold_left]; [reflexivity|].
  rewrite fold_map. cbn [fst snd]. apply IH.
Qed.

Lemma fold_sample_counts l : forall c,
  fold_left (fun c p => sample d1 d2 w (fst p) (snd p) c) l c
  = mkCount (diff c + Z.of_nat (List.length (filter (changed d1 d2 w) l)))
            (total c + Z.of_nat (List.length l)).
Proof.
  induction l as [|p l IH]; intros c; cbn [fold_left filter List.length].
  - destruct c. cbn. f_equal; lia.
  - rewrite IH. unfold sample. cbn [diff total].
    rewrite Z.gtb_ltb.
    change (Z.abs (d1 ((snd p * w + fst p) * 4) - d2 ((snd p * w + fst p) * 4))
            + Z.abs (d1 ((snd p * w + fst p) * 4 + 1) - d2 ((snd p * w + fst p) * 4 + 1))
            + Z.abs (d1 ((snd p * w + fst p) * 4 + 2) - d2 ((snd p * w + fst p) * 4 + 2)))
      with (delta d1 d2 ((snd p * w + fst p) * 4)).
    change (30 <? delta d1 d2 ((snd p * w + fst p) * 4)) with (changed d1 d2 w p).
    destruct (changed d1 d2 w p); cbn [List.length]; f_equal; lia.
Qed.

Lemma in_grid n x : In x (grid n s) <-> 0 <= x < n /\ x mod s = 0.
Proof.
  unfold grid. rewrite in_map_iff. split.
  - intros (k & <- & Hk). apply in_seq in Hk.
    pose proof (below_iff n (Z.of_nat k)) as B.
    destruct (Z.ltb_spec (Z.of_nat k * s) n);
      destruct (Z.ltb_spec (Z.of_nat k) ((n + s - 1) / s)); try discriminate; try lia.
    split; [nia|]. apply Z.mod_mul. lia.
  - intros [Hx Hm]. exists (Z.to_nat (x / s)).
    assert (E : x = x / s * s).
    { rewrite (Z.div_mod x s) at 1 by lia. rewrite Hm. ring. }
    assert (0 <= x / s) by (apply Z.div_pos; lia).
    rewrite Z2Nat.id by lia. split; [lia|].
    apply in_seq.
    pose proof (below_iff n (x / s)) as B.
    destruct (Z.ltb_spec (x / s * s) n);
      destruct (Z.ltb_spec (x / s) ((n + s - 1) / s)); try discriminate; lia.
Qed.

Lemma grid_NoDup n : NoDup (grid n s).
Proof.
  unfold grid. apply NoDup_map_NoDup_ForallPairs; [|apply seq_NoDup].
  intros a b _ _ H. nia.
Qed.

Lemma in_sampled x y :
  In (x, y) (sampled w h s)
  <-> (0 <= x < w /\ x mod s = 0) /\ (0 <= y < h /\ y mod s = 0).
Proof.
  unfold sampled. rewrite in_flat_map. split.
  - intros (y' & Hy & Hx). apply in_map_iff in Hx. destruct Hx as (x' & E & Hx).
    injection E as <- <-. split; apply in_grid; assumption.
  - intros [Hx Hy]. exists y. split; [apply in_grid, Hy|].
    apply in_map_iff. exists x. split; [reflexivity|apply in_grid, Hx].
Qed.

Lemma sampled_NoDup : NoDup (sampled w h s).
Proof.
  unfold sampled. pose proof (grid_NoDup h) as Hh.
  induction Hh as [|y l Hy Hl IH]; cbn [flat_map]; [constructor|].
  apply NoDup_app; [|exact IH|].
  - apply NoDup_map_NoDup_ForallPairs; [|apply grid_NoDup].
    intros a b _ _ H. congruence.
  - intros [x y'] H1 H2. apply in_map_iff in H1. destruct H1 as (x' & E & _).
    injection E as <- <-. apply in_flat_map in H2. destruct H2 as (y'' & Hy'' & H2).
    apply in_map_iff in H2. destruct H2 as (x'' & E & _). injection E as _ <-.
    contradiction.
Qed.

Lemma sampled_length :
  0 < w -> 0 < h -> (0 < List.length (sampled w h s))%nat.
Proof.
  intros Hw Hh.
  assert (H : In (0, 0) (sampled w h s)).
  { apply in_sampled. repeat split; try lia; apply Z.mod_0_l; lia. }
  destruct (sampled w h s); [contradiction|cbn; lia].
Qed.
End Grid.

Section Page.
Variable Image : Type.
Variable width height : Image -> Z.
Variable decode : string -> option Image.
Variable getImageData : Image -> Z -> Z -> Z -> Z.
Variable scaled : Z -> Z -> Z -> Z.

(** X23: for two images that decode, the ratio of [diffDataURLs] is
    the number of sampled pixels whose red, green and blue channels
    differ by more than 30 in total, divided by the number of sampled
    pixels; the alpha channel is never looked at.  The sampled pixels
    are the pixels of the scaled image whose column and row are both
    multiples of the stride, each counted once, and there is at least
    one.  So the ratio is 0 when no pixel differs by more than 30,
    whatever the alpha channels, 1 when every pixel does, and one half
    when the pixels of one half of the columns do. *)
Theorem diff_counts_pixels_over_threshold (a b : string) (imgA imgB : Image)
    (opts : DiffOpts) :
  decode a = Some imgA ->
  decode b = Some imgB ->
  let s := Z.max 1 (Qfloor (match opt_sampleStride opts with Some q => q | None => 2%Q end)) in
  let w := Z.max 32 (Qfloor (match opt_resizeWidth opts with Some q => q | None => 256%Q end)) in
  let h := Z.max 32 (scaled (height imgA) w (width imgA)) in
  let d1 := getImageData imgA w h in
  let d2 := getImageData imgB w h in
  exists q,
    diffDataURLs width height decode getImageData scaled false a b opts = Some q
    /\ (q == inject_Z (Z.of_nat (List.length (filter (changed d1 d2 w) (sampled w h s))))
             / inject_Z (Z.of_nat (List.length (sampled w h s))))%Q
    /\ (0 < List.length (sampled w h s))%nat
    /\ NoDup (sampled w h s)
    /\ (forall x y,
          In (x, y) (sampled w h s)
          <-> (0 <= x < w /\ x mod s = 0) /\ (0 <= y < h /\ y mod s = 0))
    /\ ((forall w h k,
           delta (getImageData imgA w h) (getImageData imgB w h) (k * 4) <= 30) ->
        (q == 0)%Q)
    /\ ((forall w h k,
           delta (getImageData imgA w h) (getImageData imgB w h) (k * 4) > 30) ->
        (q == 1)%Q).
Proof.
  intros Ha Hb s w h d1 d2.
  assert (Hs : 1 <= s) by (unfold s; lia).
  assert (Hw : 0 < w) by (unfold w; lia).
  assert (Hh : 0 < h) by (unfold h; lia).
  pose proof (@sampled_length w h s Hs Hw Hh) as Hl.
  assert (E : diffDataURLs width height decode getImageData scaled false a b opts
              = Some (compare width height getImageData scaled imgA imgB s w)).
  { unfold diffDataURLs, Artifacts.page_promise. rewrite Ha, Hb. reflexivity. }
  assert (C : for_y d1 d2 w h s (Z.to_nat h) 0 (mkCount 0 0)
              = mkCount (Z.of_nat (List.length (filter (changed d1 d2 w) (sampled w h s))))
                        (Z.of_nat (List.length (sampled w h s)))).
  { rewrite (@for_y_sampled d1 d2 w h s Hs), fold_sample_counts. reflexivity. }
  exists (compare width height getImageData scaled imgA imgB s w).
  split; [exact E|].
  assert (R : (compare width height getImageData scaled imgA imgB s w
               == inject_Z (Z.of_nat (List.length (filter (changed d1 d2 w) (sampled w h s))))
                  / inject_Z (Z.of_nat (List.length (sampled w h s))))%Q).
  { unfold compare. fold w h d1 d2. cbv zeta. fold h. fold d1 d2. rewrite C. cbn [diff total].
    destruct (Z.eqb_spec (Z.of_nat (List.length (sampled w h s))) 0) as [Z0|_]; [lia|].
    rewrite Qmake_Qdiv. rewrite Z2Pos.id by lia. reflexivity. }
  split; [exact R|]. split; [exact Hl|]. split; [apply sampled_NoDup, Hs|].
  split; [intros x y; apply in_sampled, Hs|].
  unfold compare. split.
  - intros H. rewrite for_y_close by apply H. cbn [diff].
    destruct (_ =? 0); reflexivity.
  - intros H.
    pose proof (@for_y_far (getImageData imgA w h) (getImageData imgB w h)
                  w h s (Z.to_nat h) 0 (mkCount 0 0) (H w h)) as F.
    pose proof (@for_y_samples (getImageData imgA w h) (getImageData imgB w h)
                  w h s (mkCount 0 0)) as T.
    cbn [diff total] in F, T.
    fold h. set (c := for_y _ _ _ _ _ _ _ _) in *.
    assert (Tc : 0 < total c) by (apply T; lia).
    destruct (Z.eqb_spec (total c) 0) as [Z0|_]; [lia|].
    unfold Qeq. cbn. rewrite Z2Pos.id by lia. lia.
Qed.
End Page.

Lemma diff_counts_pixels_over_threshold_witness :
  exists q,
    diffDataURLs split_width split_height split_decode split_pixels
                 Sample.sample_scaled false "data:grey,100" "data:split"
                 (mkDiffOpts None None) = Some q
    /\ (q == 1 # 2)%Q.
Proof.
  destruct (@diff_counts_pixels_over_threshold bool split_width split_height
              split_decode split_pixels Sample.sample_scaled
              "data:grey,100" "data:split" false true (mkDiffOpts None None)
              eq_refl eq_refl) as (q & E & R & _).
  exists q. split; [exact E|].
  eapply Qeq_trans; [exact R|]. vm_compute. reflexivity.
Defined.

(** ** The image hash *)

Lemma string_of_list_length l :
  String.length (string_of_list_ascii l) = List.length l.
Proof. induction l as [|c l IH]; cbn; [reflexivity|]. rewrite IH. reflexivity. Qed.

Lemma digit_is_hex l :
  (List.length l <= 4)%nat -> is_hex_digit (toString16 (parseInt2 l)) = true.
Proof.
  intros H.
  destruct l as [|[] [|[] [|[] [|[] [|? l]]]]]; cbn in H; try lia; reflexivity.
Qed.

Lemma digit_round_trip l :
  List.length l = 4%nat -> bits_of_digit (toString16 (parseInt2 l)) = l.
Proof.
  intros H.
  destruct l as [|[] [|[] [|[] [|[] [|? l]]]]]; cbn in H; try lia; reflexivity.
Qed.

Lemma slices_cover n : forall (pre l : list bool),
  List.length l = (4 * n)%nat ->
  flat_map (fun k => slice4 (pre ++ l) (List.length pre + 4 * k)) (seq 0 n) = l.
Proof.
  induction n as [|n IH]; intros pre l H.
  - destruct l; [reflexivity|discriminate].
  - destruct l as [|a [|b [|c [|d l]]]]; cbn [List.length] in H; try lia.
    cbn [seq flat_map]. rewrite <- seq_shift, flat_map_concat_map, map_map.
    rewrite <- flat_map_concat_map.
    assert (F : slice4 (pre ++ a :: b :: c :: d :: l) (List.length pre + 4 * 0)
                = [a; b; c; d]).
    { unfold slice4. rewrite Nat.mul_0_r, Nat.add_0_r, skipn_app, skipn_all.
      rewrite Nat.sub_diag. reflexivity. }
    rewrite F. cbn [app]. do 4 f_equal.
    etransitivity; [|apply (IH (pre ++ [a; b; c; d])%list l); lia].
    apply flat_map_ext. intros k. f_equal.
    + rewrite <- app_assoc. reflexivity.
    + rewrite length_app. cbn [List.length]. lia.
Qed.

Lemma to_hex_shape (l : list bool) :
  List.length l = 64%nat ->
  String.length (to_hex l) = 16%nat
  /\ forallb is_hex_digit (list_ascii_of_string (to_hex l)) = true
  /\ bits_of_hex (to_hex l) = l.
Proof.
  intros H. unfold to_hex, bits_of_hex.
  rewrite string_of_list_length, length_map, length_seq.
  rewrite list_ascii_of_string_of_list_ascii.
  split; [reflexivity|]. split.
  - apply forallb_forall. intros c Hc. apply in_map_iff in Hc.
    destruct Hc as (k & <- & _). apply digit_is_hex.
    unfold slice4. rewrite length_firstn. lia.
  - rewrite flat_map_concat_map, map_map, <- flat_map_concat_map.
    etransitivity; [|apply (@slices_cover 16 [] l H)].
    cbn [app List.length Nat.add].
    rewrite !flat_map_concat_map. f_equal.
    apply map_ext_in. intros k Hk. apply in_seq in Hk.
    apply digit_round_trip. unfold slice4.
    rewrite length_firstn, length_skipn. lia.
Qed.

Section AHash.
Variable Image : Type.
Variable decode : string -> option Image.
Variable getImageData : Image -> Z -> Z -> Z -> Z.
Variable num : Type.
Variable of_int : Z -> num.
Variables c299 c587 c114 : num.
Variables add mul div : num -> num -> num.
Variable ge : num -> num -> bool.

Let bits := bits of_int c299 c587 c114 add mul div ge.
Let aHashDataURL :=
  aHashDataURL decode getImageData.

Lemma bits_length d : List.length (bits d) = 64%nat.
Proof. unfold bits, Hash.bits, gray. cbv zeta. rewrite !length_map. reflexivity. Qed.

(** X24: for an image that decodes, [aHashDataURL] returns a string of
    16 hexadecimal digits, never [null]; the digits spell the 64 bits
    of the comparison of each pixel with the mean, four to a digit in
    their order, so that two images have the same hash exactly when
    they have the same bits.  An image of one colour hashes to sixteen
    zeros or to sixteen [f], whatever the arithmetic of doubles makes
    of the mean. *)
Theorem aHash_is_sixteen_hex_digits (url : string) (img : Image) :
  decode url = Some img ->
  let d := getImageData img 8 8 in
  exists hex,
    aHashDataURL false of_int c299 c587 c114 add mul div ge url = Some (Some hex)
    /\ String.length hex = 16%nat
    /\ forallb is_hex_digit (list_ascii_of_string hex) = true
    /\ bits_of_hex hex = bits d
    /\ ((forall j, d (4 * j) = d 0 /\ d (4 * j + 1) = d 1 /\ d (4 * j + 2) = d 2) ->
        hex = "0000000000000000" \/ hex = "ffffffffffffffff").
Proof.
  intros Hd. cbv zeta.
  destruct (@to_hex_shape _ (bits_length (getImageData img 8 8))) as (L & Hx & Rt).
  exists (to_hex (bits (getImageData img 8 8))).
  split.
  { unfold aHashDataURL, Hash.aHashDataURL, page_promise. rewrite Hd.
    unfold onload. fold bits.
    destruct (String.eqb_spec (to_hex (bits (getImageData img 8 8))) "") as [E|_];
      [|reflexivity].
    rewrite E in L. discriminate. }
  split; [exact L|]. split; [exact Hx|]. split; [exact Rt|].
  intros Hflat. unfold bits, Hash.bits. cbv zeta.
  set (d := getImageData img 8 8) in *.
  set (avg := div _ _).
  assert (G : gray of_int c299 c587 c114 add mul d
              = repeat (gr of_int c299 c587 c114 add mul d 0) 64).
  { unfold gray. change 64%nat with (List.length (seq 0 64)) at 2.
    generalize (seq 0 64) as l. induction l as [|j l IH]; [reflexivity|].
    cbn [map List.length repeat]. f_equal; [|exact IH].
    unfold gr. destruct (Hflat (Z.of_nat j)) as (E0 & E1 & E2).
    rewrite E0, E1, E2. reflexivity. }
  rewrite G, map_repeat.
  destruct (ge _ avg); [right|left]; reflexivity.
Qed.

(** X25: [aHashDataURL] installs no [onerror] handler: for a URL that
    does not decode the promise is never resolved and the call never
    returns; it returns [null] only when the page cannot set the image
    up at all. *)
Theorem aHash_pending_on_undecodable (url : string) :
  decode url = None ->
  aHashDataURL false of_int c299 c587 c114 add mul div ge url = None
  /\ aHashDataURL true of_int c299 c587 c114 add mul div ge url = Some None.
Proof.
  intros H. unfold aHashDataURL, Hash.aHashDataURL, page_promise.
  rewrite H. split; reflexivity.
Qed.
End AHash.

Lemma aHash_is_sixteen_hex_digits_witness :
  let d := flat_pixels 100 8 8 in
  exists hex,
    Hash.aHashDataURL flat_decode flat_pixels false milli 299 587 114
                      Z.add milli_mul milli_div Z.geb "data:grey,100"
    = Some (Some hex)
    /\ String.length hex = 16%nat
    /\ forallb is_hex_digit (list_ascii_of_string hex) = true
    /\ bits_of_hex hex
       = Hash.bits milli 299 587 114 Z.add milli_mul milli_div Z.geb d
    /\ ((forall j, d (4 * j) = d 0 /\ d (4 * j + 1) = d 1 /\ d (4 * j + 2) = d 2) ->
        hex = "0000000000000000" \/ hex = "ffffffffffffffff").
Proof.
  apply (@aHash_is_sixteen_hex_digits Z flat_decode flat_pixels Z milli
           299 587 114 Z.add milli_mul milli_div Z.geb "data:grey,100" 100).
  reflexivity.
Defined.

Lemma aHash_pending_on_undecodable_witness :
  Hash.aHashDataURL flat_decode flat_pixels false milli 299 587 114
                    Z.add milli_mul milli_div Z.geb "data:text/plain,hello"
  = None
  /\ Hash.aHashDataURL flat_decode flat_pixels true milli 299 587 114
                       Z.add milli_mul milli_div Z.geb "data:text/plain,hello"
     = Some None.
Proof.
  apply (@aHash_pending_on_undecodable Z flat_decode flat_pixels Z milli
           299 587 114 Z.add milli_mul milli_div Z.geb "data:text/plain,hello").
  reflexivity.
Defined.

End PixelFacts.


(* ===================================================================== *)
(** * Tracing is an observation *)
(* ===================================================================== *)

Module TraceFacts.
Import Engine Eyes Runner Sample Tracing MonadFacts.
Local Open Scope eyes_scope.












































(** ** One line for each action *)

Lemma q_refl w : quiet w w.
Proof. intros H. split; [exact H|reflexivity]. Qed.

Lemma q_trans a b c : quiet a b -> quiet b c -> quiet a c.
Proof.
  unfold quiet. intros H1 H2 Ha. destruct (H1 Ha) as [Hb E1].
  destruct (H2 Hb) as [Hc E2]. split; [exact Hc|congruence].
Qed.

Lemma trace_lines_app l l' :
  trace_lines (l ++ l') = (trace_lines l ++ trace_lines l')%list.
Proof. unfold trace_lines. apply filter_app. Qed.

Lemma q_call c : respects quiet (call c).
Proof.
  intros w H. unfold call.
  assert (G : traces (served c w)
              /\ trace_lines (log (served c w)) = trace_lines (log w)).
  { split; [exact H|]. unfold served. cbn [log]. rewrite trace_lines_app.
    apply app_nil_r. }
  destruct (answer (next_outcome w)); exact G.
Qed.

Lemma q_tell e :
  match e with Traced _ _ _ _ => False | _ => True end ->
  respects quiet (tell e).
Proof.
  intros He w H. split; [exact H|]. cbn. rewrite trace_lines_app.
  destruct e; try contradiction; apply app_nil_r.
Qed.

Lemma q_metrics f : respects quiet (modify (with_metrics f)).
Proof. intros w H. split; [exact H|reflexivity]. Qed.

Ltac q_base :=
  first [ apply q_call | apply q_tell; exact I | apply q_metrics ].

Ltac q := RespectFacts.respects_by q_refl q_trans q_base.

Lemma q_requirePage : respects quiet _requirePage.
Proof. unfold _requirePage. q. Qed.

Lemma q_microIdle : respects quiet _microIdle.
Proof. unfold _microIdle. q. Qed.

Lemma q_afterAction action start : respects quiet (_afterAction action start).
Proof. unfold _afterAction. q. Qed.

Lemma q_errors_incr : respects quiet errors_incr.
Proof. unfold errors_incr. q. Qed.

Lemma q_suggestSelectors s : respects quiet (_suggestSelectors s).
Proof. unfold _suggestSelectors. q; apply q_requirePage. Qed.

Ltac q_known :=
  first [ apply q_requirePage | apply q_microIdle | apply q_afterAction
        | apply q_errors_incr | apply q_suggestSelectors | q_base ].

Ltac q_all := RespectFacts.respects_by q_refl q_trans q_known.

(** The line that [_trace] writes when tracing is on. *)
Lemma trace_writes ev start ok err w :
  traces w ->
  let w' := snd (_trace ev start ok err w) in
  fst (_trace ev start ok err w) = Ok tt
  /\ traces w' /\ now w' = now w
  /\ trace_lines (log w')
     = (trace_lines (log w) ++ [Traced ev (now w - start) ok err])%list.
Proof.
  intros H. unfold traces in H.
  unfold _trace, bind, get, modify, Date_now, tell.
  cbn [fst snd state]. rewrite H. cbn [negb fst snd state log now].
  split; [reflexivity|]. split; [exact H|]. split; [reflexivity|].
  rewrite trace_lines_app. reflexivity.
Qed.

Lemma now_afterAction action start w :
  now (snd (_afterAction action start w)) = now w.
Proof. reflexivity. Qed.

(** The end of a [try] block: the line, then the count. *)
Lemma lines_ok_end {A} name start (r : A) :
  lines_ok name start
           (_trace name start true None ;;; _afterAction name start ;;; ret r).
Proof.
  intros w H.
  destruct (@trace_writes name start true None w H) as (E & H1 & N & L).
  set (w1 := snd (_trace name start true None w)) in *.
  assert (R : (_trace name start true None ;;; _afterAction name start ;;; ret r) w
              = (Ok r, snd (_afterAction name start w1))).
  { unfold bind at 1.
    replace (_trace name start true None w) with (@Ok unit tt, w1)
      by (subst w1; destruct (_trace name start true None w); cbn in *; congruence).
    reflexivity. }
  rewrite R. cbn [fst snd]. unfold one_line.
  destruct (@q_afterAction name start w1 H1) as [_ L2].
  rewrite L2, L, now_afterAction, N. reflexivity.
Qed.

Lemma lines_ok_end_unit name start :
  lines_ok name start
           (_trace name start true None ;;; _afterAction name start).
Proof.
  intros w H.
  destruct (@trace_writes name start true None w H) as (E & H1 & N & L).
  set (w1 := snd (_trace name start true None w)) in *.
  assert (R : (_trace name start true None ;;; _afterAction name start) w
              = (Ok tt, snd (_afterAction name start w1))).
  { unfold bind at 1.
    replace (_trace name start true None w) with (@Ok unit tt, w1)
      by (subst w1; destruct (_trace name start true None w); cbn in *; congruence).
    reflexivity. }
  rewrite R. cbn [fst snd]. unfold one_line.
  destruct (@q_afterAction name start w1 H1) as [_ L2].
  rewrite L2, L, now_afterAction, N. reflexivity.
Qed.

Lemma lines_ok_bind {A B} name start (m : E A) (k : A -> E B) :
  respects quiet m -> (forall a, lines_ok name start (k a)) ->
  lines_ok name start (bind m k).
Proof.
  intros Hm Hk w H. unfold bind. specialize (Hm w).
  destruct (m w) as [[a|e] w1]; cbn [fst snd] in *.
  - destruct (Hm H) as [H1 L1]. specialize (Hk a w1 H1).
    destruct (k a w1) as [[b|e] w2]; cbn [fst snd] in *.
    + unfold one_line in *. rewrite Hk, L1. reflexivity.
    + eapply q_trans; [exact Hm|exact Hk].
  - exact Hm.
Qed.

(** The end of a [catch] block: the line, then the error. *)
Lemma lines_throw_end {A} name start e :
  lines_throw name start
              (_trace name start false (Some e) ;;; @throw AgentEyes A e).
Proof.
  intros w H.
  destruct (@trace_writes name start false (Some e) w H) as (E & H1 & N & L).
  set (w1 := snd (_trace name start false (Some e) w)) in *.
  assert (R : (_trace name start false (Some e) ;;; @throw AgentEyes A e) w
              = (Throw e, w1)).
  { unfold bind.
    replace (_trace name start false (Some e) w) with (@Ok unit tt, w1)
      by (subst w1; destruct (_trace name start false (Some e) w); cbn in *; congruence).
    reflexivity. }
  rewrite R. cbn [fst snd is_ok]. split; [reflexivity|].
  unfold one_line. cbn [is_ok]. rewrite L, N. reflexivity.
Qed.

Lemma lines_throw_bind {A B} name start (m : E A) (k : A -> E B) :
  respects quiet m -> never_throws m ->
  (forall a, lines_throw name start (k a)) ->
  lines_throw name start (bind m k).
Proof.
  intros Hm Hn Hk w H. unfold bind. specialize (Hm w). specialize (Hn w).
  destruct (m w) as [[a|e] w1]; cbn [fst snd is_ok] in *; [|discriminate].
  destruct (Hm H) as [H1 L1]. destruct (Hk a w1 H1) as [T L].
  split; [exact T|]. unfold one_line in *. rewrite L, L1. reflexivity.
Qed.

Lemma one_line_try {A} name start (body : E A) (h : Thrown -> E A) w :
  lines_ok name start body -> (forall e, lines_throw name start (h e)) ->
  traces w ->
  one_line name start (fst (try_catch body h w)) w (snd (try_catch body h w)).
Proof.
  intros Hb Hh H. unfold try_catch. specialize (Hb w H).
  destruct (body w) as [[a|e] w1]; cbn [fst snd] in *.
  - exact Hb.
  - destruct (Hb H) as [H1 L1]. destruct (Hh e w1 H1) as [_ L].
    unfold one_line in *. rewrite L, L1. reflexivity.
Qed.

Ltac lines_body :=
  repeat (intros;
          first [ apply lines_ok_end_unit | apply lines_ok_end
                | apply lines_ok_bind; [solve [q_all]|]
                | progress cbv zeta ]).

Ltac lines_handler :=
  repeat (intros;
          first [ apply lines_throw_end
                | apply lines_throw_bind;
                  [solve [q_all] | solve [ActionFacts.nt] |]
                | progress cbv zeta ]).

Ltac one_line_action Hp Ht :=
  rewrite ActionFacts.bind_Date_now, ActionFacts.bind_requirePage by exact Hp;
  cbv zeta;
  apply one_line_try; [lines_body|lines_handler|exact Ht].

(** X27: with tracing on, an invocation of [wait], [click], [scroll],
    [keys] or [exec] on an open session writes exactly one line to the
    trace: the name of the action, the time from its start to its end,
    whether it returned, and the error that it throws if it did not. *)
Theorem trace_has_one_line_per_action (args : Args) (w : World AgentEyes) :
  page (state w) = true ->
  traces w ->
  one_line "wait" (now w) (fst (wait args w)) w (snd (wait args w))
  /\ one_line "click" (now w) (fst (click args w)) w (snd (click args w))
  /\ one_line "scroll" (now w) (fst (scroll args w)) w (snd (scroll args w))
  /\ one_line "keys" (now w) (fst (keys args w)) w (snd (keys args w))
  /\ one_line "exec" (now w) (fst (exec args w)) w (snd (exec args w)).
Proof.
  intros Hp Ht. repeat split.
  - unfold wait. one_line_action Hp Ht.
  - unfold click. one_line_action Hp Ht.
  - unfold scroll. one_line_action Hp Ht.
  - unfold keys. one_line_action Hp Ht.
  - unfold exec. one_line_action Hp Ht.
Qed.

Lemma trace_has_one_line_per_action_witness :
  let args := Plans.slow_typing in
  let w := tracing in
  one_line "wait" (now w) (fst (wait args w)) w (snd (wait args w))
  /\ one_line "click" (now w) (fst (click args w)) w (snd (click args w))
  /\ one_line "scroll" (now w) (fst (scroll args w)) w (snd (scroll args w))
  /\ one_line "keys" (now w) (fst (keys args w)) w (snd (keys args w))
  /\ one_line "exec" (now w) (fst (exec args w)) w (snd (exec args w)).
Proof.
  apply (@trace_has_one_line_per_action Plans.slow_typing tracing); reflexivity.
Defined.

End TraceFacts.


(* ===================================================================== *)
(** * Properties of the canvas hook *)
(* ===================================================================== *)

Module DetectFacts.
Import Detect.

Lemma add_In x t set : In t (add x set) <-> t = x \/ In t set.
Proof.
  unfold add. destruct (existsb (String.eqb x) set) eqn:E.
  - apply existsb_exists in E. destruct E as (y & Hy & Exy).
    apply String.eqb_eq in Exy. subst y.
    split; [auto|]. intros [->|H]; assumption.
  - rewrite in_app_iff. cbn [In]. split.
    + intros [H|[H|[]]]; auto.
    + intros [H|H]; auto.
Qed.

Lemma add_NoDup x set : NoDup set -> NoDup (add x set).
Proof.
  intros H. unfold add. destruct (existsb (String.eqb x) set) eqn:E; [exact H|].
  assert (N : ~ In x set).
  { intros Hin. apply Bool.not_true_iff_false in E. apply E.
    apply existsb_exists. exists x. split; [exact Hin|apply String.eqb_refl]. }
  clear E. induction H as [|y l Hy Hl IH]; cbn [app].
  - repeat constructor. intros [].
  - constructor.
    + rewrite in_app_iff. cbn [In]. intros [G|[G|[]]]; [auto|].
      apply N. left. symmetry. exact G.
    + apply IH. intros G. apply N. right. exact G.
Qed.

Section Page.
Variable toDataURL : Z -> option string.

Lemma capture_keeps e :
  __canvasHookInstalled (capture toDataURL e) = __canvasHookInstalled e
  /\ ctxTypes (capture toDataURL e) = ctxTypes e
  /\ lastCanvas (capture toDataURL e) = lastCanvas e
  /\ (lastCanvas e = None -> canvasFrame (capture toDataURL e) = canvasFrame e).
Proof.
  unfold capture. destruct (lastCanvas e) as [c|] eqn:L.
  - destruct (toDataURL c); cbn; rewrite ?L; repeat split; discriminate.
  - rewrite L. auto.
Qed.

Lemma captures_keep n e :
  __canvasHookInstalled (Nat.iter n (capture toDataURL) e) = __canvasHookInstalled e
  /\ ctxTypes (Nat.iter n (capture toDataURL) e) = ctxTypes e
  /\ lastCanvas (Nat.iter n (capture toDataURL) e) = lastCanvas e
  /\ (lastCanvas e = None ->
      canvasFrame (Nat.iter n (capture toDataURL) e) = canvasFrame e).
Proof.
  induction n as [|n (IH0 & IH1 & IH2 & IH3)]; [cbn; auto|].
  rewrite !Nat.iter_succ.
  destruct (capture_keeps (Nat.iter n (capture toDataURL) e)) as (C0 & C1 & C2 & C3).
  rewrite C0, C1, C2, IH0, IH1, IH2. repeat split.
  intros L. rewrite C3 by (rewrite IH2; exact L). apply IH3, L.
Qed.

Lemma requested_app evs evs' t c :
  requested (evs ++ evs') t c <-> requested evs t c \/ requested evs' t c.
Proof. unfold requested. rewrite in_app_iff. tauto. Qed.

Lemma step_sound evs w ev :
  hook_sound evs w -> hook_sound (evs ++ [ev]) (step toDataURL w ev).
Proof.
  intros (e & He & Hi & Hw & Hn & Ht & Hc & Hf).
  assert (Keep : forall e',
             __canvasHookInstalled e' = __canvasHookInstalled e ->
             ctxTypes e' = ctxTypes e -> lastCanvas e' = lastCanvas e ->
             (lastCanvas e = None -> canvasFrame e' = canvasFrame e) ->
             (forall t c, requested [ev] t c -> requested evs t c) ->
             hook_sound (evs ++ [ev])
                        (mkWindow (Some e') (orig w) (wrapped w) (intervals w))).
  { intros e' K0 K1 K2 K3 R. exists e'. cbn [__EYES wrapped].
    rewrite K0, K1, K2.
    split; [reflexivity|]. split; [exact Hi|]. split; [exact Hw|].
    split; [exact Hn|]. split; [|split].
    - intros t. rewrite Ht. split.
      + intros [c H]. exists c. apply requested_app. auto.
      + intros [c H]. apply requested_app in H. destruct H as [H|H]; eauto.
    - intros c H. destruct (Hc c H) as [t G]. exists t. apply requested_app. auto.
    - intros L. destruct (Hf L) as [F1 F2]. rewrite K3 by exact L. auto. }
  unfold step. rewrite He. destruct ev as [canvas type ctx|].
  - destruct (Nat.ltb_spec 0 (wrapped w)) as [_|G]; [|lia].
    unfold hooked_getContext. destruct type as [t|].
    + destruct (andb ctx (existsb (String.eqb t) targetTypes)) eqn:E.
      * apply andb_true_iff in E. destruct E as [-> E].
        apply existsb_exists in E. destruct E as (t' & Hin & Et).
        apply String.eqb_eq in Et. subst t'.
        assert (Rq : requested [GetContext canvas (Str t) true] t canvas).
        { split; [left; reflexivity|exact Hin]. }
        exists (mkEYES (__canvasHookInstalled e) (add t (ctxTypes e)) (Some canvas)
                       (canvasFrame e)).
        cbn [__EYES wrapped __canvasHookInstalled ctxTypes lastCanvas canvasFrame].
        split; [reflexivity|]. split; [exact Hi|]. split; [exact Hw|].
        split; [apply add_NoDup, Hn|]. split; [|split].
        -- intros u. rewrite add_In, Ht. split.
           ++ intros [->|[c H]].
              ** exists canvas. apply requested_app. auto.
              ** exists c. apply requested_app. auto.
           ++ intros [c H]. apply requested_app in H. destruct H as [H|H].
              ** right. eauto.
              ** destruct H as [[H|[]] _]. injection H as _ ->. auto.
        -- intros c H. injection H as <-. exists t. apply requested_app. auto.
        -- discriminate.
      * destruct e as [i ts lc cf]. apply Keep; try reflexivity.
        intros u c [[H|[]] Hu]. injection H as -> -> ->.
        exfalso. apply andb_false_iff in E. destruct E as [E|E]; [discriminate|].
        apply Bool.not_true_iff_false in E. apply E.
        apply existsb_exists. exists u. split; [exact Hu|apply String.eqb_refl].
    + destruct e as [i ts lc cf]. apply Keep; try reflexivity.
      intros u c [[H|[]] _]. discriminate.
  - destruct (captures_keep (intervals w) e) as (K0 & K1 & K2 & K3).
    apply Keep; try assumption.
    intros u c [[H|[]] _]. discriminate.
Qed.

Lemma page_runs_sound evs' :
  forall evs w,
    hook_sound evs w -> hook_sound (evs ++ evs') (page_runs toDataURL evs' w).
Proof.
  induction evs' as [|ev evs' IH]; intros evs w H.
  - rewrite app_nil_r. exact H.
  - cbn [page_runs fold_left].
    replace (evs ++ ev :: evs')%list with ((evs ++ [ev]) ++ evs')%list
      by (rewrite <- app_assoc; reflexivity).
    apply IH, step_sound, H.
Qed.

Lemma installer_sound w :
  __EYES w = None -> orig w = true -> hook_sound [] (installer w).
Proof.
  intros He Ho. unfold installer. rewrite He, Ho. cbn [negb orb __canvasHookInstalled].
  eexists. cbn [__EYES wrapped]. split; [reflexivity|].
  cbn [__canvasHookInstalled ctxTypes lastCanvas canvasFrame].
  split; [reflexivity|]. split; [lia|]. split; [constructor|].
  split; [|split].
  - intros t. split; [intros []|intros [c [[] _]]].
  - discriminate.
  - auto.
Qed.

(** X28: in a fresh document in which the canvas hook is installed,
    after any sequence of [getContext] calls and seconds, the context
    types that [detectCanvasAndTypes] reports are, without
    repetition, exactly the types among 'webgl', 'webgl2',
    'gpupresent' and 'webgpu' for which a script of the page has
    obtained a context; a 2d context, a refused context and a type
    that is not a string leave no mark.  [hasCanvas] holds exactly when
    some type is reported, a captured frame implies [hasCanvas], and
    running the installer again changes nothing. *)
Theorem canvas_hook_reports_requested_types (evs : list HookEvent) (w0 : Window) :
  __EYES w0 = None ->
  orig w0 = true ->
  let w := page_runs toDataURL evs (installer w0) in
  let hasCanvas := fst (detectCanvasAndTypes w) in
  let types := snd (detectCanvasAndTypes w) in
  NoDup types
  /\ (forall t, In t types <-> exists c, requested evs t c)
  /\ (hasCanvas = true <-> types <> [])
  /\ (getLastCanvasFrame w <> None -> hasCanvas = true)
  /\ installer w = w.
Proof.
  intros He Ho. cbv zeta.
  destruct (@page_runs_sound evs [] (installer w0) (@installer_sound w0 He Ho))
    as (e & E & Hi & Hw & Hn & Ht & Hc & Hf).
  cbn [app] in *.
  remember (page_runs toDataURL evs (installer w0)) as w eqn:Hw0. clear Hw0.
  unfold detectCanvasAndTypes, getLastCanvasFrame. rewrite E. cbn [fst snd].
  split; [exact Hn|]. split; [exact Ht|]. split; [|split].
  - destruct (lastCanvas e) as [c|] eqn:L.
    + split; [|reflexivity]. intros _ N.
      destruct (Hc c eq_refl) as [t R].
      assert (G : In t (ctxTypes e)) by (apply Ht; eauto).
      rewrite N in G. exact G.
    + destruct (Hf eq_refl) as [F1 _]. rewrite F1. split; [discriminate|congruence].
  - destruct (lastCanvas e) as [c|] eqn:L; [reflexivity|].
    destruct (Hf eq_refl) as [_ F2]. rewrite F2. congruence.
  - unfold installer. rewrite E, Hi, orb_true_r.
    destruct w; cbn in *. congruence.
Qed.
End Page.

Lemma canvas_hook_reports_requested_types_witness :
  let w := page_runs sample_toDataURL webgl_page (installer fresh_window) in
  let hasCanvas := fst (detectCanvasAndTypes w) in
  let types := snd (detectCanvasAndTypes w) in
  NoDup types
  /\ (forall t, In t types <-> exists c, requested webgl_page t c)
  /\ (hasCanvas = true <-> types <> [])
  /\ (getLastCanvasFrame w <> None -> hasCanvas = true)
  /\ installer w = w.
Proof.
  apply (@canvas_hook_reports_requested_types sample_toDataURL webgl_page
           fresh_window); reflexivity.
Defined.

Lemma captures_idle toDataURL n e :
  lastCanvas e = None -> Nat.iter n (capture toDataURL) e = e.
Proof.
  intros L. induction n as [|n IH]; [reflexivity|].
  rewrite Nat.iter_succ, IH. unfold capture. rewrite L. reflexivity.
Qed.

Lemma unhooked_page_idle toDataURL evs w :
  wrapped w = O ->
  match __EYES w with Some e => lastCanvas e = None | None => True end ->
  page_runs toDataURL evs w = w.
Proof.
  intros Hw He. induction evs as [|ev evs IH]; [reflexivity|].
  cbn [page_runs fold_left].
  assert (S : step toDataURL w ev = w).
  { unfold step. destruct w as [[e|] o wr iv]; cbn [__EYES wrapped intervals orig] in *;
      [|reflexivity].
    destruct ev.
    - rewrite Hw. reflexivity.
    - rewrite captures_idle by exact He. reflexivity. }
  rewrite S. exact IH.
Qed.

(** X29: without the hook nothing is ever detected.  In a fresh
    document in which the installer has not run (as with [canvasHook:
    false]), or has run without finding
    [HTMLCanvasElement.prototype.getContext], the installer wraps
    nothing and starts no timer, and whatever calls of [getContext] the
    scripts of the page make and however much time passes,
    [detectCanvasAndTypes] says no canvas and no types and
    [getLastCanvasFrame] gives [null].  Scripts that write
    [window.__EYES] themselves are not among the events considered. *)
Theorem nothing_detected_without_hook (toDataURL : Z -> option string)
    (evs : list HookEvent) (w0 : Window) (injected : bool) :
  __EYES w0 = None ->
  wrapped w0 = O ->
  (injected = true -> orig w0 = false) ->
  let w := if injected then installer w0 else w0 in
  wrapped w = O
  /\ intervals w = intervals w0
  /\ detectCanvasAndTypes (page_runs toDataURL evs w) = (false, [])
  /\ getLastCanvasFrame (page_runs toDataURL evs w) = None.
Proof.
  intros He Hw Ho. cbv zeta. destruct injected.
  - assert (I0 : installer w0
                 = mkWindow (Some (mkEYES false [] None None)) (orig w0)
                            (wrapped w0) (intervals w0)).
    { unfold installer. rewrite He, (Ho eq_refl). reflexivity. }
    rewrite I0. cbn [wrapped intervals].
    split; [exact Hw|]. split; [reflexivity|].
    rewrite unhooked_page_idle; [split; reflexivity|exact Hw|reflexivity].
  - split; [exact Hw|]. split; [reflexivity|].
    rewrite unhooked_page_idle; [|exact Hw|rewrite He; exact I].
    unfold detectCanvasAndTypes, getLastCanvasFrame. rewrite He. auto.
Qed.

Lemma nothing_detected_without_hook_witness :
  wrapped (installer bare_window) = O
  /\ intervals (installer bare_window) = intervals bare_window
  /\ detectCanvasAndTypes
       (page_runs sample_toDataURL webgl_page (installer bare_window)) = (false, [])
  /\ getLastCanvasFrame
       (page_runs sample_toDataURL webgl_page (installer bare_window)) = None.
Proof.
  apply (@nothing_detected_without_hook sample_toDataURL webgl_page bare_window true);
    reflexivity.
Defined.

End DetectFacts.


(* ===================================================================== *)
(** * A run navigates only where the guard allows *)
(* ===================================================================== *)

Module GuardedFacts.
Import Engine Eyes Security Runner Sample Guarded MonadFacts RespectFacts ActionFacts.
Local Open Scope eyes_scope.

Lemma kg_refl w : keeps_guard w w.
Proof. repeat split; auto. Qed.

Lemma kg_trans a b c : keeps_guard a b -> keeps_guard b c -> keeps_guard a c.
Proof.
  intros (O1 & N1 & G1) (O2 & N2 & G2).
  split; [congruence|]. split; [congruence|].
  intros Ha.
  assert (Gb : gotos_admitted b (log b)).
  { intros u wu t H. destruct (G1 Ha u wu t H) as [raw Hr]. exists raw.
    unfold guard_options in *. rewrite O1, N1. exact Hr. }
  intros url wu t Hin. destruct (G2 Gb url wu t Hin) as [raw Hr]. exists raw.
  unfold guard_options in *. rewrite O1, N1 in Hr. exact Hr.
Qed.

Lemma kg_log w w' :
  options (state w') = options (state w) -> new_URL w' = new_URL w ->
  (forall e, In e (log w') -> In e (log w) \/
             match e with Called (Goto _ _ _) => False | _ => True end) ->
  keeps_guard w w'.
Proof.
  intros Ho Hn Hl. split; [exact Ho|]. split; [exact Hn|].
  intros G url wu t Hin. destruct (Hl _ Hin) as [H|[]]. exact (G url wu t H).
Qed.

Lemma kg_call c :
  match c with Goto _ _ _ => False | _ => True end ->
  respects keeps_guard (call c).
Proof.
  intros Hc w. unfold call.
  assert (K : keeps_guard w (served c w)).
  { apply kg_log; try reflexivity. intros e. cbn [served log].
    rewrite in_app_iff. intros [H|[<-|[]]]; [auto|].
    right. destruct c; try exact I; contradiction. }
  destruct (answer (next_outcome w)); exact K.
Qed.

Lemma kg_tell e :
  match e with Called _ => False | _ => True end ->
  respects keeps_guard (tell e).
Proof.
  intros He w. apply kg_log; try reflexivity. intros e'. cbn.
  rewrite in_app_iff. intros [H|[<-|[]]]; [auto|].
  right. destruct e; try exact I; contradiction.
Qed.

Lemma kg_modify f :
  (forall s, options (f s) = options s) -> respects keeps_guard (modify f).
Proof. intros H w. apply kg_log; cbn; auto. Qed.

Lemma kg_Math_random : respects keeps_guard (@Math_random AgentEyes).
Proof.
  intros w. unfold Math_random. destruct (random w); apply kg_log; cbn; auto.
Qed.

Ltac kg_base :=
  first [ apply kg_call; exact I | apply kg_tell; exact I
        | apply kg_modify; intros; reflexivity | apply kg_Math_random ].

Ltac kg := respects_by kg_refl kg_trans kg_base.

Lemma kg_trace ev start ok err : respects keeps_guard (_trace ev start ok err).
Proof. unfold _trace. kg. Qed.

Lemma kg_afterAction action start : respects keeps_guard (_afterAction action start).
Proof. unfold _afterAction. kg. Qed.

Lemma kg_errors_incr : respects keeps_guard errors_incr.
Proof. unfold errors_incr. kg. Qed.

Lemma kg_requirePage : respects keeps_guard _requirePage.
Proof. unfold _requirePage. kg. Qed.

Lemma kg_microIdle : respects keeps_guard _microIdle.
Proof. unfold _microIdle. kg. Qed.

Lemma kg_suggestSelectors s : respects keeps_guard (_suggestSelectors s).
Proof. unfold _suggestSelectors. kg; apply kg_requirePage. Qed.

Ltac kg_known :=
  first [ apply kg_trace | apply kg_afterAction | apply kg_errors_incr
        | apply kg_requirePage | apply kg_microIdle
        | apply kg_suggestSelectors | kg_base ].

Ltac kg_action := respects_by kg_refl kg_trans kg_known.

(** The one place where the engine is asked to navigate. *)
Lemma kg_goto url waitUntil timeout w :
  admitted w url ->
  keeps_guard w (snd (call (Goto url waitUntil timeout) w)).
Proof.
  intros Ha. unfold call.
  assert (K : keeps_guard w (served (Goto url waitUntil timeout) w)).
  { split; [reflexivity|]. split; [reflexivity|].
    intros G u wu t. cbn [served log]. rewrite in_app_iff.
    intros [H|[H|[]]]; [exact (G u wu t H)|].
    injection H as <- _ _. exact Ha. }
  destruct (answer (next_outcome w)); exact K.
Qed.

Lemma kg_navigate args : respects keeps_guard (navigate args).
Proof.
  intros w. unfold navigate. rewrite bind_Date_now.
  unfold bind at 1.
  pose proof (kg_requirePage w) as Kp.
  destruct (_requirePage w) as [[[]|e] w1] eqn:Ep; cbn [snd] in *; [|exact Kp].
  assert (Ew : w1 = w).
  { unfold _requirePage, bind, get in Ep. destruct (page (state w));
      unfold ret, throw in Ep; congruence. }
  subst w1. clear Kp Ep.
  destruct (negb _); [apply kg_refl|].
  rewrite bind_get, bind_URL_constructor.
  destruct (guardNavigation _ _ _) as [e|url] eqn:G; [apply kg_refl|].
  cbv zeta.
  assert (Ha : admitted w url) by (eexists; exact G).
  unfold try_catch.
  match goal with
  | |- context [bind (call (Goto ?u ?wu ?t)) ?k w] =>
      pose proof (@kg_goto u wu t w Ha) as Kg;
      assert (Kk : forall a, respects keeps_guard (k a)) by kg_action;
      unfold bind at 1;
      destruct (call (Goto u wu t) w) as [[v|e0] w1]; cbn [snd] in Kg
  end.
  - specialize (Kk v w1).
    match goal with
    | |- context [match ?m with _ => _ end] =>
        destruct m as [[a|e1] w2] eqn:Em; cbn [snd] in *
    end.
    + eapply kg_trans; eassumption.
    + eapply kg_trans; [eapply kg_trans; eassumption|].
      match goal with
      | |- keeps_guard w2 (snd (?h w2)) =>
          assert (Kh : respects keeps_guard h) by kg_action; apply Kh
      end.
  - eapply kg_trans; [exact Kg|].
    match goal with
    | |- keeps_guard w1 (snd (?h w1)) =>
        assert (Kh : respects keeps_guard h) by kg_action; apply Kh
    end.
Qed.

Lemma kg_dispatch action args : respects keeps_guard (_dispatch action args).
Proof.
  unfold _dispatch.
  repeat match goal with
         | |- respects _ (if ?b then _ else _) => destruct b
         end;
    first [ apply kg_navigate
          | unfold click; solve [kg_action]
          | unfold type; solve [kg_action]
          | unfold wait; solve [kg_action]
          | unfold scroll; solve [kg_action]
          | unfold keys; solve [kg_action]
          | unfold exec; solve [kg_action]
          | apply (@r_throw _ _ kg_refl) ].
Qed.

Lemma kg_wait args : respects keeps_guard (wait args).
Proof. unfold wait. kg_action. Qed.

Lemma kg_attempt_loop remaining i attempts action args :
  respects keeps_guard (attempt_loop remaining i attempts action args).
Proof.
  revert i. induction remaining as [|k IH]; intros i; cbn [attempt_loop].
  - apply (@r_ret _ _ kg_refl).
  - apply (@r_try _ _ kg_trans); [apply kg_dispatch|]. intros e. cbv zeta.
    destruct (negb _); [|apply (@r_throw _ _ kg_refl)].
    apply (@r_bind _ _ kg_trans); [apply kg_Math_random|]. intros u.
    apply (@r_bind _ _ kg_trans); [apply kg_wait|]. intros _. apply IH.
Qed.

Lemma kg_step_loop plan started l lastError :
  respects keeps_guard (step_loop plan started l lastError).
Proof.
  revert lastError. induction l as [|step l IH]; intros lastError; cbn [step_loop].
  - apply (@r_ret _ _ kg_refl).
  - apply (@r_bind _ _ kg_trans).
    + apply (@r_try _ _ kg_trans).
      * apply (@r_bind _ _ kg_trans); [apply kg_attempt_loop|].
        intros. apply (@r_ret _ _ kg_refl).
      * intros. apply (@r_ret _ _ kg_refl).
    + intros failure. cbv zeta.
      destruct (andb _ _); [apply (@r_ret _ _ kg_refl)|].
      apply (@r_bind _ _ kg_trans); [apply (@r_Date_now _ _ kg_refl)|]. intros t.
      destruct (match maxDurationMs plan with Some _ => _ | None => _ end);
        [apply (@r_ret _ _ kg_refl)|apply IH].
Qed.

Lemma kg_run plan : respects keeps_guard (run plan).
Proof.
  unfold run.
  destruct plan as [p|]; [|apply (@r_throw _ _ kg_refl)].
  destruct (steps p) as [l|]; [|apply (@r_throw _ _ kg_refl)].
  cbv zeta. destruct (_ >? _); [apply (@r_throw _ _ kg_refl)|].
  unfold screenshot, dom, state_, Artifacts.serializeDOM.
  respects_by kg_refl kg_trans ltac:(first [ apply kg_step_loop | kg_known ]).
Qed.

(** X30: a run never asks the engine to go where the guard does not
    allow, the allow-list of the session (if any) being a test whose
    answer depends on the URL alone.  Every [page.goto] in the log
    after a run of a plan, by whatever steps, retries and failures,
    went to the normalised form of a URL that parses, whose scheme is
    http or https and that the allow-list accepts; and unless the
    session was created with [blockPrivateIPs: false], the table of
    [isPrivateHostname] does not match its host, which is therefore
    neither [localhost] nor [::1] nor a dotted IPv4 address in 10/8,
    127/8, 169.254/16, 172.16/12 or 192.168/16. *)
Theorem run_navigates_only_where_allowed (plan : option Plan)
    (w : World AgentEyes) (url waitUntil : string) (timeout : Z) :
  gotos_admitted w (log w) ->
  In (Called (Goto url waitUntil timeout)) (log (snd (run plan w))) ->
  exists rawUrl u,
    new_URL w rawUrl = Some u /\ url = href u
    /\ (protocol u = "http:" \/ protocol u = "https:")
    /\ match opt_allowNavigationTo (options (state w)) with
       | Some allow => allow (href u) = true
       | None => True
       end
    /\ (opt_blockPrivateIPs (options (state w)) = Some false
        \/ (isPrivateHostname (hostname u) = false
            /\ Decide.outside_ranges (hostname u))).
Proof.
  intros G Hin.
  destruct (kg_run plan w) as (_ & _ & K).
  destruct (K G url waitUntil timeout Hin) as [raw Hr].
  exists raw. apply (GuardFacts.guard_returns _ _ _ Hr).
Qed.

Lemma run_navigates_only_where_allowed_witness :
  exists rawUrl u,
    new_URL parsing rawUrl = Some u /\ "https://example.com/" = href u
    /\ (protocol u = "http:" \/ protocol u = "https:")
    /\ match opt_allowNavigationTo (options (state parsing)) with
       | Some allow => allow (href u) = true
       | None => True
       end
    /\ (opt_blockPrivateIPs (options (state parsing)) = Some false
        \/ (isPrivateHostname (hostname u) = false
            /\ Decide.outside_ranges (hostname u))).
Proof.
  apply (@run_navigates_only_where_allowed
           (Some (mkPlan "visit"
                         (Some [go "http://127.0.0.1:8080/admin";
                                go "https://example.com"])
                         (Some false) None))
           parsing "https://example.com/" "load" 30000).
  - intros url wu t H. vm_compute in H. intuition discriminate.
  - vm_compute. auto 20.
Defined.

End GuardedFacts.
